(** * The L3 NAT agent of quantum/agent/l3_agent.py: a shallow embedding

    The agent keeps a registry [router_info] of the routers it implements
    on the host and drives the host (namespaces, devices, addresses,
    iptables rules) towards the router descriptors the plugin sends.

    Python objects become records, the registry a [gmap], and every call
    that leaves the agent (ip_lib, the interface driver, the iptables
    manager, the metadata proxy, the RPC proxy, the logger, the semaphore)
    becomes an [event] appended to a trace.  What those collaborators
    answer, and whether they raise, is decided by an environment [Env]
    that sees the whole trace so far.  Exceptions are values of [exn];
    a computation always returns the state it reached, so that what was
    mutated before an exception stays mutated, as in Python.

    What the trace leaves out: [root_helper], which every command carries
    unchanged; the [context] argument of the RPC calls; the pid-file
    callback given to the metadata proxy.  The iptables manager of a
    RouterInfo is named by the router id.  So that one can say which of
    its own methods the agent invoked, the six methods process_router
    chooses between (internal_network_added and _removed,
    external_gateway_added and _removed, floating_ip_added and _removed)
    record their entry in the trace as well.

    The file has the model first, then the vocabulary of the statements
    and the concrete routers used as examples, then the proofs. *)

From Stdlib Require Import String Ascii ZArith List Lia.
From stdpp Require Import base option list gmap strings pretty.

Local Open Scope string_scope.
Local Open Scope list_scope.

(** ** Descriptors sent by the plugin *)

Module FixedIp.
Record t := mk { ip_address : string }.
#[global] Instance eq_dec : EqDecision t.
Proof. solve_decision. Defined.
End FixedIp.

Module Subnet.
Record t := mk { cidr : string; gateway_ip : option string }.
#[global] Instance eq_dec : EqDecision t.
Proof. solve_decision. Defined.
End Subnet.

Module Port.
(** A port dict.  [ip_cidr] is the key [_set_subnet_info] adds. *)
Record t := mk {
  id : string;
  network_id : string;
  mac_address : string;
  fixed_ips : list FixedIp.t;
  subnet : Subnet.t;
  admin_state_up : bool;
  ip_cidr : option string
}.
#[global] Instance eq_dec : EqDecision t.
Proof. solve_decision. Defined.

Definition set_ip_cidr (c : string) (p : t) : t :=
  mk (id p) (network_id p) (mac_address p) (fixed_ips p) (subnet p)
     (admin_state_up p) (Some c).
End Port.

Module FloatingIp.
Record t := mk {
  id : string;
  floating_ip_address : string;
  fixed_ip_address : option string;
  port_id : option string
}.
#[global] Instance eq_dec : EqDecision t.
Proof. solve_decision. Defined.
End FloatingIp.

Module Router.
(** A router dict.  [external_gateway_info] is [None] for a null value,
    otherwise the value under its 'network_id' key ([None] when the key
    is absent); [_interfaces] and [_floatingips] are [[]] when the key
    is absent, as [dict.get(key, [])] reads them. *)
Record t := mk {
  id : string;
  admin_state_up : bool;
  external_gateway_info : option (option string);
  gw_port : option Port.t;
  _interfaces : list Port.t;
  _floatingips : list FloatingIp.t
}.
#[global] Instance eq_dec : EqDecision t.
Proof. solve_decision. Defined.

Definition set_gw_port (g : option Port.t) (r : t) : t :=
  mk (id r) (admin_state_up r) (external_gateway_info r) g
     (_interfaces r) (_floatingips r).
Definition set_interfaces (l : list Port.t) (r : t) : t :=
  mk (id r) (admin_state_up r) (external_gateway_info r) (gw_port r)
     l (_floatingips r).
End Router.

(** ** RouterInfo: what the agent has applied for one router *)

Module RouterInfo.
Record t := mk {
  router_id : string;
  ex_gw_port : option Port.t;
  internal_ports : list Port.t;
  floating_ips : list FloatingIp.t;
  use_namespaces : bool;
  router : option Router.t
}.
#[global] Instance eq_dec : EqDecision t.
Proof. solve_decision. Defined.

Definition set_ex_gw_port (g : option Port.t) (ri : t) : t :=
  mk (router_id ri) g (internal_ports ri) (floating_ips ri)
     (use_namespaces ri) (router ri).
Definition set_internal_ports (l : list Port.t) (ri : t) : t :=
  mk (router_id ri) (ex_gw_port ri) l (floating_ips ri)
     (use_namespaces ri) (router ri).
Definition set_floating_ips (l : list FloatingIp.t) (ri : t) : t :=
  mk (router_id ri) (ex_gw_port ri) (internal_ports ri) l
     (use_namespaces ri) (router ri).
Definition set_router (r : option Router.t) (ri : t) : t :=
  mk (router_id ri) (ex_gw_port ri) (internal_ports ri) (floating_ips ri)
     (use_namespaces ri) r.
End RouterInfo.

Definition NS_PREFIX : string := "qrouter-".
Definition INTERNAL_DEV_PREFIX : string := "qr-".
Definition EXTERNAL_DEV_PREFIX : string := "qg-".

(** [RouterInfo.ns_name]: falls off the end (returns None) without
    namespaces. *)
Definition ns_name (ri : RouterInfo.t) : option string :=
  if RouterInfo.use_namespaces ri
  then Some (NS_PREFIX +:+ RouterInfo.router_id ri)
  else None.

(** ** Configuration (L3NATAgent.OPTS, and the host the agent runs on) *)

Record Conf := {
  host : string;
  external_network_bridge : string;
  metadata_port : Z;
  send_arp_for_ha : Z;
  use_namespaces : bool;
  router_id : string;
  handle_internal_only_routers : bool;
  gateway_external_network_id : string
}.

(** ** Exceptions, truthiness *)

Inductive exn :=
| KeyError (key : string)
| IndexError
| TypeError
| ValueError
| AttributeError
| AddrFormatError
| Exception_ (msg : string)
| RemoteError (exc_type : string)
| OtherError (what : string).

#[global] Instance exn_eq_dec : EqDecision exn.
Proof. solve_decision. Defined.

Inductive result (A : Type) :=
| Ok (a : A)
| Raise (e : exn).
Arguments Ok {A} a.
Arguments Raise {A} e.

(** Python truth value of a string, and of a string-or-None. *)
Definition str_truthy (s : string) : bool := negb (String.eqb s "").
Definition truthy (o : option string) : bool :=
  match o with
  | Some s => str_truthy s
  | None => false
  end.

(** ** The trace *)

(** The value passed in the [fullsync] slot of the sync_routers message. *)
Inductive pyarg :=
| ArgNone
| ArgBool (b : bool)
| ArgStr (s : string).

Inductive event :=
(* self.sync_sem *)
| SemAcquire
| SemRelease
(* LOG.debug / LOG.error / LOG.exception; the last carries the exception *)
| Log (level msg : string) (exc : option exn)
(* L3PluginApi: the messages it sends *)
| Rpc_sync_routers (host : string) (fullsync : pyarg)
                   (router_ids : option (list string))
| Rpc_get_external_network_id (host : string)
(* ip_lib and utils.execute *)
| DeviceExists (name : string) (namespace : option string)
| EnsureNamespace (name : option string)
| GetDevices (namespace : option string)
| Execute (namespace : option string) (cmd : list string)
          (check_exit_code : bool)
| AddrList (device : string) (namespace : option string)
| AddrAdd (device : string) (namespace : option string)
          (version : Z) (cidr broadcast : string)
| AddrDelete (device : string) (namespace : option string)
             (version : Z) (cidr : string)
(* the interface driver *)
| Plug (network_id port_id device mac : string)
       (bridge namespace : option string) (prefix : string)
| Unplug (device : string) (bridge namespace : option string)
         (prefix : string)
| InitL3 (device : string) (cidrs : list string) (namespace : option string)
(* ri.iptables_manager *)
| AddRule (router table chain rule : string)
| RemoveRule (router table chain rule : string)
| Apply (router : string)
(* external_process.ProcessManager *)
| ProxyEnable (router : string) (namespace : option string)
| ProxyDisable (router : string) (namespace : option string)
(* entry into the agent's own reconciliation hooks *)
| Call_internal_network_added (router port_id internal_cidr : string)
| Call_internal_network_removed (router port_id internal_cidr : string)
| Call_external_gateway_added (router port_id : string)
| Call_external_gateway_removed (router port_id : string)
| Call_floating_ip_added (router floating_ip : string)
                         (fixed_ip : option string)
| Call_floating_ip_removed (router floating_ip : string)
                           (fixed_ip : option string).

#[global] Instance pyarg_eq_dec : EqDecision pyarg.
Proof. solve_decision. Defined.

#[global] Instance event_eq_dec : EqDecision event.
Proof. solve_decision. Defined.

(** What netaddr.IPNetwork computes from a CIDR string. *)
Record IPNetwork := {
  prefixlen : string;
  version : Z;
  broadcast : string
}.

(** ** The environment: every collaborator that is not the agent

    Each answer may depend on the trace so far.  [raises] says whether
    a call raises instead of returning. *)
Record Env := {
  raises : list event -> event -> option exn;
  env_device_exists : list event -> string -> option string -> bool;
  env_addr_list : list event -> string -> option string -> list string;
  env_get_devices : list event -> option string -> list string;
  env_sync_routers : list event -> list Router.t;
  env_get_external_network_id : list event -> string;
  (* netaddr.IPNetwork: None when it raises AddrFormatError *)
  ip_network : string -> option IPNetwork;
  (* self.driver.DEV_NAME_LEN *)
  DEV_NAME_LEN : nat
}.

(** ** The monad: trace so far and state in; result, state and the events
    emitted out *)

Definition M (S A : Type) : Type :=
  list event -> S -> result A * S * list event.

Definition ret {S A} (a : A) : M S A := fun _ s => (Ok a, s, []).

Definition raise {S A} (e : exn) : M S A := fun _ s => (Raise e, s, []).

Definition bind {S A B} (m : M S A) (k : A -> M S B) : M S B :=
  fun h s =>
    match m h s with
    | (Ok a, s1, d1) =>
        match k a (h ++ d1) s1 with
        | (r, s2, d2) => (r, s2, d1 ++ d2)
        end
    | (Raise e, s1, d1) => (Raise e, s1, d1)
    end.

Notation "x <- c1 ;; c2" := (bind c1 (fun x => c2))
  (at level 20, c1 at level 99, c2 at level 200, only parsing).
Notation "c1 ;; c2" := (bind c1 (fun _ => c2))
  (at level 100, c2 at level 200, only parsing, right associativity).

Definition get {S} : M S S := fun _ s => (Ok s, s, []).
Definition modify {S} (f : S -> S) : M S unit := fun _ s => (Ok tt, f s, []).

(** An event that cannot fail (log line, semaphore, hook entry). *)
Definition emit {S} (ev : event) : M S unit := fun _ s => (Ok tt, s, [ev]).

(** try: ... except Exception: handler *)
Definition try_except {S A} (m : M S A) (handler : exn -> M S A) : M S A :=
  fun h s =>
    match m h s with
    | (Ok a, s1, d1) => (Ok a, s1, d1)
    | (Raise e, s1, d1) =>
        match handler e (h ++ d1) s1 with
        | (r, s2, d2) => (r, s2, d1 ++ d2)
        end
    end.

(** with self.sync_sem: body -- released on every way out *)
Definition with_sync_sem {S A} (body : M S A) : M S A :=
  fun h s =>
    match body (h ++ [SemAcquire]) s with
    | (r, s1, d1) => (r, s1, SemAcquire :: d1 ++ [SemRelease])
    end.

(** for x in l: body x *)
Fixpoint for_each {S A} (l : list A) (body : A -> M S unit) : M S unit :=
  match l with
  | [] => ret tt
  | x :: l' => body x ;; for_each l' body
  end.

(** [x[key]] on something that may lack the key. *)
Definition of_option {S A} (o : option A) (e : exn) : M S A :=
  match o with
  | Some a => ret a
  | None => raise e
  end.

(** [[f(x) for x in l]] where [f] may raise. *)
Fixpoint mapM {S A B} (f : A -> M S B) (l : list A) : M S (list B) :=
  match l with
  | [] => ret []
  | x :: l' => y <- f x ;; ys <- mapM f l' ;; ret (y :: ys)
  end.

(** ** Python list and string operations *)

(** [l.remove(x)]: drops the first element equal to [x]; ValueError when
    there is none. *)
Fixpoint list_remove {A} `{EqDecision A} (x : A) (l : list A)
  : option (list A) :=
  match l with
  | [] => None
  | y :: l' =>
      if decide (y = x) then Some l'
      else match list_remove x l' with
           | Some l'' => Some (y :: l'')
           | None => None
           end
  end.

(** In-place update of a dict that sits in a list: the first element that
    is the dict [x] becomes [y]. *)
Fixpoint list_replace {A} `{EqDecision A} (x y : A) (l : list A) : list A :=
  match l with
  | [] => []
  | z :: l' => if decide (z = x) then y :: l' else z :: list_replace x y l'
  end.

(** [s.split('/')[0]] *)
Fixpoint before_slash (s : string) : string :=
  match s with
  | EmptyString => EmptyString
  | String c s' =>
      if Ascii.eqb c "/"%char then EmptyString
      else String c (before_slash s')
  end.

(** ['%s' % x] for a string-or-None *)
Definition py_str (o : option string) : string :=
  match o with
  | Some s => s
  | None => "None"
  end.

(** ** The agent's state *)

Record Agent := {
  router_info : gmap string RouterInfo.t;
  fullsync : bool
}.

Definition set_router_info (m : gmap string RouterInfo.t) (a : Agent)
  : Agent :=
  {| router_info := m; fullsync := fullsync a |}.
Definition set_fullsync (b : bool) (a : Agent) : Agent :=
  {| router_info := router_info a; fullsync := b |}.

(** The state [__init__] leaves: empty registry, full sync pending. *)
Definition initial_agent : Agent :=
  {| router_info := ∅; fullsync := true |}.

(** [ri = self.router_info[key]] followed by work on the object [ri]: the
    object is the one the registry holds, so whatever the work mutates
    is visible in the registry, also when the work raises. *)
Definition with_router {A} (key : string) (m : M RouterInfo.t A)
  : M Agent A :=
  fun h a =>
    match router_info a !! key with
    | None => (Raise (KeyError key), a, [])
    | Some ri =>
        match m h ri with
        | (r, ri', d) => (r, set_router_info (<[key := ri']> (router_info a)) a, d)
        end
    end.

Section WithEnv.

Context (env : Env) (conf : Conf).

(** A call to a collaborator: recorded, then it raises or returns. *)
Definition query {S A} (ev : event) (answer : list event -> A) : M S A :=
  fun h s =>
    match raises env h ev with
    | Some e => (Raise e, s, [ev])
    | None => (Ok (answer h), s, [ev])
    end.

Definition call {S} (ev : event) : M S unit := query ev (fun _ => tt).

(** *** L3PluginApi *)

Definition get_routers {S} (fullsync : pyarg) (router_id : option string)
  : M S (list Router.t) :=
  let router_ids :=
    match router_id with
    | Some i => if str_truthy i then Some [i] else None
    | None => None
    end in
  query (Rpc_sync_routers (host conf) fullsync router_ids)
        (env_sync_routers env).

Definition get_external_network_id {S} : M S string :=
  query (Rpc_get_external_network_id (host conf))
        (env_get_external_network_id env).

(** *** Rule generators *)

Definition metadata_filter_rules : list (string * string) :=
  [("INPUT", "-s 0.0.0.0/0 -d 127.0.0.1 -p tcp -m tcp --dport "
             +:+ pretty (metadata_port conf) +:+ " -j ACCEPT")].

Definition metadata_nat_rules : list (string * string) :=
  [("PREROUTING", "-s 0.0.0.0/0 -d 169.254.169.254/32 "
                  +:+ "-p tcp -m tcp --dport 80 -j REDIRECT --to-port "
                  +:+ pretty (metadata_port conf))].

Definition internal_network_nat_rules (ex_gw_ip internal_cidr : string)
  : list (string * string) :=
  [("snat", "-s " +:+ internal_cidr +:+ " -j SNAT --to-source " +:+ ex_gw_ip)].

Definition external_gateway_nat_rules (ex_gw_ip : string)
    (internal_cidrs : list string) (interface_name : string)
  : list (string * string) :=
  [("POSTROUTING", "! -i " +:+ interface_name +:+ " ! -o " +:+ interface_name
                   +:+ " -m conntrack ! --ctstate DNAT -j ACCEPT")]
  ++ concat (map (internal_network_nat_rules ex_gw_ip) internal_cidrs).

Definition floating_forward_rules (floating_ip : string)
    (fixed_ip : option string) : list (string * string) :=
  [("PREROUTING", "-d " +:+ floating_ip +:+ " -j DNAT --to " +:+ py_str fixed_ip);
   ("OUTPUT", "-d " +:+ floating_ip +:+ " -j DNAT --to " +:+ py_str fixed_ip);
   ("float-snat", "-s " +:+ py_str fixed_ip +:+ " -j SNAT --to " +:+ floating_ip)].

(** *** Device names *)

Definition get_internal_device_name (port_id : string) : string :=
  String.substring 0 (DEV_NAME_LEN env) (INTERNAL_DEV_PREFIX +:+ port_id).

Definition get_external_device_name (port_id : string) : string :=
  String.substring 0 (DEV_NAME_LEN env) (EXTERNAL_DEV_PREFIX +:+ port_id).

(** [port['fixed_ips'][0]['ip_address']] *)
Definition first_fixed_ip {S} (port : Port.t) : M S string :=
  match Port.fixed_ips port with
  | [] => raise IndexError
  | ip :: _ => ret (FixedIp.ip_address ip)
  end.

(** *** _set_subnet_info: returns the dict as it is after the call *)

Definition _set_subnet_info {S} (port : Port.t) : M S Port.t :=
  match Port.fixed_ips port with
  | [] =>
      raise (Exception_ ("Router port " +:+ Port.id port
                         +:+ " has no IP address"))
  | ip :: more =>
      (match more with
       | [] => ret tt
       | _ :: _ =>
           emit (Log "error" ("Ignoring multiple IPs on router port "
                              +:+ Port.id port) None)
       end) ;;
      match ip_network env (Subnet.cidr (Port.subnet port)) with
      | None => raise AddrFormatError
      | Some net =>
          ret (Port.set_ip_cidr
                 (FixedIp.ip_address ip +:+ "/" +:+ prefixlen net) port)
      end
  end.

(** *** Work on one RouterInfo *)

Definition add_rules (rid table : string) (rules : list (string * string))
  : M RouterInfo.t unit :=
  for_each rules (fun cr => call (AddRule rid table (fst cr) (snd cr))).

Definition remove_rules (rid table : string) (rules : list (string * string))
  : M RouterInfo.t unit :=
  for_each rules (fun cr => call (RemoveRule rid table (fst cr) (snd cr))).

Definition _send_gratuitous_arp_packet (ri : RouterInfo.t)
    (interface_name ip_address : string) : M RouterInfo.t unit :=
  if (0 <? send_arp_for_ha conf)%Z then
    let arping_cmd :=
      ["arping"; "-A"; "-U"; "-I"; interface_name;
       "-c"; pretty (send_arp_for_ha conf); ip_address] in
    try_except
      (if use_namespaces conf
       then call (Execute (ns_name ri) arping_cmd true)
       else call (Execute None arping_cmd true))
      (fun e => emit (Log "error" "Failed sending gratuitous ARP" (Some e)))
  else ret tt.

Definition external_gateway_added (ex_gw_port : Port.t)
    (internal_cidrs : list string) : M RouterInfo.t unit :=
  ri <- get ;;
  emit (Call_external_gateway_added (RouterInfo.router_id ri)
                                    (Port.id ex_gw_port)) ;;
  let interface_name := get_external_device_name (Port.id ex_gw_port) in
  ex_gw_ip <- first_fixed_ip ex_gw_port ;;
  present <- query (DeviceExists interface_name (ns_name ri))
                   (fun h => env_device_exists env h interface_name (ns_name ri)) ;;
  (if negb present
   then call (Plug (Port.network_id ex_gw_port) (Port.id ex_gw_port)
                   interface_name (Port.mac_address ex_gw_port)
                   (Some (external_network_bridge conf)) (ns_name ri)
                   EXTERNAL_DEV_PREFIX)
   else ret tt) ;;
  ip_cidr <- of_option (Port.ip_cidr ex_gw_port) (KeyError "ip_cidr") ;;
  call (InitL3 interface_name [ip_cidr] (ns_name ri)) ;;
  let ip_address := before_slash ip_cidr in
  _send_gratuitous_arp_packet ri interface_name ip_address ;;
  let gw_ip := Subnet.gateway_ip (Port.subnet ex_gw_port) in
  (if truthy gw_ip then
     let cmd := ["route"; "add"; "default"; "gw"; py_str gw_ip] in
     if use_namespaces conf
     then call (Execute (ns_name ri) cmd false)
     else call (Execute None cmd false)
   else ret tt) ;;
  add_rules (RouterInfo.router_id ri) "nat"
    (external_gateway_nat_rules ex_gw_ip internal_cidrs interface_name) ;;
  call (Apply (RouterInfo.router_id ri)).

Definition external_gateway_removed (ex_gw_port : Port.t)
    (internal_cidrs : list string) : M RouterInfo.t unit :=
  ri <- get ;;
  emit (Call_external_gateway_removed (RouterInfo.router_id ri)
                                      (Port.id ex_gw_port)) ;;
  let interface_name := get_external_device_name (Port.id ex_gw_port) in
  present <- query (DeviceExists interface_name (ns_name ri))
                   (fun h => env_device_exists env h interface_name (ns_name ri)) ;;
  (if present
   then call (Unplug interface_name (Some (external_network_bridge conf))
                     (ns_name ri) EXTERNAL_DEV_PREFIX)
   else ret tt) ;;
  ex_gw_ip <- first_fixed_ip ex_gw_port ;;
  remove_rules (RouterInfo.router_id ri) "nat"
    (external_gateway_nat_rules ex_gw_ip internal_cidrs interface_name) ;;
  call (Apply (RouterInfo.router_id ri)).

Definition internal_network_added (ex_gw_port : option Port.t)
    (network_id port_id internal_cidr mac_address : string)
  : M RouterInfo.t unit :=
  ri <- get ;;
  emit (Call_internal_network_added (RouterInfo.router_id ri)
                                    port_id internal_cidr) ;;
  let interface_name := get_internal_device_name port_id in
  present <- query (DeviceExists interface_name (ns_name ri))
                   (fun h => env_device_exists env h interface_name (ns_name ri)) ;;
  (if negb present
   then call (Plug network_id port_id interface_name mac_address
                   None (ns_name ri) INTERNAL_DEV_PREFIX)
   else ret tt) ;;
  call (InitL3 interface_name [internal_cidr] (ns_name ri)) ;;
  let ip_address := before_slash internal_cidr in
  _send_gratuitous_arp_packet ri interface_name ip_address ;;
  match ex_gw_port with
  | Some gw =>
      ex_gw_ip <- first_fixed_ip gw ;;
      add_rules (RouterInfo.router_id ri) "nat"
        (internal_network_nat_rules ex_gw_ip internal_cidr) ;;
      call (Apply (RouterInfo.router_id ri))
  | None => ret tt
  end.

Definition internal_network_removed (ex_gw_port : option Port.t)
    (port_id internal_cidr : string) : M RouterInfo.t unit :=
  ri <- get ;;
  emit (Call_internal_network_removed (RouterInfo.router_id ri)
                                      port_id internal_cidr) ;;
  let interface_name := get_internal_device_name port_id in
  present <- query (DeviceExists interface_name (ns_name ri))
                   (fun h => env_device_exists env h interface_name (ns_name ri)) ;;
  (if present
   then call (Unplug interface_name None (ns_name ri) INTERNAL_DEV_PREFIX)
   else ret tt) ;;
  match ex_gw_port with
  | Some gw =>
      ex_gw_ip <- first_fixed_ip gw ;;
      remove_rules (RouterInfo.router_id ri) "nat"
        (internal_network_nat_rules ex_gw_ip internal_cidr) ;;
      call (Apply (RouterInfo.router_id ri))
  | None => ret tt
  end.

(** [ex_gw_port] may be None here: [ex_gw_port['id']] is then a
    TypeError. *)
Definition floating_ip_added (ex_gw_port : option Port.t)
    (floating_ip : string) (fixed_ip : option string)
  : M RouterInfo.t unit :=
  ri <- get ;;
  emit (Call_floating_ip_added (RouterInfo.router_id ri)
                               floating_ip fixed_ip) ;;
  let ip_cidr := floating_ip +:+ "/32" in
  gw <- of_option ex_gw_port TypeError ;;
  let interface_name := get_external_device_name (Port.id gw) in
  addrs <- query (AddrList interface_name (ns_name ri))
                 (fun h => env_addr_list env h interface_name (ns_name ri)) ;;
  (if negb (bool_decide (ip_cidr ∈ addrs)) then
     net <- of_option (ip_network env ip_cidr) AddrFormatError ;;
     call (AddrAdd interface_name (ns_name ri) (version net) ip_cidr
                   (broadcast net)) ;;
     _send_gratuitous_arp_packet ri interface_name floating_ip
   else ret tt) ;;
  add_rules (RouterInfo.router_id ri) "nat"
    (floating_forward_rules floating_ip fixed_ip) ;;
  call (Apply (RouterInfo.router_id ri)).

Definition floating_ip_removed (ex_gw_port : option Port.t)
    (floating_ip : string) (fixed_ip : option string)
  : M RouterInfo.t unit :=
  ri <- get ;;
  emit (Call_floating_ip_removed (RouterInfo.router_id ri)
                                 floating_ip fixed_ip) ;;
  let ip_cidr := floating_ip +:+ "/32" in
  net <- of_option (ip_network env ip_cidr) AddrFormatError ;;
  gw <- of_option ex_gw_port TypeError ;;
  let interface_name := get_external_device_name (Port.id gw) in
  call (AddrDelete interface_name (ns_name ri) (version net) ip_cidr) ;;
  remove_rules (RouterInfo.router_id ri) "nat"
    (floating_forward_rules floating_ip fixed_ip) ;;
  call (Apply (RouterInfo.router_id ri)).

(** *** process_router_floating_ips *)

Definition floating_ip_ids (l : list FloatingIp.t) : gset string :=
  list_to_set (FloatingIp.id <$> l).

(** The first loop: over the descriptor's floating IPs, building
    [id_to_fip_map]. *)
Fixpoint floating_ips_first_loop (ex_gw_port : option Port.t)
    (existing_floating_ip_ids : gset string)
    (floating_ips : list FloatingIp.t)
    (id_to_fip_map : gmap string FloatingIp.t)
  : M RouterInfo.t (gmap string FloatingIp.t) :=
  match floating_ips with
  | [] => ret id_to_fip_map
  | fip :: rest =>
      if truthy (FloatingIp.port_id fip) then
        (if bool_decide (FloatingIp.id fip ∉ existing_floating_ip_ids) then
           modify (fun ri => RouterInfo.set_floating_ips
                               (RouterInfo.floating_ips ri ++ [fip]) ri) ;;
           floating_ip_added ex_gw_port
             (FloatingIp.floating_ip_address fip)
             (FloatingIp.fixed_ip_address fip)
         else ret tt) ;;
        floating_ips_first_loop ex_gw_port existing_floating_ip_ids rest
          (<[FloatingIp.id fip := fip]> id_to_fip_map)
      else
        floating_ips_first_loop ex_gw_port existing_floating_ip_ids rest
          id_to_fip_map
  end.

(** [ri.floating_ips.remove(fip)] *)
Definition remove_floating_ip (fip : FloatingIp.t) : M RouterInfo.t unit :=
  ri <- get ;;
  l <- of_option (list_remove fip (RouterInfo.floating_ips ri)) ValueError ;;
  modify (RouterInfo.set_floating_ips l).

(** The body of the second loop, for the element [fip] the iterator
    yields. *)
Definition floating_ips_second_body
    (floating_ip_ids_to_remove : gset string)
    (id_to_fip_map : gmap string FloatingIp.t) (fip : FloatingIp.t)
  : M RouterInfo.t unit :=
  ri <- get ;;
  if bool_decide (FloatingIp.id fip ∈ floating_ip_ids_to_remove) then
    remove_floating_ip fip ;;
    floating_ip_removed (RouterInfo.ex_gw_port ri)
      (FloatingIp.floating_ip_address fip)
      (FloatingIp.fixed_ip_address fip)
  else
    new_fip <- of_option (id_to_fip_map !! FloatingIp.id fip)
                         (KeyError (FloatingIp.id fip)) ;;
    let new_fixed_ip := FloatingIp.fixed_ip_address new_fip in
    let existing_fixed_ip := FloatingIp.fixed_ip_address fip in
    if truthy new_fixed_ip && truthy existing_fixed_ip
       && negb (bool_decide (new_fixed_ip = existing_fixed_ip)) then
      let floating_ip := FloatingIp.floating_ip_address fip in
      floating_ip_removed (RouterInfo.ex_gw_port ri)
        floating_ip existing_fixed_ip ;;
      floating_ip_added (RouterInfo.ex_gw_port ri)
        floating_ip new_fixed_ip ;;
      remove_floating_ip fip ;;
      modify (fun ri => RouterInfo.set_floating_ips
                          (RouterInfo.floating_ips ri ++ [new_fip]) ri)
    else ret tt.

(** The second loop is [for fip in ri.floating_ips] over the very list its
    body removes from and appends to: a Python list iterator keeps an
    index [i] into the live list, yields element [i] and moves on to
    [i + 1], and stops once [i] is past the end.  [fuel] bounds the number
    of rounds; [floating_ips_second_loop_fuel] below shows that the bound
    given in [process_router_floating_ips] is never what stops the loop. *)
Fixpoint floating_ips_second_loop (fuel : nat) (i : nat)
    (floating_ip_ids_to_remove : gset string)
    (id_to_fip_map : gmap string FloatingIp.t) : M RouterInfo.t unit :=
  match fuel with
  | O => ret tt
  | S fuel' =>
      ri <- get ;;
      match RouterInfo.floating_ips ri !! i with
      | None => ret tt
      | Some fip =>
          floating_ips_second_body floating_ip_ids_to_remove
                                   id_to_fip_map fip ;;
          floating_ips_second_loop fuel' (S i) floating_ip_ids_to_remove
                                   id_to_fip_map
      end
  end.

Definition process_router_floating_ips (ex_gw_port : option Port.t)
  : M RouterInfo.t unit :=
  ri <- get ;;
  r <- of_option (RouterInfo.router ri) AttributeError ;;
  let floating_ips := Router._floatingips r in
  let existing_floating_ip_ids := floating_ip_ids (RouterInfo.floating_ips ri) in
  let cur_floating_ip_ids := floating_ip_ids floating_ips in
  id_to_fip_map <- floating_ips_first_loop ex_gw_port
                     existing_floating_ip_ids floating_ips ∅ ;;
  let floating_ip_ids_to_remove :=
    existing_floating_ip_ids ∖ cur_floating_ip_ids in
  ri <- get ;;
  floating_ips_second_loop (S (length (RouterInfo.floating_ips ri))) 0
    floating_ip_ids_to_remove id_to_fip_map.

(** *** process_router *)

Definition port_ids (l : list Port.t) : gset string :=
  list_to_set (Port.id <$> l).

(** [_set_subnet_info(p)] writes into the dict [p], which the descriptor
    [ri.router] holds: the descriptor sees the new key. *)
Definition annotate_interface (p p' : Port.t) (ri : RouterInfo.t)
  : RouterInfo.t :=
  RouterInfo.set_router
    ((fun r => Router.set_interfaces
                 (list_replace p p' (Router._interfaces r)) r)
       <$> RouterInfo.router ri) ri.

Definition annotate_gw_port (gw' : Port.t) (ri : RouterInfo.t)
  : RouterInfo.t :=
  RouterInfo.set_router
    (Router.set_gw_port (Some gw') <$> RouterInfo.router ri) ri.

(** [ri.internal_ports.remove(p)] *)
Definition remove_internal_port (p : Port.t) : M RouterInfo.t unit :=
  ri <- get ;;
  l <- of_option (list_remove p (RouterInfo.internal_ports ri)) ValueError ;;
  modify (RouterInfo.set_internal_ports l).

Definition port_ip_cidr {S} (p : Port.t) : M S string :=
  of_option (Port.ip_cidr p) (KeyError "ip_cidr").

(** The bodies of the two loops over ports. *)
Definition new_port_body (ex_gw_port : option Port.t) (p : Port.t)
  : M RouterInfo.t unit :=
  p' <- _set_subnet_info p ;;
  modify (annotate_interface p p') ;;
  modify (fun ri => RouterInfo.set_internal_ports
                      (RouterInfo.internal_ports ri ++ [p']) ri) ;;
  ip_cidr <- port_ip_cidr p' ;;
  internal_network_added ex_gw_port (Port.network_id p') (Port.id p')
                         ip_cidr (Port.mac_address p').

Definition old_port_body (ex_gw_port : option Port.t) (p : Port.t)
  : M RouterInfo.t unit :=
  remove_internal_port p ;;
  ip_cidr <- port_ip_cidr p ;;
  internal_network_removed ex_gw_port (Port.id p) ip_cidr.

(** The gateway step: returns the descriptor's gateway port as it is
    afterwards. *)
Definition gateway_step (ex_gw_port : option Port.t)
    (internal_cidrs : list string) : M RouterInfo.t (option Port.t) :=
  ri <- get ;;
  match ex_gw_port, RouterInfo.ex_gw_port ri with
  | Some gw, None =>
      gw' <- _set_subnet_info gw ;;
      modify (annotate_gw_port gw') ;;
      external_gateway_added gw' internal_cidrs ;;
      ret (Some gw')
  | None, Some old =>
      external_gateway_removed old internal_cidrs ;;
      ret None
  | _, _ => ret ex_gw_port
  end.

Definition process_router : M RouterInfo.t unit :=
  ri <- get ;;
  r <- of_option (RouterInfo.router ri) AttributeError ;;
  let ex_gw_port := Router.gw_port r in
  let internal_ports := Router._interfaces r in
  let existing_port_ids := port_ids (RouterInfo.internal_ports ri) in
  let current_port_ids :=
    port_ids (filter (fun p => Port.admin_state_up p = true) internal_ports) in
  let new_ports :=
    filter (fun p => Port.id p ∈ current_port_ids
                     ∧ Port.id p ∉ existing_port_ids) internal_ports in
  let old_ports :=
    filter (fun p => Port.id p ∉ current_port_ids)
           (RouterInfo.internal_ports ri) in
  for_each new_ports (new_port_body ex_gw_port) ;;
  for_each old_ports (old_port_body ex_gw_port) ;;
  ri <- get ;;
  internal_cidrs <- mapM port_ip_cidr (RouterInfo.internal_ports ri) ;;
  ex_gw_port <- gateway_step ex_gw_port internal_cidrs ;;
  (if bool_decide (is_Some (RouterInfo.ex_gw_port ri) ∨ is_Some ex_gw_port)
   then process_router_floating_ips ex_gw_port
   else ret tt) ;;
  modify (RouterInfo.set_ex_gw_port ex_gw_port).

(** *** The agent *)

Definition too_many_msg : string :=
  "The 'gateway_external_network_id' must be configured"
  +:+ " if Quantum has more than one external network.".

Definition _fetch_external_net_id : M Agent string :=
  if str_truthy (gateway_external_network_id conf)
  then ret (gateway_external_network_id conf)
  else
    try_except get_external_network_id
      (fun e =>
         match e with
         | RemoteError exc_type =>
             if String.eqb exc_type "TooManyExternalNetworks"
             then raise (Exception_ too_many_msg)
             else raise e
         | _ => raise e
         end).

(** ip_lib's [netns.execute] checks the exit code unless told not to. *)
Definition _create_router_namespace (ri : RouterInfo.t) : M Agent unit :=
  call (EnsureNamespace (ns_name ri)) ;;
  call (Execute (ns_name ri) ["sysctl"; "-w"; "net.ipv4.ip_forward=1"] true).

Definition _spawn_metadata_proxy (ri : RouterInfo.t) : M Agent unit :=
  call (ProxyEnable (RouterInfo.router_id ri) (ns_name ri)).

Definition _destroy_metadata_proxy (ri : RouterInfo.t) : M Agent unit :=
  call (ProxyDisable (RouterInfo.router_id ri) (ns_name ri)).

Definition starts_with (prefix s : string) : bool :=
  String.prefix prefix s.

Definition _destroy_router_namespace (namespace : option string)
  : M Agent unit :=
  devices <- query (GetDevices namespace)
                   (fun h => env_get_devices env h namespace) ;;
  for_each devices (fun d =>
    if starts_with INTERNAL_DEV_PREFIX d
    then call (Unplug d None namespace INTERNAL_DEV_PREFIX)
    else if starts_with EXTERNAL_DEV_PREFIX d
    then call (Unplug d (Some (external_network_bridge conf)) namespace
                      EXTERNAL_DEV_PREFIX)
    else ret tt).

Definition _router_added (router_id : string) (router : option Router.t)
  : M Agent unit :=
  let ri := RouterInfo.mk router_id None [] [] (use_namespaces conf) router in
  modify (fun a => set_router_info (<[router_id := ri]> (router_info a)) a) ;;
  (if use_namespaces conf then _create_router_namespace ri else ret tt) ;;
  for_each metadata_filter_rules
    (fun cr => call (AddRule router_id "filter" (fst cr) (snd cr))) ;;
  for_each metadata_nat_rules
    (fun cr => call (AddRule router_id "nat" (fst cr) (snd cr))) ;;
  call (Apply router_id) ;;
  _spawn_metadata_proxy ri.

Definition _router_removed (router_id : string) : M Agent unit :=
  a <- get ;;
  ri <- of_option (router_info a !! router_id) (KeyError router_id) ;;
  for_each metadata_filter_rules
    (fun cr => call (RemoveRule router_id "filter" (fst cr) (snd cr))) ;;
  for_each metadata_nat_rules
    (fun cr => call (RemoveRule router_id "nat" (fst cr) (snd cr))) ;;
  call (Apply router_id) ;;
  _destroy_metadata_proxy ri ;;
  modify (fun a => set_router_info (delete router_id (router_info a)) a) ;;
  _destroy_router_namespace (ns_name ri).

(** The body of the loop of [_process_routers]; [ret tt] where the code
    says [continue]. *)
Definition _process_routers_body (target_ex_net_id : string) (r : Router.t)
  : M Agent unit :=
  if negb (Router.admin_state_up r) then ret tt
  else if negb (use_namespaces conf)
          && negb (bool_decide (Router.id r = router_id conf)) then ret tt
  else
    let ex_net_id :=
      match Router.external_gateway_info r with
      | Some info => info
      | None => None
      end in
    if negb (truthy ex_net_id) && negb (handle_internal_only_routers conf)
    then ret tt
    else if truthy ex_net_id
            && negb (bool_decide (ex_net_id = Some target_ex_net_id))
    then ret tt
    else
      a <- get ;;
      (if bool_decide (router_info a !! Router.id r = None)
       then _router_added (Router.id r) None
       else ret tt) ;;
      with_router (Router.id r)
        (modify (RouterInfo.set_router (Some r)) ;; process_router).

Definition _process_routers (routers : list Router.t) : M Agent unit :=
  bridge_missing <-
    (if str_truthy (external_network_bridge conf) then
       present <- query (DeviceExists (external_network_bridge conf) None)
                    (fun h => env_device_exists env h
                                (external_network_bridge conf) None) ;;
       ret (negb present)
     else ret false) ;;
  if bridge_missing : bool then
    emit (Log "error" ("The external network bridge '"
                       +:+ external_network_bridge conf
                       +:+ "' does not exist") None)
  else
    target_ex_net_id <- _fetch_external_net_id ;;
    for_each routers (_process_routers_body target_ex_net_id).

Definition router_deleted (router_id : string) : M Agent unit :=
  with_sync_sem
    (a <- get ;;
     if bool_decide (is_Some (router_info a !! router_id)) then
       try_except (_router_removed router_id)
         (fun _ =>
            emit (Log "debug" ("Failed dealing with router '" +:+ router_id
                               +:+ "' deletion RPC message") None) ;;
            modify (set_fullsync true))
     else ret tt).

Definition routers_updated (routers : list Router.t) : M Agent unit :=
  match routers with
  | [] => ret tt
  | _ :: _ =>
      with_sync_sem
        (try_except (_process_routers routers)
           (fun _ =>
              emit (Log "debug"
                        "Failed dealing with routers update RPC message"
                        None) ;;
              modify (set_fullsync true)))
  end.

(** [get_routers(context, router_id)]: the second positional parameter of
    [get_routers] is [fullsync]. *)
Definition _sync_routers_task : M Agent unit :=
  with_sync_sem
    (a <- get ;;
     if fullsync a then
       try_except
         (let router_id :=
            if negb (use_namespaces conf) then ArgStr (router_id conf)
            else ArgNone in
          routers <- get_routers router_id None ;;
          modify (set_router_info ∅) ;;
          _process_routers routers ;;
          modify (set_fullsync false))
         (fun e =>
            emit (Log "exception" "Failed synchronizing routers" (Some e)) ;;
            modify (set_fullsync true))
     else ret tt).

End WithEnv.

(** * Reasoning about computations *)

(** ** Frames: a relation every step keeps, a property every emitted
    trace has *)

Class Framing {S} (R : S -> S -> Prop) (D : list event -> Prop) := {
  framing_refl : forall s, R s s;
  framing_trans : forall a b c, R a b -> R b c -> R a c;
  framing_nil : D [];
  framing_app : forall d1 d2, D d1 -> D d2 -> D (d1 ++ d2)
}.

Definition respects {S A} (R : S -> S -> Prop) (D : list event -> Prop)
    (m : M S A) : Prop :=
  forall h s r s' d, m h s = (r, s', d) -> R s s' /\ D d.

(** ** Reading a trace *)

(** Events that are not the entry into one of the six hooks. *)
Definition is_low (e : event) : bool :=
  match e with
  | Call_internal_network_added _ _ _
  | Call_internal_network_removed _ _ _
  | Call_external_gateway_added _ _
  | Call_external_gateway_removed _ _
  | Call_floating_ip_added _ _ _
  | Call_floating_ip_removed _ _ _ => false
  | _ => true
  end.

Definition low (d : list event) : Prop := Forall (fun e => is_low e = true) d.

Definition added_port (e : event) : option string :=
  match e with
  | Call_internal_network_added _ port_id _ => Some port_id
  | _ => None
  end.

Definition removed_port (e : event) : option string :=
  match e with
  | Call_internal_network_removed _ port_id _ => Some port_id
  | _ => None
  end.

Definition added_gateway (e : event) : option string :=
  match e with
  | Call_external_gateway_added _ port_id => Some port_id
  | _ => None
  end.

Definition removed_gateway (e : event) : option string :=
  match e with
  | Call_external_gateway_removed _ port_id => Some port_id
  | _ => None
  end.

(** The port ids [internal_network_added] was invoked with, in order; and
    likewise for the other hooks. *)
Definition internal_network_added_calls (d : list event) : list string :=
  omap added_port d.
Definition internal_network_removed_calls (d : list event) : list string :=
  omap removed_port d.
Definition external_gateway_added_calls (d : list event) : list string :=
  omap added_gateway d.
Definition external_gateway_removed_calls (d : list event) : list string :=
  omap removed_gateway d.

Definition internal_port_call (e : event) : option string :=
  match added_port e with
  | Some port_id => Some port_id
  | None => removed_port e
  end.

Definition gateway_call (e : event) : option string :=
  match added_gateway e with
  | Some port_id => Some port_id
  | None => removed_gateway e
  end.

(** How many times a hook was invoked for [x], given the ids it was
    invoked with. *)
Definition times (x : string) (calls : list string) : nat :=
  length (filter (fun y => y = x) calls).

(** The gateway port a RouterInfo holds, and the gateway port of the
    descriptor it holds. *)
Definition gateways (ri : RouterInfo.t) : option Port.t * option Port.t :=
  (RouterInfo.ex_gw_port ri, RouterInfo.router ri ≫= Router.gw_port).

(** What the work on the router [key] may do to the agent: the flag and
    every other registry entry stay, and no entry disappears. *)
Definition touches_only (key : string) (a a' : Agent) : Prop :=
  fullsync a' = fullsync a
  /\ (forall k, k <> key -> router_info a' !! k = router_info a !! k)
  /\ (forall k, is_Some (router_info a !! k) -> is_Some (router_info a' !! k)).

Definition removed_floating_ip (e : event) : option (string * option string) :=
  match e with
  | Call_floating_ip_removed _ floating_ip fixed_ip =>
      Some (floating_ip, fixed_ip)
  | _ => None
  end.

Definition added_floating_ip (e : event) : option (string * option string) :=
  match e with
  | Call_floating_ip_added _ floating_ip fixed_ip =>
      Some (floating_ip, fixed_ip)
  | _ => None
  end.

(** The (floating address, fixed address) pairs the floating-IP hooks were
    invoked with, in order. *)
Definition floating_ip_removed_calls (d : list event)
  : list (string * option string) := omap removed_floating_ip d.
Definition floating_ip_added_calls (d : list event)
  : list (string * option string) := omap added_floating_ip d.

(** Events that change the host or the rule set: everything but the
    semaphore, the log, the RPCs, the read-only queries and the hook
    entries. *)
Definition changes_host (e : event) : bool :=
  match e with
  | EnsureNamespace _ | Execute _ _ _ | AddrAdd _ _ _ _ _
  | AddrDelete _ _ _ _ | Plug _ _ _ _ _ _ _ | Unplug _ _ _ _
  | InitL3 _ _ _ | AddRule _ _ _ _ | RemoveRule _ _ _ _ | Apply _
  | ProxyEnable _ _ | ProxyDisable _ _ => true
  | _ => false
  end.

(** A RouterInfo on which the descriptor [r] leaves nothing to do: its
    ports are the admin-up ports of [r] and know their ip_cidr, it has a
    gateway port exactly if [r] has one, and, if it has one, it holds the
    floating IPs of [r], which all have a port and distinct ids. *)
Definition settled (ri : RouterInfo.t) (r : Router.t) : Prop :=
  port_ids (RouterInfo.internal_ports ri)
    = port_ids (filter (fun p => Port.admin_state_up p = true)
                       (Router._interfaces r))
  /\ Forall (fun p => is_Some (Port.ip_cidr p)) (RouterInfo.internal_ports ri)
  /\ (is_Some (Router.gw_port r) <-> is_Some (RouterInfo.ex_gw_port ri))
  /\ (is_Some (RouterInfo.ex_gw_port ri) ->
      RouterInfo.floating_ips ri = Router._floatingips r
      /\ Forall (fun fip => truthy (FloatingIp.port_id fip) = true)
                (Router._floatingips r)
      /\ NoDup (FloatingIp.id <$> Router._floatingips r)).

(** [id_to_fip_map] after the first loop over [l], starting from [m]. *)
Definition fip_map (l : list FloatingIp.t) (m : gmap string FloatingIp.t)
  : gmap string FloatingIp.t :=
  fold_left (fun m fip => <[FloatingIp.id fip := fip]> m) l m.

(** The floating IPs a RouterInfo holds, and those of the descriptor it
    holds. *)
Definition floating_view (ri : RouterInfo.t)
  : list FloatingIp.t * option (list FloatingIp.t) :=
  (RouterInfo.floating_ips ri, Router._floatingips <$> RouterInfo.router ri).

(** A RouterInfo as _router_added makes it, holding the descriptor [r]. *)
Definition fresh (ri : RouterInfo.t) (r : Router.t) : Prop :=
  RouterInfo.router ri = Some r
  /\ RouterInfo.internal_ports ri = []
  /\ RouterInfo.floating_ips ri = []
  /\ RouterInfo.ex_gw_port ri = None.

(** A trace in which nothing is selected by [f]. *)
Definition silent {X} (f : event -> option X) (d : list event) : Prop :=
  omap f d = [].

(** A relation that says a part of the state is the same. *)
Definition keeps {S X} (g : S -> X) : S -> S -> Prop :=
  fun s s' => g s' = g s.

(** ** A host and some descriptors to run the agent on *)

Module Scenario.

(** A stand-in for netaddr: the prefix length is what follows the slash,
    the broadcast address is not computed. *)
Fixpoint after_slash (s : string) : string :=
  match s with
  | EmptyString => "32"
  | String c s' => if Ascii.eqb c "/"%char then s' else after_slash s'
  end.

Definition netaddr (cidr : string) : option IPNetwork :=
  Some {| prefixlen := after_slash cidr; version := 4;
          broadcast := before_slash cidr |}.

(** A host on which every call succeeds, only the bridge exists and no
    address is bound; the plugin knows one external network, "ext". *)
Definition env : Env := {|
  raises := fun _ _ => None;
  env_device_exists := fun _ name _ => String.eqb name "br-ex";
  env_addr_list := fun _ _ _ => [];
  env_get_devices := fun _ _ => [];
  env_sync_routers := fun _ => [];
  env_get_external_network_id := fun _ => "ext";
  ip_network := netaddr;
  DEV_NAME_LEN := 14
|}.

(** The same host, but plugging the port "bad" fails. *)
Definition env_bad_port : Env := {|
  raises := fun _ ev =>
    match ev with
    | Plug _ port_id _ _ _ _ _ =>
        if String.eqb port_id "bad" then Some (OtherError "plug failed")
        else None
    | _ => None
    end;
  env_device_exists := fun _ name _ => String.eqb name "br-ex";
  env_addr_list := fun _ _ _ => [];
  env_get_devices := fun _ _ => [];
  env_sync_routers := fun _ => [];
  env_get_external_network_id := fun _ => "ext";
  ip_network := netaddr;
  DEV_NAME_LEN := 14
|}.

(** The same host, with a plugin that knows several external networks. *)
Definition env_too_many : Env := {|
  raises := fun _ ev =>
    match ev with
    | Rpc_get_external_network_id _ =>
        Some (RemoteError "TooManyExternalNetworks")
    | _ => None
    end;
  env_device_exists := fun _ name _ => String.eqb name "br-ex";
  env_addr_list := fun _ _ _ => [];
  env_get_devices := fun _ _ => [];
  env_sync_routers := fun _ => [];
  env_get_external_network_id := fun _ => "ext";
  ip_network := netaddr;
  DEV_NAME_LEN := 14
|}.

(** The defaults of L3NATAgent.OPTS. *)
Definition conf : Conf := {|
  host := "host1";
  external_network_bridge := "br-ex";
  metadata_port := 9697;
  send_arp_for_ha := 3;
  use_namespaces := true;
  router_id := "";
  handle_internal_only_routers := true;
  gateway_external_network_id := ""
|}.

(** Without namespaces, for the single router "r1". *)
Definition conf_single : Conf := {|
  host := "host1";
  external_network_bridge := "br-ex";
  metadata_port := 9697;
  send_arp_for_ha := 3;
  use_namespaces := false;
  router_id := "r1";
  handle_internal_only_routers := true;
  gateway_external_network_id := ""
|}.

Definition port (id ip cidr : string) (up : bool) : Port.t :=
  Port.mk id ("net-" +:+ id) ("mac-" +:+ id) [FixedIp.mk ip]
          (Subnet.mk cidr None) up None.

Definition gw : Port.t :=
  Port.mk "g1" "ext" "mac-g1" [FixedIp.mk "203.0.113.5"]
          (Subnet.mk "203.0.113.0/24" (Some "203.0.113.1")) true None.

Definition pa (up : bool) := port "pa" "10.0.1.1" "10.0.1.0/24" up.
Definition pb (up : bool) := port "pb" "10.0.2.1" "10.0.2.0/24" up.
Definition pc (up : bool) := port "pc" "10.0.3.1" "10.0.3.0/24" up.
Definition pd (up : bool) := port "pd" "10.0.4.1" "10.0.4.0/24" up.
Definition bad := port "bad" "10.0.5.1" "10.0.5.0/24" true.

Definition f1 (fixed : string) : FloatingIp.t :=
  FloatingIp.mk "f1" "203.0.113.10" (Some fixed) (Some "vm-port-1").
Definition f2 (fixed : string) : FloatingIp.t :=
  FloatingIp.mk "f2" "203.0.113.11" (Some fixed) (Some "vm-port-2").
(** f1 after its port was taken away *)
Definition f1_unassociated : FloatingIp.t :=
  FloatingIp.mk "f1" "203.0.113.10" None None.

(** Router "r1" on the external network, with the given ports and
    floating IPs. *)
Definition r1 (up : bool) (ports : list Port.t) (fips : list FloatingIp.t)
  : Router.t :=
  Router.mk "r1" up (Some (Some "ext")) (Some gw) ports fips.

(** Internal-only routers. *)
Definition internal_router (id : string) (ports : list Port.t) : Router.t :=
  Router.mk id true None None ports [].

(** The host of [env], with a plugin that sends [routers] on a sync. *)
Definition env_with_routers (routers : list Router.t) : Env := {|
  raises := fun _ _ => None;
  env_device_exists := fun _ name _ => String.eqb name "br-ex";
  env_addr_list := fun _ _ _ => [];
  env_get_devices := fun _ _ => [];
  env_sync_routers := fun _ => routers;
  env_get_external_network_id := fun _ => "ext";
  ip_network := netaddr;
  DEV_NAME_LEN := 14
|}.

(** Router "r1" with two floating IPs, then with none, then with f1 gone
    and f2 moved to another fixed address. *)
Definition two_fips : Router.t :=
  r1 true [pa true] [f1 "10.0.1.5"; f2 "10.0.1.6"].
Definition no_fips : Router.t := r1 true [pa true] [].
Definition f2_moved : Router.t := r1 true [pa true] [f2 "10.0.1.7"].
Definition one_fip : Router.t := r1 true [pa true] [f1 "10.0.1.5"].
Definition fip_lost_port : Router.t := r1 true [pa true] [f1_unassociated].

(** The floating IPs the registry holds for router "r1". *)
Definition floating_ips_of_r1 (a : Agent) : option (list FloatingIp.t) :=
  RouterInfo.floating_ips <$> router_info a !! "r1".

(** A RouterInfo that holds the ports pa and pb, about to reconcile a
    descriptor with pb and pc up and pd and pa down. *)
Definition ports_descriptor : Router.t :=
  internal_router "r1" [pb true; pc true; pd false; pa false].
Definition ports_before : RouterInfo.t :=
  RouterInfo.mk "r1" None
    [Port.set_ip_cidr "10.0.1.1/24" (pa true);
     Port.set_ip_cidr "10.0.2.1/24" (pb true)]
    [] true (Some ports_descriptor).

(** A RouterInfo without gateway, about to reconcile a descriptor with
    the gateway port [gw]. *)
Definition gateway_descriptor : Router.t := r1 true [] [].
Definition gateway_before : RouterInfo.t :=
  RouterInfo.mk "r1" None [] [] true (Some gateway_descriptor).

(** A batch whose second router has the port that cannot be plugged. *)
Definition ra : Router.t := internal_router "ra" [pa true].
Definition rb : Router.t := internal_router "rb" [bad].
Definition rc : Router.t := internal_router "rc" [pc true].

(** The agent and the trace after the notifications [batches], delivered
    in order to a freshly started agent. *)
Definition deliver (e : Env) (c : Conf) (batches : list (list Router.t))
  : Agent * list event :=
  fold_left
    (fun st batch =>
       match routers_updated e c batch (snd st) (fst st) with
       | (_, a, d) => (a, snd st ++ d)
       end)
    batches (initial_agent, []).

End Scenario.

(** * More of the agent *)

Section MoreOfTheAgent.

Context (env : Env) (conf : Conf).

(** [_destroy_all_router_namespaces], given the namespaces that
    [root_ip.get_namespaces] returned.  The bare [except:] catches
    everything. *)
Definition _destroy_all_router_namespaces (namespaces : list string)
  : M Agent unit :=
  for_each namespaces (fun ns =>
    if starts_with NS_PREFIX ns then
      try_except (_destroy_router_namespace env conf (Some ns))
        (fun e =>
           emit (Log "exception" ("Failed deleting namespace '" +:+ ns +:+ "'")
                     (Some e)))
    else ret tt).

End MoreOfTheAgent.

(** ** More vocabulary *)

(** The namespace of the router [rid] under the configuration [conf]. *)
Definition namespace_of (conf : Conf) (rid : string) : option string :=
  if use_namespaces conf then Some (NS_PREFIX +:+ rid) else None.

(** Events that the reconciliation of the router [rid], whose namespace
    is [ns], may issue: log lines, calls on devices and addresses in [ns],
    changes to the nat table of [rid]'s rules and their apply, and the
    entries into the hooks for [rid]. *)
Definition in_scope (rid : string) (ns : option string) (e : event) : bool :=
  match e with
  | Log _ _ _ => true
  | DeviceExists _ n | AddrList _ n | InitL3 _ _ n | Execute n _ _
  | AddrAdd _ n _ _ _ | AddrDelete _ n _ _ | Plug _ _ _ _ _ n _
  | Unplug _ _ n _ => bool_decide (n = ns)
  | AddRule r table _ _ | RemoveRule r table _ _ =>
      bool_decide (r = rid) && String.eqb table "nat"
  | Apply r
  | Call_internal_network_added r _ _ | Call_internal_network_removed r _ _
  | Call_external_gateway_added r _ | Call_external_gateway_removed r _
  | Call_floating_ip_added r _ _ | Call_floating_ip_removed r _ _ =>
      bool_decide (r = rid)
  | _ => false
  end.

(** The RouterInfo is the one of router [rid], made under [conf]. *)
Definition router_info_of (conf : Conf) (rid : string) (ri : RouterInfo.t)
  : Prop :=
  RouterInfo.router_id ri = rid
  /\ RouterInfo.use_namespaces ri = use_namespaces conf.

(** Every RouterInfo of the registry sits under its own router id and was
    made under [conf]. *)
Definition registry_ok (conf : Conf) (a : Agent) : Prop :=
  forall k ri, router_info a !! k = Some ri -> router_info_of conf k ri.

(** A property of traces that the empty trace has and concatenation
    keeps. *)
Class TraceClosed (D : list event -> Prop) := {
  trace_closed_nil : D [];
  trace_closed_app : forall d1 d2, D d1 -> D d2 -> D (d1 ++ d2)
}.

(** From a state that satisfies [I], the computation ends in a state that
    satisfies [I], and its trace satisfies [D]. *)
Definition respects_from {S A} (I : S -> Prop) (D : list event -> Prop)
    (m : M S A) : Prop :=
  forall h s r s' d, I s -> m h s = (r, s', d) -> I s' /\ D d.

Definition is_log (e : event) : bool :=
  match e with
  | Log _ _ _ => true
  | _ => false
  end.

(** Events that belong to the router [rid]: what its reconciliation may
    issue, the creation and the listing of its namespace, its rules in
    any table, and its metadata proxy. *)
Definition of_router (conf : Conf) (rid : string) (e : event) : bool :=
  in_scope rid (namespace_of conf rid) e
  || match e with
     | EnsureNamespace n | GetDevices n =>
         bool_decide (n = namespace_of conf rid)
     | AddRule r _ _ _ | RemoveRule r _ _ _ => bool_decide (r = rid)
     | ProxyEnable r n | ProxyDisable r n =>
         bool_decide (r = rid) && bool_decide (n = namespace_of conf rid)
     | _ => false
     end.

(** [r['external_gateway_info'].get('network_id')], None without
    gateway info. *)
Definition ex_net_id_of (r : Router.t) : option string :=
  match Router.external_gateway_info r with
  | Some info => info
  | None => None
  end.

(** The descriptors that the loop of [_process_routers] does not skip,
    when the agent's external network is [target]. *)
Definition acceptable (conf : Conf) (target : string) (r : Router.t) : bool :=
  Router.admin_state_up r
  && (use_namespaces conf || bool_decide (Router.id r = router_id conf))
  && (truthy (ex_net_id_of r) || handle_internal_only_routers conf)
  && (negb (truthy (ex_net_id_of r))
      || bool_decide (ex_net_id_of r = Some target)).

(** What [_process_routers] does before it looks at a router: the check
    of the external bridge when one is configured, the request for the
    external network when none is configured. *)
Definition bridge_check (conf : Conf) : list event :=
  if str_truthy (external_network_bridge conf)
  then [DeviceExists (external_network_bridge conf) None]
  else [].

Definition net_id_fetch (conf : Conf) : list event :=
  if str_truthy (gateway_external_network_id conf) then []
  else [Rpc_get_external_network_id (host conf)].

(** An event of the work on a batch: a log line, or an event of a router
    of the batch that is not skipped. *)
Definition of_batch (conf : Conf) (target : string) (routers : list Router.t)
    (e : event) : Prop :=
  is_log e = true
  \/ exists r, r ∈ routers /\ acceptable conf target r = true
               /\ of_router conf (Router.id r) e = true.

(** Every registry key satisfies [K]. *)
Definition keys_in (K : string -> Prop) (a : Agent) : Prop :=
  forall k, is_Some (router_info a !! k) -> K k.

Definition is_rpc (e : event) : bool :=
  match e with
  | Rpc_sync_routers _ _ _ | Rpc_get_external_network_id _ => true
  | _ => false
  end.

(** What [_destroy_router_namespace] does with the device [d] of the
    namespace [ns]: the unplug call, if any. *)
Definition unplug_of (conf : Conf) (ns : option string) (d : string)
  : option event :=
  if starts_with INTERNAL_DEV_PREFIX d
  then Some (Unplug d None ns INTERNAL_DEV_PREFIX)
  else if starts_with EXTERNAL_DEV_PREFIX d
  then Some (Unplug d (Some (external_network_bridge conf)) ns
                    EXTERNAL_DEV_PREFIX)
  else None.

(** A host on which no call raises. *)
Definition quiet (env : Env) : Prop :=
  forall h ev, raises env h ev = None.

(** The namespace an event works in, for the calls that
    [_destroy_router_namespace] makes. *)
Definition teardown_namespace (e : event) : option (option string) :=
  match e with
  | GetDevices n | Unplug _ _ n _ => Some n
  | _ => None
  end.

#[global] Instance router_info_of_dec conf rid ri :
  Decision (router_info_of conf rid ri).
Proof. unfold router_info_of. apply _. Defined.

(** A host with devices: the namespace of router "r1" holds the loopback
    device, an internal and an external device of the agent, and a
    device that is not the agent's. *)
Module Host.

Definition env : Env := {|
  raises := fun _ _ => None;
  env_device_exists := fun _ name _ => String.eqb name "br-ex";
  env_addr_list := fun _ _ _ => [];
  env_get_devices := fun _ ns =>
    match ns with
    | Some "qrouter-r1" => ["qr-pa"; "tap0"; "qg-g1"]
    | _ => []
    end;
  env_sync_routers := fun _ => [];
  env_get_external_network_id := fun _ => "ext";
  ip_network := Scenario.netaddr;
  DEV_NAME_LEN := 14
|}.

(** The same host, but unplugging "qr-pa" fails. *)
Definition env_stuck : Env := {|
  raises := fun _ ev =>
    match ev with
    | Unplug "qr-pa" _ _ _ => Some (OtherError "unplug failed")
    | _ => None
    end;
  env_device_exists := fun _ name _ => String.eqb name "br-ex";
  env_addr_list := fun _ _ _ => [];
  env_get_devices := fun _ ns =>
    match ns with
    | Some "qrouter-r1" => ["qr-pa"; "tap0"; "qg-g1"]
    | Some "qrouter-r2" => ["qr-pb"]
    | _ => []
    end;
  env_sync_routers := fun _ => [];
  env_get_external_network_id := fun _ => "ext";
  ip_network := Scenario.netaddr;
  DEV_NAME_LEN := 14
|}.

(** The agent that knows router "r1". *)
Definition with_r1 : Agent :=
  fst (Scenario.deliver Scenario.env Scenario.conf
         [[Scenario.r1 true [] []]]).

End Host.

(** The events by which [_router_added] sets the router [rid] up: its
    namespace created, its metadata proxy started, a rule added to its
    filter table. *)
Definition is_setup (rid : string) (e : event) : bool :=
  match e with
  | EnsureNamespace (Some n) => String.eqb n (NS_PREFIX +:+ rid)
  | ProxyEnable r _ => bool_decide (r = rid)
  | AddRule r table _ _ => bool_decide (r = rid) && String.eqb table "filter"
  | _ => false
  end.

(** The defaults, with the external network configured; a router whose
    gateway is on another external network. *)
Module Static.

Definition conf : Conf := {|
  host := "host1";
  external_network_bridge := "br-ex";
  metadata_port := 9697;
  send_arp_for_ha := 3;
  use_namespaces := true;
  router_id := "";
  handle_internal_only_routers := true;
  gateway_external_network_id := "ext"
|}.

Definition elsewhere : Router.t :=
  Router.mk "r9" true (Some (Some "other")) (Some Scenario.gw)
            [Scenario.pa true] [].

End Static.

(** Whether rule changes wait for an apply, after the trace [d], given
    whether some waited before it. *)
Definition pending_from (p : bool) (d : list event) : bool :=
  fold_left (fun p e =>
               match e with
               | AddRule _ _ _ _ | RemoveRule _ _ _ _ => true
               | Apply _ => false
               | _ => p
               end) d p.

Definition pending (d : list event) : bool := pending_from false d.

(** The rules a trace adds and the rules it removes. *)
Definition rules_added (d : list event)
  : list (string * string * string * string) :=
  omap (fun e => match e with
                 | AddRule r t c rule => Some (r, t, c, rule)
                 | _ => None
                 end) d.

Definition rules_removed (d : list event)
  : list (string * string * string * string) :=
  omap (fun e => match e with
                 | RemoveRule r t c rule => Some (r, t, c, rule)
                 | _ => None
                 end) d.

(** A computation whose trace, when it returns, has the property [D]. *)
Definition returns_with {S A} (D : list event -> Prop) (m : M S A) : Prop :=
  forall h s a s' d, m h s = (Ok a, s', d) -> D d.

(** Every rule change of the trace has been applied; and a trace that
    leaves nothing to apply, whatever waited before it. *)
Definition applied (d : list event) : Prop := pending d = false.

Definition settles (d : list event) : Prop :=
  forall p, pending_from p d = false.

(** A trace that adds the rules [added] and removes the rules
    [removed], in this order. *)
Definition changes_rules (added removed : list (string * string * string * string))
    (d : list event) : Prop :=
  rules_added d = added /\ rules_removed d = removed.

(** The nat rules of the router [rid] that a hook works on: for a
    floating IP, for an internal network behind the gateway [gw], and
    for the gateway port [gw] with its interface [name]. *)
Definition in_nat (rid : string) (rules : list (string * string))
  : list (string * string * string * string) :=
  (fun cr => (rid, "nat", fst cr, snd cr)) <$> rules.

Definition internal_network_rules (rid : string) (gw : option Port.t)
    (cidr : string) : list (string * string * string * string) :=
  match gw with
  | Some g =>
      match Port.fixed_ips g with
      | ip :: _ =>
          in_nat rid (internal_network_nat_rules (FixedIp.ip_address ip) cidr)
      | [] => []
      end
  | None => []
  end.

Definition external_gateway_rules (rid : string) (gw : Port.t)
    (cidrs : list string) (name : string)
  : list (string * string * string * string) :=
  match Port.fixed_ips gw with
  | ip :: _ =>
      in_nat rid (external_gateway_nat_rules (FixedIp.ip_address ip) cidrs
                                             name)
  | [] => []
  end.

(** The events by which [_router_removed] tears a router down: its
    metadata proxy stopped, the devices of its namespace listed, a rule
    removed from its filter table. *)
Definition is_teardown (e : event) : bool :=
  match e with
  | ProxyDisable _ _ | GetDevices _ => true
  | RemoveRule _ table _ _ => String.eqb table "filter"
  | _ => false
  end.

(** What [_router_added] does on the host for the router [rid], in
    order. *)
Definition set_up_calls (conf : Conf) (rid : string) : list event :=
  (if use_namespaces conf
   then [EnsureNamespace (Some (NS_PREFIX +:+ rid));
         Execute (Some (NS_PREFIX +:+ rid))
                 ["sysctl"; "-w"; "net.ipv4.ip_forward=1"] true]
   else [])
  ++ ((fun cr => AddRule rid "filter" (fst cr) (snd cr))
        <$> metadata_filter_rules conf)
  ++ ((fun cr => AddRule rid "nat" (fst cr) (snd cr))
        <$> metadata_nat_rules conf)
  ++ [Apply rid; ProxyEnable rid (namespace_of conf rid)].

Definition is_floating_call (e : event) : bool :=
  match e with
  | Call_floating_ip_added _ _ _ | Call_floating_ip_removed _ _ _ => true
  | _ => false
  end.

Definition is_plug (e : event) : bool :=
  match e with
  | Plug _ _ _ _ _ _ _ => true
  | _ => false
  end.

Definition is_addr_add (e : event) : bool :=
  match e with
  | AddrAdd _ _ _ _ _ => true
  | _ => false
  end.

(** A computation that makes the calls [l] in order, stops at the first
    that raises, and does nothing else. *)
Definition runs_script (env : Env) {S} (m : M S unit) (l : list event)
  : Prop :=
  forall h s res s' d,
    m h s = (res, s', d) ->
    s' = s /\ d `prefix_of` l /\ (res = Ok tt -> d = l)
    /\ (quiet env -> res = Ok tt).

Definition is_execute (e : event) : bool :=
  match e with
  | Execute _ _ _ => true
  | _ => false
  end.

(** ** What a [bind] did *)

Lemma bind_inv {S A B} (m : M S A) (k : A -> M S B) h s r s' d :
  bind m k h s = (r, s', d) ->
  (exists a s1 d1 d2,
      m h s = (Ok a, s1, d1) /\ k a (h ++ d1) s1 = (r, s', d2)
      /\ d = d1 ++ d2)
  \/ (exists e, m h s = (Raise e, s', d) /\ r = Raise e).
Proof.
  unfold bind. destruct (m h s) as [[[a|e] s1] d1].
  - destruct (k a (h ++ d1) s1) as [[r2 s2] d2] eqn:Hk.
    intros [= <- <- <-]. left. by exists a, s1, d1, d2.
  - intros [= <- <- <-]. right. by exists e.
Qed.

Lemma bind_ok_inv {S A B} (m : M S A) (k : A -> M S B) h s b s' d :
  bind m k h s = (Ok b, s', d) ->
  exists a s1 d1 d2,
    m h s = (Ok a, s1, d1) /\ k a (h ++ d1) s1 = (Ok b, s', d2)
    /\ d = d1 ++ d2.
Proof.
  intros H. apply bind_inv in H as [H|(e & _ & [=])]. exact H.
Qed.

Lemma bind_ok {S A B} (m : M S A) (k : A -> M S B) h s a s1 d1 :
  m h s = (Ok a, s1, d1) ->
  bind m k h s =
    (let '(r, s2, d2) := k a (h ++ d1) s1 in (r, s2, d1 ++ d2)).
Proof. intros H. unfold bind. rewrite H. by destruct (k a (h ++ d1) s1) as [[? ?] ?]. Qed.

Lemma bind_raise {S A B} (m : M S A) (k : A -> M S B) h s e s1 d1 :
  m h s = (Raise e, s1, d1) -> bind m k h s = (Raise e, s1, d1).
Proof. intros H. unfold bind. by rewrite H. Qed.

Section Frame.

Context (env : Env) {S : Type} (R : S -> S -> Prop)
        (D : list event -> Prop) `{!Framing R D}.

Lemma respects_ret {A} (a : A) : respects R D (ret a).
Proof.
  intros h s r s' d [= <- <- <-]. split; [apply framing_refl|apply framing_nil].
Qed.

Lemma respects_raise {A} e : respects R D (raise (A:=A) e).
Proof.
  intros h s r s' d [= <- <- <-]. split; [apply framing_refl|apply framing_nil].
Qed.

Lemma respects_get : respects R D (get (S:=S)).
Proof.
  intros h s r s' d [= <- <- <-]. split; [apply framing_refl|apply framing_nil].
Qed.

Lemma respects_of_option {A} (o : option A) e : respects R D (of_option o e).
Proof. destruct o; [apply respects_ret|apply respects_raise]. Qed.

Lemma respects_modify (f : S -> S) :
  (forall s, R s (f s)) -> respects R D (modify f).
Proof. intros Hf h s r s' d [= <- <- <-]. split; [apply Hf|apply framing_nil]. Qed.

Lemma respects_emit ev : D [ev] -> respects R D (emit (S:=S) ev).
Proof. intros Hev h s r s' d [= <- <- <-]. split; [apply framing_refl|done]. Qed.

Lemma respects_query {A} ev (answer : list event -> A) :
  D [ev] -> respects R D (query env ev answer).
Proof.
  intros Hev h s r s' d. unfold query.
  destruct (raises env h ev); intros [= <- <- <-];
    (split; [apply framing_refl|done]).
Qed.

Lemma respects_call ev : D [ev] -> respects R D (call (S:=S) env ev).
Proof. apply respects_query. Qed.

Lemma respects_bind {A B} (m : M S A) (k : A -> M S B) :
  respects R D m -> (forall a, respects R D (k a)) -> respects R D (bind m k).
Proof.
  intros Hm Hk h s r s' d H.
  apply bind_inv in H as [(a & s1 & d1 & d2 & H1 & H2 & ->)|(e & H1 & _)].
  - apply Hm in H1 as [? ?]. apply Hk in H2 as [? ?].
    split; [by eapply framing_trans|by apply framing_app].
  - by apply Hm in H1.
Qed.

Lemma respects_try_except {A} (m : M S A) (handler : exn -> M S A) :
  respects R D m -> (forall e, respects R D (handler e)) ->
  respects R D (try_except m handler).
Proof.
  intros Hm Hh h s r s' d. unfold try_except.
  destruct (m h s) as [[[a|e] s1] d1] eqn:H1.
  - intros [= <- <- <-]. by apply Hm in H1.
  - destruct (handler e (h ++ d1) s1) as [[r2 s2] d2] eqn:H2.
    intros [= <- <- <-]. apply Hm in H1 as [? ?]. apply Hh in H2 as [? ?].
    split; [by eapply framing_trans|by apply framing_app].
Qed.

Lemma respects_for_each {A} (l : list A) (body : A -> M S unit) :
  (forall x, respects R D (body x)) -> respects R D (for_each l body).
Proof.
  intros Hb. induction l as [|x l IH]; simpl.
  - apply respects_ret.
  - apply respects_bind; [apply Hb|intros _; apply IH].
Qed.

Lemma respects_mapM {A B} (f : A -> M S B) (l : list A) :
  (forall x, respects R D (f x)) -> respects R D (mapM f l).
Proof.
  intros Hf. induction l as [|x l IH]; simpl.
  - apply respects_ret.
  - apply respects_bind; [apply Hf|intros y].
    apply respects_bind; [apply IH|intros ys; apply respects_ret].
Qed.

End Frame.

(** One step of a frame proof: peel the outermost construct. *)
Ltac frame_step :=
  lazymatch goal with
  | |- Framing _ _ => tc_solve
  | |- PreOrder _ => tc_solve
  | |- forall _, _ => intros ?
  | |- respects _ _ (bind _ _) => apply respects_bind
  | |- respects _ _ (ret _) => apply respects_ret
  | |- respects _ _ (raise _) => apply respects_raise
  | |- respects _ _ get => apply respects_get
  | |- respects _ _ (of_option _ _) => apply respects_of_option
  | |- respects _ _ (emit _) => apply respects_emit
  | |- respects _ _ (query _ _ _) => apply respects_query
  | |- respects _ _ (call _ _) => apply respects_call
  | |- respects _ _ (modify _) => apply respects_modify
  | |- respects _ _ (for_each _ _) => apply respects_for_each
  | |- respects _ _ (mapM _ _) => apply respects_mapM
  | |- respects _ _ (try_except _ _) => apply respects_try_except
  | |- respects _ _ (if ?b then _ else _) => destruct b
  | |- respects _ _ (match ?x with _ => _ end) => destruct x
  end.

(** ** Instances of frames *)

#[global] Instance keeps_preorder {S X} (g : S -> X) : PreOrder (keeps g).
Proof.
  split; [by intros s|]. intros a b c Hab Hbc. unfold keeps in *. congruence.
Qed.

#[global] Instance framing_silent {S X} (R : S -> S -> Prop) `{!PreOrder R}
    (f : event -> option X) : Framing R (silent f).
Proof.
  split; [apply PreOrder_Reflexive|apply PreOrder_Transitive|done|].
  unfold silent. intros d1 d2 H1 H2. by rewrite omap_app, H1, H2.
Qed.

#[global] Instance framing_low {S} (R : S -> S -> Prop) `{!PreOrder R}
  : Framing R low.
Proof.
  split; [apply PreOrder_Reflexive|apply PreOrder_Transitive|
          apply Forall_nil_2|].
  intros d1 d2 H1 H2. by apply Forall_app.
Qed.

#[global] Instance framing_any_trace {S} (R : S -> S -> Prop) `{!PreOrder R}
  : Framing R (fun _ => True).
Proof.
  split; [apply PreOrder_Reflexive|apply PreOrder_Transitive|done|done].
Qed.

Lemma low_silent {X} (f : event -> option X) (d : list event) :
  (forall e, is_low e = true -> f e = None) -> low d -> silent f d.
Proof.
  intros Hf Hd. unfold silent. induction Hd as [|e d He _ IH]; [done|].
  simpl. by rewrite (Hf e He).
Qed.

Lemma respects_weaken {S A} (R R' : S -> S -> Prop)
    (D D' : list event -> Prop) (m : M S A) :
  (forall s s', R s s' -> R' s s') -> (forall d, D d -> D' d) ->
  respects R D m -> respects R' D' m.
Proof. intros HR HD Hm h s r s' d H. apply Hm in H as [? ?]. auto. Qed.

(** ** Simplifying a [bind] whose head is known *)

Lemma bind_get {S B} (k : S -> M S B) h s : bind get k h s = k s h s.
Proof.
  unfold bind, get. rewrite app_nil_r. by destruct (k s h s) as [[? ?] ?].
Qed.

Lemma bind_ret {S A B} (a : A) (k : A -> M S B) h s :
  bind (ret a) k h s = k a h s.
Proof.
  unfold bind, ret. rewrite app_nil_r. by destruct (k a h s) as [[? ?] ?].
Qed.

Lemma bind_modify {S B} (f : S -> S) (k : unit -> M S B) h s :
  bind (modify f) k h s = k tt h (f s).
Proof.
  unfold bind, modify. rewrite app_nil_r.
  by destruct (k tt h (f s)) as [[? ?] ?].
Qed.

Lemma bind_raise_now {S A B} e (k : A -> M S B) h s :
  bind (raise e) k h s = (Raise e, s, []).
Proof. done. Qed.

Lemma bind_emit {S B} ev (k : unit -> M S B) h s :
  bind (emit ev) k h s =
    (let '(r, s2, d2) := k tt (h ++ [ev]) s in (r, s2, ev :: d2)).
Proof. unfold bind, emit. by destruct (k tt (h ++ [ev]) s) as [[? ?] ?]. Qed.

Lemma bind_assoc {S A B C} (m : M S A) (k1 : A -> M S B) (k2 : B -> M S C)
    h s :
  bind (bind m k1) k2 h s = bind m (fun a => bind (k1 a) k2) h s.
Proof.
  unfold bind. destruct (m h s) as [[[a|e] s1] d1]; [|done].
  destruct (k1 a (h ++ d1) s1) as [[[b|e] s2] d2]; [|done].
  rewrite <- (app_assoc h d1 d2).
  destruct (k2 b (h ++ d1 ++ d2) s2) as [[r s3] d3].
  by rewrite app_assoc.
Qed.

(** Bring a chain of binds into a canonical form. *)
Ltac bind_norm H :=
  repeat first [ rewrite bind_assoc in H | rewrite bind_ret in H
               | rewrite bind_get in H | rewrite bind_modify in H ].

Create HintDb agent_unfold.
#[global] Hint Unfold add_rules remove_rules _send_gratuitous_arp_packet
  first_fixed_ip port_ip_cidr _set_subnet_info _create_router_namespace
  _spawn_metadata_proxy _destroy_metadata_proxy remove_floating_ip
  remove_internal_port get_external_network_id get_routers
  : agent_unfold.

(** What is left of a frame proof: facts about single events. *)
Ltac frame_side :=
  try tc_solve; try done; try (by repeat constructor); try (by intros []);
  try match goal with e : event |- _ => by destruct e end.

(** A whole frame proof; [tac] brings the lemmas about the parts. *)
Ltac frame_with tac :=
  repeat first [ tac | frame_step | progress autounfold with agent_unfold ];
  frame_side.

Ltac frame_auto := frame_with fail.

(** ** The hooks: they only talk to the host *)

Section Hooks.

Context (env : Env) (conf : Conf).

(** Every hook reads its RouterInfo, records its own entry, and then only
    issues calls to the host. *)
Lemma hook_shape (mk : RouterInfo.t -> event)
    (rest : RouterInfo.t -> M RouterInfo.t unit) h ri r ri' d :
  (forall ri0, respects eq low (rest ri0)) ->
  (ri0 <- get ;; emit (mk ri0) ;; rest ri0) h ri = (r, ri', d) ->
  ri' = ri /\ exists d', d = mk ri :: d' /\ low d'.
Proof.
  intros Hrest. rewrite bind_get, bind_emit.
  destruct (rest ri (h ++ [mk ri]) ri) as [[r2 s2] d2] eqn:H2.
  intros [= <- <- <-]. apply Hrest in H2 as [-> ?]. eauto.
Qed.

Lemma internal_network_added_shape ex_gw_port network_id port_id cidr mac
    h ri r ri' d :
  internal_network_added env conf ex_gw_port network_id port_id cidr mac h ri
    = (r, ri', d) ->
  ri' = ri /\ exists d',
    d = Call_internal_network_added (RouterInfo.router_id ri) port_id cidr :: d'
    /\ low d'.
Proof.
  apply (hook_shape (fun ri0 => Call_internal_network_added _ _ _)).
  intros ri0. frame_auto.
Qed.

Lemma internal_network_removed_shape ex_gw_port port_id cidr h ri r ri' d :
  internal_network_removed env ex_gw_port port_id cidr h ri
    = (r, ri', d) ->
  ri' = ri /\ exists d',
    d = Call_internal_network_removed (RouterInfo.router_id ri) port_id cidr :: d'
    /\ low d'.
Proof.
  apply (hook_shape (fun ri0 => Call_internal_network_removed _ _ _)).
  intros ri0. frame_auto.
Qed.

Lemma external_gateway_added_shape gw cidrs h ri r ri' d :
  external_gateway_added env conf gw cidrs h ri = (r, ri', d) ->
  ri' = ri /\ exists d',
    d = Call_external_gateway_added (RouterInfo.router_id ri) (Port.id gw) :: d'
    /\ low d'.
Proof.
  apply (hook_shape (fun ri0 => Call_external_gateway_added _ _)).
  intros ri0. frame_auto.
Qed.

Lemma external_gateway_removed_shape gw cidrs h ri r ri' d :
  external_gateway_removed env conf gw cidrs h ri = (r, ri', d) ->
  ri' = ri /\ exists d',
    d = Call_external_gateway_removed (RouterInfo.router_id ri) (Port.id gw) :: d'
    /\ low d'.
Proof.
  apply (hook_shape (fun ri0 => Call_external_gateway_removed _ _)).
  intros ri0. frame_auto.
Qed.

Lemma floating_ip_added_shape gw floating_ip fixed_ip h ri r ri' d :
  floating_ip_added env conf gw floating_ip fixed_ip h ri = (r, ri', d) ->
  ri' = ri /\ exists d',
    d = Call_floating_ip_added (RouterInfo.router_id ri) floating_ip fixed_ip :: d'
    /\ low d'.
Proof.
  apply (hook_shape (fun ri0 => Call_floating_ip_added _ _ _)).
  intros ri0. frame_auto.
Qed.

Lemma floating_ip_removed_shape gw floating_ip fixed_ip h ri r ri' d :
  floating_ip_removed env gw floating_ip fixed_ip h ri = (r, ri', d) ->
  ri' = ri /\ exists d',
    d = Call_floating_ip_removed (RouterInfo.router_id ri) floating_ip fixed_ip :: d'
    /\ low d'.
Proof.
  apply (hook_shape (fun ri0 => Call_floating_ip_removed _ _ _)).
  intros ri0. frame_auto.
Qed.

End Hooks.

(** ** The two loops over ports *)

Lemma low_added_calls d : low d -> internal_network_added_calls d = [].
Proof. apply low_silent. by intros []. Qed.

Lemma low_removed_calls d : low d -> internal_network_removed_calls d = [].
Proof. apply low_silent. by intros []. Qed.

Lemma low_gateway_added_calls d : low d -> external_gateway_added_calls d = [].
Proof. apply low_silent. by intros []. Qed.

Lemma low_gateway_removed_calls d :
  low d -> external_gateway_removed_calls d = [].
Proof. apply low_silent. by intros []. Qed.

Lemma list_remove_middle {A} `{EqDecision A} (x : A) (k l : list A) :
  x ∉ k -> list_remove x (k ++ x :: l) = Some (k ++ l).
Proof.
  induction k as [|y k IH]; intros Hx; simpl.
  - by rewrite decide_True.
  - rewrite decide_False by set_solver. rewrite IH by set_solver. done.
Qed.

Lemma list_remove_length {A} `{EqDecision A} (x : A) (l l' : list A) :
  list_remove x l = Some l' -> length l = S (length l').
Proof.
  revert l'. induction l as [|y l IH]; intros l'; simpl; [done|].
  destruct (decide (y = x)); [by intros [= ->]|].
  destruct (list_remove x l) as [l''|]; [|done].
  intros [= <-]. simpl. by rewrite (IH l'').
Qed.

Lemma list_remove_elem_of {A} `{EqDecision A} (x : A) (l : list A) :
  x ∈ l -> is_Some (list_remove x l).
Proof.
  induction l as [|y l IH]; [by intros ?%elem_of_nil|]. simpl.
  destruct (decide (y = x)); [by eauto|].
  intros [?|Hx]%elem_of_cons; [congruence|].
  destruct (IH Hx) as [l' ->]. eauto.
Qed.

Section PortLoops.

Context (env : Env) (conf : Conf).

Lemma _set_subnet_info_frame {S} p :
  respects (S:=S) eq low (_set_subnet_info env p).
Proof. frame_auto. Qed.

Lemma _set_subnet_info_ok {S} p h (s : S) p' s' d :
  _set_subnet_info env p h s = (Ok p', s', d) ->
  s' = s /\ low d /\ exists c, p' = Port.set_ip_cidr c p.
Proof.
  intros H. destruct (_set_subnet_info_frame p _ _ _ _ _ H) as [<- Hd].
  split; [done|split; [done|]].
  unfold _set_subnet_info in H. destruct (Port.fixed_ips p); [done|].
  apply bind_ok_inv in H as (_ & s1 & d1 & d2 & _ & H & _).
  destruct (ip_network env _); [|done]. injection H as <- _ _. eauto.
Qed.

Lemma new_port_body_ok gw p h ri ri' d :
  new_port_body env conf gw p h ri = (Ok tt, ri', d) ->
  exists p', Port.id p' = Port.id p
    /\ RouterInfo.internal_ports ri'
       = RouterInfo.internal_ports ri ++ [p']
    /\ internal_network_added_calls d = [Port.id p]
    /\ internal_network_removed_calls d = [].
Proof.
  unfold new_port_body. intros H.
  apply bind_ok_inv in H as (p' & s1 & d1 & d2 & H1 & H & ->).
  apply _set_subnet_info_ok in H1 as (-> & Hd1 & c & ->).
  rewrite !bind_modify in H. unfold port_ip_cidr in H.
  cbn [of_option Port.ip_cidr Port.set_ip_cidr] in H. rewrite bind_ret in H.
  apply internal_network_added_shape in H as (-> & d' & -> & Hd').
  exists (Port.set_ip_cidr c p). split; [done|split; [done|]].
  unfold internal_network_added_calls, internal_network_removed_calls.
  rewrite !omap_app. simpl.
  fold (internal_network_added_calls d1) (internal_network_added_calls d').
  fold (internal_network_removed_calls d1)
       (internal_network_removed_calls d').
  by rewrite !low_added_calls, !low_removed_calls.
Qed.

Lemma new_ports_loop_ok gw l h ri ri' d :
  for_each l (new_port_body env conf gw) h ri = (Ok tt, ri', d) ->
  exists l', Port.id <$> l' = Port.id <$> l
    /\ RouterInfo.internal_ports ri' = RouterInfo.internal_ports ri ++ l'
    /\ internal_network_added_calls d = Port.id <$> l
    /\ internal_network_removed_calls d = [].
Proof.
  revert h ri d. induction l as [|p l IH]; intros h ri d; simpl.
  - intros [= <- <-]. exists []. by rewrite app_nil_r.
  - intros H. apply bind_ok_inv in H as ([] & s1 & d1 & d2 & H1 & H2 & ->).
    apply new_port_body_ok in H1 as (p' & Hid & Hports & Ha & Hr).
    apply IH in H2 as (l' & Hids & Hports' & Ha' & Hr').
    exists (p' :: l'). split; [by rewrite !fmap_cons, Hid, Hids|].
    split; [by rewrite Hports', Hports, <- app_assoc|].
    unfold internal_network_added_calls, internal_network_removed_calls in *.
    rewrite !omap_app. by rewrite Ha, Ha', Hr, Hr'.
Qed.

Lemma old_port_body_ok gw p h ri ri' d :
  old_port_body env gw p h ri = (Ok tt, ri', d) ->
  list_remove p (RouterInfo.internal_ports ri)
    = Some (RouterInfo.internal_ports ri')
  /\ internal_network_added_calls d = []
  /\ internal_network_removed_calls d = [Port.id p].
Proof.
  unfold old_port_body, remove_internal_port. intros H.
  apply bind_ok_inv in H as ([] & s1 & d1 & d2 & H1 & H & ->).
  rewrite bind_get in H1.
  destruct (list_remove p (RouterInfo.internal_ports ri)) as [l|] eqn:Hl;
    [|done].
  simpl in H1. rewrite bind_ret in H1. injection H1 as <- <-.
  unfold port_ip_cidr in H. destruct (Port.ip_cidr p) as [c|]; [|done].
  simpl in H. rewrite bind_ret in H.
  apply internal_network_removed_shape in H as (-> & d' & -> & Hd').
  split; [done|]. simpl.
  unfold internal_network_added_calls, internal_network_removed_calls.
  simpl.
  fold (internal_network_added_calls d') (internal_network_removed_calls d').
  by rewrite low_added_calls, low_removed_calls.
Qed.

(** Removing, one [list.remove] at a time, the ports that do not satisfy
    [keep] leaves the ports that do, in their order. *)
Lemma old_ports_loop_ok (keep : Port.t -> Prop)
    {keep_dec : forall p, Decision (keep p)} gw l k suffix h ri ri' d :
  Forall keep k ->
  RouterInfo.internal_ports ri = k ++ l ++ suffix ->
  for_each (filter (fun p => ~ keep p) l) (old_port_body env gw) h ri
    = (Ok tt, ri', d) ->
  RouterInfo.internal_ports ri' = k ++ filter keep l ++ suffix
  /\ internal_network_added_calls d = []
  /\ internal_network_removed_calls d
     = Port.id <$> filter (fun p => ~ keep p) l.
Proof.
  revert k h ri d. induction l as [|p l IH]; intros k h ri d Hk Hports.
  - simpl. by intros [= <- <-].
  - rewrite !filter_cons. destruct (decide (keep p)) as [Hp|Hp].
    + rewrite decide_False by tauto. intros H.
      apply (IH (k ++ [p])) in H as (-> & ? & ?).
      * by rewrite <- app_assoc.
      * apply Forall_app. split; [done|by apply Forall_singleton].
      * by rewrite Hports, <- app_assoc.
    + rewrite decide_True by done. simpl. intros H.
      apply bind_ok_inv in H as ([] & s1 & d1 & d2 & H1 & H2 & ->).
      apply old_port_body_ok in H1 as (Hrm & Ha & Hr).
      rewrite Hports in Hrm. simpl in Hrm.
      rewrite list_remove_middle in Hrm.
      2:{ intros Hin. rewrite Forall_forall in Hk. by apply Hp, Hk. }
      injection Hrm as Hrm. symmetry in Hrm.
      apply (IH k) in H2 as (-> & Ha' & Hr'); [|done|done].
      split; [done|].
      unfold internal_network_added_calls,
        internal_network_removed_calls in *.
      rewrite !omap_app. by rewrite Ha, Ha', Hr, Hr'.
Qed.

End PortLoops.

(** ** Frames of the hooks and of the floating-IP reconciler *)

Lemma shape_respects {S A X} (m : M S A) (mk : S -> event)
    (R : S -> S -> Prop) `{!PreOrder R} (f : event -> option X) :
  (forall h s r s' d, m h s = (r, s', d) ->
     s' = s /\ exists d', d = mk s :: d' /\ low d') ->
  (forall e, is_low e = true -> f e = None) ->
  (forall s, f (mk s) = None) ->
  respects R (silent f) m.
Proof.
  intros Hm Hlow Hmk h s r s' d H.
  apply Hm in H as (-> & d' & -> & Hd'). split; [reflexivity|].
  unfold silent. simpl. rewrite Hmk. by apply low_silent.
Qed.

Section HookFrames.

Context (env : Env) (conf : Conf) {X : Type}
        (R : RouterInfo.t -> RouterInfo.t -> Prop) `{!PreOrder R}
        (f : event -> option X)
        (f_low : forall e, is_low e = true -> f e = None).

Lemma internal_network_added_respects gw network_id port_id cidr mac :
  (forall rid, f (Call_internal_network_added rid port_id cidr) = None) ->
  respects R (silent f)
    (internal_network_added env conf gw network_id port_id cidr mac).
Proof.
  intros Hf.
  apply (shape_respects _ (fun ri => Call_internal_network_added (RouterInfo.router_id ri) port_id cidr) R f);
    try tc_solve; [intros *; apply internal_network_added_shape|exact f_low|intros; apply Hf].
Qed.

Lemma internal_network_removed_respects gw port_id cidr :
  (forall rid, f (Call_internal_network_removed rid port_id cidr) = None) ->
  respects R (silent f) (internal_network_removed env gw port_id cidr).
Proof.
  intros Hf.
  apply (shape_respects _ (fun ri => Call_internal_network_removed (RouterInfo.router_id ri) port_id cidr) R f);
    try tc_solve; [intros *; apply internal_network_removed_shape|exact f_low|intros; apply Hf].
Qed.

Lemma external_gateway_added_respects gw cidrs :
  (forall rid, f (Call_external_gateway_added rid (Port.id gw)) = None) ->
  respects R (silent f) (external_gateway_added env conf gw cidrs).
Proof.
  intros Hf.
  apply (shape_respects _ (fun ri => Call_external_gateway_added (RouterInfo.router_id ri) (Port.id gw)) R f);
    try tc_solve; [intros *; apply external_gateway_added_shape|exact f_low|intros; apply Hf].
Qed.

Lemma external_gateway_removed_respects gw cidrs :
  (forall rid, f (Call_external_gateway_removed rid (Port.id gw)) = None) ->
  respects R (silent f) (external_gateway_removed env conf gw cidrs).
Proof.
  intros Hf.
  apply (shape_respects _ (fun ri => Call_external_gateway_removed (RouterInfo.router_id ri) (Port.id gw)) R f);
    try tc_solve; [intros *; apply external_gateway_removed_shape|exact f_low|intros; apply Hf].
Qed.

Lemma floating_ip_added_respects gw floating_ip fixed_ip :
  (forall rid, f (Call_floating_ip_added rid floating_ip fixed_ip) = None) ->
  respects R (silent f) (floating_ip_added env conf gw floating_ip fixed_ip).
Proof.
  intros Hf.
  apply (shape_respects _ (fun ri => Call_floating_ip_added (RouterInfo.router_id ri) floating_ip fixed_ip) R f);
    try tc_solve; [intros *; apply floating_ip_added_shape|exact f_low|intros; apply Hf].
Qed.

Lemma floating_ip_removed_respects gw floating_ip fixed_ip :
  (forall rid, f (Call_floating_ip_removed rid floating_ip fixed_ip) = None) ->
  respects R (silent f) (floating_ip_removed env gw floating_ip fixed_ip).
Proof.
  intros Hf.
  apply (shape_respects _ (fun ri => Call_floating_ip_removed (RouterInfo.router_id ri) floating_ip fixed_ip) R f);
    try tc_solve; [intros *; apply floating_ip_removed_shape|exact f_low|intros; apply Hf].
Qed.

Lemma _set_subnet_info_respects p :
  respects R (silent f) (_set_subnet_info env p).
Proof.
  eapply respects_weaken; [| |apply (_set_subnet_info_frame env p)].
  - intros s s' ->. reflexivity.
  - intros d. by apply low_silent.
Qed.

(** The floating-IP reconciler writes [floating_ips] only, and enters the
    two floating-IP hooks only. *)
Context (R_floating_ips :
           forall ri l, R ri (RouterInfo.set_floating_ips l ri))
        (f_added : forall rid a b, f (Call_floating_ip_added rid a b) = None)
        (f_removed :
           forall rid a b, f (Call_floating_ip_removed rid a b) = None).

Lemma floating_ips_first_loop_respects gw existing l m :
  respects R (silent f) (floating_ips_first_loop env conf gw existing l m).
Proof.
  revert m. induction l as [|fip l IH]; intros m; simpl;
    repeat first [ apply IH | by apply floating_ip_added_respects
                 | apply R_floating_ips | frame_step ].
Qed.

Lemma remove_floating_ip_respects fip :
  respects R (silent f) (remove_floating_ip fip).
Proof. frame_auto. Qed.

Lemma floating_ips_second_body_respects to_remove m fip :
  respects R (silent f) (floating_ips_second_body env conf to_remove m fip).
Proof.
  unfold floating_ips_second_body.
  repeat first [ apply remove_floating_ip_respects
               | by apply floating_ip_added_respects
               | by apply floating_ip_removed_respects
               | apply R_floating_ips | frame_step ].
Qed.

Lemma floating_ips_second_loop_respects fuel i to_remove m :
  respects R (silent f) (floating_ips_second_loop env conf fuel i to_remove m).
Proof.
  revert i. induction fuel as [|fuel IH]; intros i; simpl;
    repeat first [ apply IH | apply floating_ips_second_body_respects
                 | frame_step ].
Qed.

Lemma process_router_floating_ips_respects gw :
  respects R (silent f) (process_router_floating_ips env conf gw).
Proof.
  unfold process_router_floating_ips.
  repeat first [ apply floating_ips_first_loop_respects
               | apply floating_ips_second_loop_respects | frame_step ].
Qed.

End HookFrames.

(** ** process_router: the ports *)

Lemma silent_internal_port_call d :
  silent internal_port_call d ->
  internal_network_added_calls d = [] /\ internal_network_removed_calls d = [].
Proof.
  unfold silent, internal_network_added_calls, internal_network_removed_calls.
  induction d as [|e d IH]; [done|]. simpl.
  unfold internal_port_call at 1.
  destruct (added_port e); [done|]. destruct (removed_port e); [done|].
  exact IH.
Qed.

Lemma silent_gateway_call d :
  silent gateway_call d ->
  external_gateway_added_calls d = [] /\ external_gateway_removed_calls d = [].
Proof.
  unfold silent, external_gateway_added_calls, external_gateway_removed_calls.
  induction d as [|e d IH]; [done|]. simpl.
  unfold gateway_call at 1.
  destruct (added_gateway e); [done|]. destruct (removed_gateway e); [done|].
  exact IH.
Qed.

Lemma times_NoDup x calls :
  NoDup calls -> times x calls = if decide (x ∈ calls) then 1 else 0.
Proof.
  unfold times. induction 1 as [|y l Hy Hl IH]; [done|].
  rewrite filter_cons. destruct (decide (y = x)) as [->|Hne].
  - simpl. rewrite IH, decide_False by done.
    rewrite decide_True; [done|]. apply elem_of_cons. by left.
  - rewrite IH. destruct (decide (x ∈ l)) as [Hx|Hx].
    + rewrite decide_True; [done|]. apply elem_of_cons. by right.
    + rewrite decide_False; [done|].
      intros [?|?]%elem_of_cons; [congruence|done].
Qed.

Lemma NoDup_fmap_filter {A B} (f : A -> B) (P : A -> Prop)
    `{!forall x, Decision (P x)} (l : list A) :
  NoDup (f <$> l) -> NoDup (f <$> filter P l).
Proof.
  induction l as [|x l IH]; [done|]. rewrite fmap_cons, NoDup_cons.
  intros [Hx Hl]. rewrite filter_cons. destruct (decide (P x)); [|by apply IH].
  rewrite fmap_cons, NoDup_cons. split; [|by apply IH].
  intros (y & Hxy & Hy%list_elem_of_filter)%list_elem_of_fmap.
  apply Hx, list_elem_of_fmap. exists y. tauto.
Qed.

Lemma NoDup_fmap_eq {A B} (f : A -> B) (l : list A) x y :
  NoDup (f <$> l) -> x ∈ l -> y ∈ l -> f x = f y -> x = y.
Proof.
  induction l as [|z l IH]; [by intros _ ?%elem_of_nil|].
  rewrite fmap_cons, NoDup_cons. intros [Hz Hl].
  intros [->|Hx]%elem_of_cons [->|Hy]%elem_of_cons Hf; [done| | |by apply IH].
  - exfalso. apply Hz, list_elem_of_fmap. by exists y.
  - exfalso. apply Hz, list_elem_of_fmap. by exists x.
Qed.

Section ProcessRouterPorts.

Context (env : Env) (conf : Conf).

Lemma gateway_step_ports gw cidrs :
  respects (keeps RouterInfo.internal_ports) (silent internal_port_call)
    (gateway_step env conf gw cidrs).
Proof.
  unfold gateway_step.
  frame_with ltac:(first [ apply _set_subnet_info_respects
                         | apply external_gateway_added_respects
                         | apply external_gateway_removed_respects ]).
Qed.

Lemma process_router_tail_ports gw (ri0 : RouterInfo.t) :
  respects (keeps RouterInfo.internal_ports) (silent internal_port_call)
    (internal_cidrs <- mapM port_ip_cidr (RouterInfo.internal_ports ri0) ;;
     ex_gw_port <- gateway_step env conf gw internal_cidrs ;;
     (if bool_decide (is_Some (RouterInfo.ex_gw_port ri0) ∨ is_Some ex_gw_port)
      then process_router_floating_ips env conf ex_gw_port
      else ret tt) ;;
     modify (RouterInfo.set_ex_gw_port ex_gw_port)).
Proof.
  frame_with ltac:(first [ apply gateway_step_ports
                         | apply process_router_floating_ips_respects ]).
Qed.

(** What a reconciliation that returns did to the ports. *)
Lemma process_router_ports h ri r ri' d :
  RouterInfo.router ri = Some r ->
  process_router env conf h ri = (Ok tt, ri', d) ->
  let E := port_ids (RouterInfo.internal_ports ri) in
  let C := port_ids (filter (fun p => Port.admin_state_up p = true)
                            (Router._interfaces r)) in
  let new_ports := filter (fun p => Port.id p ∈ C ∧ Port.id p ∉ E)
                          (Router._interfaces r) in
  let old_ports := filter (fun p => Port.id p ∉ C)
                          (RouterInfo.internal_ports ri) in
  (exists l', Port.id <$> l' = Port.id <$> new_ports
     /\ RouterInfo.internal_ports ri'
        = filter (fun p => Port.id p ∈ C) (RouterInfo.internal_ports ri) ++ l')
  /\ internal_network_added_calls d = Port.id <$> new_ports
  /\ internal_network_removed_calls d = Port.id <$> old_ports.
Proof.
  intros Hr H. unfold process_router in H.
  rewrite bind_get, Hr in H. cbn [of_option] in H. rewrite bind_ret in H.
  cbv zeta in H.
  apply bind_ok_inv in H as ([] & s1 & d1 & d2 & H1 & H & ->).
  apply new_ports_loop_ok in H1 as (l' & Hids & Hports & Ha1 & Hr1).
  apply bind_ok_inv in H as ([] & s2 & d2' & d3 & H2 & H & ->).
  eapply (old_ports_loop_ok env
            (fun p => Port.id p ∈ port_ids
               (filter (fun p => Port.admin_state_up p = true)
                       (Router._interfaces r))) _ _ [] l') in H2
    as (Hports2 & Ha2 & Hr2); [|done|by rewrite Hports].
  rewrite bind_get in H.
  apply process_router_tail_ports in H as [Hkeep Hsilent].
  apply silent_internal_port_call in Hsilent as [Ha3 Hr3].
  unfold keeps in Hkeep. intros E C new_ports old_ports.
  split; [exists l'; by rewrite Hkeep, Hports2|].
  unfold internal_network_added_calls, internal_network_removed_calls in *.
  rewrite !omap_app. rewrite Ha1, Ha2, Ha3, Hr1, Hr2, Hr3.
  by rewrite !app_nil_r.
Qed.

End ProcessRouterPorts.

Lemma elem_of_port_ids x l :
  x ∈ port_ids l <-> exists p, p ∈ l /\ Port.id p = x.
Proof.
  unfold port_ids. rewrite elem_of_list_to_set, list_elem_of_fmap.
  split; intros (p & ? & ?); exists p; by split.
Qed.

Lemma elem_of_port_ids_fmap x l : x ∈ Port.id <$> l <-> x ∈ port_ids l.
Proof. unfold port_ids. by rewrite elem_of_list_to_set. Qed.

(** With unique ids, the admin-down ports of a descriptor are exactly the
    ports whose id is not an active id. *)
Lemma admin_down_not_current (ports : list Port.t) q :
  NoDup (Port.id <$> ports) -> q ∈ ports ->
  Port.admin_state_up q = false ->
  Port.id q ∉ port_ids (filter (fun p => Port.admin_state_up p = true) ports).
Proof.
  intros Hnd Hq Hdown (p & [Hup Hp]%list_elem_of_filter & Hid)%elem_of_port_ids.
  assert (p = q) as -> by by eapply (NoDup_fmap_eq Port.id).
  congruence.
Qed.

(** After a reconciliation that returns, the port ids are the admin-up
    port ids of the descriptor. *)
Lemma process_router_port_ids env conf h ri r ri' d :
  RouterInfo.router ri = Some r ->
  process_router env conf h ri = (Ok tt, ri', d) ->
  port_ids (RouterInfo.internal_ports ri')
  = port_ids (filter (fun p => Port.admin_state_up p = true)
                     (Router._interfaces r)).
Proof.
  intros Hr H.
  destruct (process_router_ports env conf h ri r ri' d Hr H)
    as ((l' & Hids & Hports) & _ & _).
  set (E := port_ids (RouterInfo.internal_ports ri)) in *.
  set (C := port_ids (filter (fun p => Port.admin_state_up p = true)
                             (Router._interfaces r))) in *.
  assert (HC : forall x, x ∈ C ->
            exists p, p ∈ Router._interfaces r /\ Port.id p = x).
  { intros x (p & [_ Hp]%list_elem_of_filter & Hid)%elem_of_port_ids. eauto. }
  apply set_eq. intros x. rewrite Hports. unfold port_ids at 1.
  rewrite fmap_app, Hids, elem_of_list_to_set, elem_of_app.
  rewrite !list_elem_of_fmap. split.
  - intros [(p & -> & [Hp _]%list_elem_of_filter)
           |(p & -> & [[Hp _] _]%list_elem_of_filter)]; exact Hp.
  - intros Hx. destruct (decide (x ∈ E)) as [HE|HE].
    + left. apply elem_of_port_ids in HE as (p & Hp & <-).
      exists p. split; [done|]. by apply list_elem_of_filter.
    + right. destruct (HC x Hx) as (p & Hp & <-).
      exists p. split; [done|]. by apply list_elem_of_filter.
Qed.

(** C1.  Port diff: after a reconciliation that returns, the RouterInfo's
    port ids are the descriptor's admin-up port ids C; internal_network_added
    was invoked for the descriptor's ports with an id in C and not in E, in
    order, and internal_network_removed for the existing ports with an id
    not in C; with unique port ids that is exactly once for each id of
    C \ E and of E \ C and never for another id; and a port that is in the
    descriptor with admin_state_up false is then outside C, so it fares as
    a port the descriptor no longer has. *)
Theorem process_router_port_diff env conf h ri r ri' d :
  RouterInfo.router ri = Some r ->
  process_router env conf h ri = (Ok tt, ri', d) ->
  let E := port_ids (RouterInfo.internal_ports ri) in
  let C := port_ids (filter (fun p => Port.admin_state_up p = true)
                            (Router._interfaces r)) in
  port_ids (RouterInfo.internal_ports ri') = C
  /\ internal_network_added_calls d
     = Port.id <$> filter (fun p => Port.id p ∈ C ∧ Port.id p ∉ E)
                          (Router._interfaces r)
  /\ internal_network_removed_calls d
     = Port.id <$> filter (fun p => Port.id p ∉ C)
                          (RouterInfo.internal_ports ri)
  /\ (NoDup (Port.id <$> Router._interfaces r) ->
      forall x, times x (internal_network_added_calls d)
                = if decide (x ∈ C ∖ E) then 1 else 0)
  /\ (NoDup (Port.id <$> RouterInfo.internal_ports ri) ->
      forall x, times x (internal_network_removed_calls d)
                = if decide (x ∈ E ∖ C) then 1 else 0)
  /\ (NoDup (Port.id <$> Router._interfaces r) ->
      forall q, q ∈ Router._interfaces r ->
                Port.admin_state_up q = false -> Port.id q ∉ C).
Proof.
  intros Hr H E C.
  destruct (process_router_ports env conf h ri r ri' d Hr H)
    as ((l' & Hids & Hports) & Ha & Hrm).
  fold E C in Hids, Hports, Ha, Hrm.
  assert (HC : forall x, x ∈ C ->
            exists p, p ∈ Router._interfaces r /\ Port.id p = x).
  { intros x (p & [_ Hp]%list_elem_of_filter & Hid)%elem_of_port_ids. eauto. }
  split; [|split; [exact Ha|split; [exact Hrm|split; [|split]]]].
  - by eapply process_router_port_ids.
  - intros Hnd x. rewrite Ha, times_NoDup by by apply NoDup_fmap_filter.
    apply decide_ext. rewrite list_elem_of_fmap, elem_of_difference. split.
    + by intros (p & -> & [[? ?] _]%list_elem_of_filter).
    + intros [Hx HE]. destruct (HC x Hx) as (p & Hp & <-).
      exists p. split; [done|]. by apply list_elem_of_filter.
  - intros Hnd x. rewrite Hrm, times_NoDup by by apply NoDup_fmap_filter.
    apply decide_ext. rewrite list_elem_of_fmap, elem_of_difference. split.
    + intros (p & -> & [? Hp]%list_elem_of_filter). split; [|done].
      apply elem_of_port_ids. eauto.
    + intros [(p & Hp & <-)%elem_of_port_ids HnC].
      exists p. split; [done|]. by apply list_elem_of_filter.
  - intros Hnd q Hq Hdown. by apply admin_down_not_current.
Qed.

(** Unique port ids are an invariant: a descriptor with unique port ids
    leaves a RouterInfo with unique port ids. *)
Lemma process_router_ports_NoDup env conf h ri r ri' d :
  RouterInfo.router ri = Some r ->
  process_router env conf h ri = (Ok tt, ri', d) ->
  NoDup (Port.id <$> Router._interfaces r) ->
  NoDup (Port.id <$> RouterInfo.internal_ports ri) ->
  NoDup (Port.id <$> RouterInfo.internal_ports ri').
Proof.
  intros Hr H HD HE.
  destruct (process_router_ports env conf h ri r ri' d Hr H)
    as ((l' & Hids & ->) & _ & _).
  rewrite fmap_app, Hids. apply NoDup_app.
  split; [by apply NoDup_fmap_filter|split; [|by apply NoDup_fmap_filter]].
  intros x (p & -> & [_ Hp]%list_elem_of_filter)%list_elem_of_fmap.
  intros (p' & Hid & [[_ HnE] _]%list_elem_of_filter)%list_elem_of_fmap.
  apply HnE. rewrite <- Hid. apply elem_of_port_ids. eauto.
Qed.

(** ** process_router: the gateway *)

Lemma annotate_interface_gateway p p' ri :
  keeps gateways ri (annotate_interface p p' ri).
Proof.
  unfold keeps, gateways, annotate_interface. simpl.
  by destruct (RouterInfo.router ri).
Qed.

Section ProcessRouterGateway.

Context (env : Env) (conf : Conf).

Lemma new_ports_loop_gateway gw l :
  respects (keeps gateways) (silent gateway_call)
    (for_each l (new_port_body env conf gw)).
Proof.
  unfold new_port_body.
  frame_with ltac:(first [ apply _set_subnet_info_respects
                         | apply internal_network_added_respects
                         | apply annotate_interface_gateway ]).
Qed.

Lemma old_ports_loop_gateway gw l :
  respects (keeps gateways) (silent gateway_call)
    (for_each l (old_port_body env gw)).
Proof.
  unfold old_port_body.
  frame_with ltac:(apply internal_network_removed_respects).
Qed.

Lemma process_router_floating_ips_gateway gw :
  respects (keeps gateways) (silent gateway_call)
    (process_router_floating_ips env conf gw).
Proof. apply process_router_floating_ips_respects; frame_side. Qed.

Lemma mapM_port_ip_cidr_pure l :
  respects (S:=RouterInfo.t) eq (fun d => d = [])
    (mapM port_ip_cidr l).
Proof.
  induction l as [|p l IH]; simpl.
  - by intros h s r s' d [= <- <- <-].
  - intros h s r s' d H. unfold port_ip_cidr at 1 in H.
    destruct (Port.ip_cidr p); simpl in H.
    + rewrite bind_ret in H.
      apply bind_inv in H as [(ys & s1 & d1 & d2 & H1 & H2 & ->)|(e & H1 & _)].
      * apply IH in H1 as [<- ->]. by injection H2 as _ <- <-.
      * by apply IH in H1.
    + by injection H as _ <- <-.
Qed.

(** The gateway step when it returns. *)
Lemma gateway_step_ok gw cidrs h ri ex ri' d :
  gateway_step env conf gw cidrs h ri = (Ok ex, ri', d) ->
  match gw, RouterInfo.ex_gw_port ri with
  | Some g, None =>
      exists c, ex = Some (Port.set_ip_cidr c g)
        /\ ri' = annotate_gw_port (Port.set_ip_cidr c g) ri
        /\ external_gateway_added_calls d = [Port.id g]
        /\ external_gateway_removed_calls d = []
  | None, Some old =>
      ex = None /\ ri' = ri
      /\ external_gateway_added_calls d = []
      /\ external_gateway_removed_calls d = [Port.id old]
  | _, _ => ex = gw /\ ri' = ri /\ d = []
  end.
Proof.
  unfold gateway_step. rewrite bind_get.
  destruct gw as [g|], (RouterInfo.ex_gw_port ri) as [old|].
  - by intros [= <- <- <-].
  - intros H. apply bind_ok_inv in H as (g' & s1 & d1 & d2 & H1 & H & ->).
    apply _set_subnet_info_ok in H1 as (-> & Hd1 & c & ->).
    rewrite bind_modify in H.
    apply bind_ok_inv in H as ([] & s2 & d2' & d3 & H2 & H & ->).
    apply external_gateway_added_shape in H2 as (-> & d' & -> & Hd').
    injection H as <- <- <-. exists c. split; [done|split; [done|]].
    unfold external_gateway_added_calls, external_gateway_removed_calls.
    rewrite !omap_app. simpl.
    fold (external_gateway_added_calls d1) (external_gateway_added_calls d')
         (external_gateway_removed_calls d1)
         (external_gateway_removed_calls d').
    by rewrite !low_gateway_added_calls, !low_gateway_removed_calls.
  - intros H. apply bind_ok_inv in H as ([] & s2 & d2 & d3 & H2 & H & ->).
    apply external_gateway_removed_shape in H2 as (-> & d' & -> & Hd').
    injection H as <- <- <-. split; [done|split; [done|]].
    unfold external_gateway_added_calls, external_gateway_removed_calls.
    rewrite !omap_app. simpl.
    fold (external_gateway_added_calls d') (external_gateway_removed_calls d').
    by rewrite !low_gateway_added_calls, !low_gateway_removed_calls.
  - by intros [= <- <- <-].
Qed.

Lemma gateway_step_quiet gw cidrs h ri :
  (is_Some gw <-> is_Some (RouterInfo.ex_gw_port ri)) ->
  gateway_step env conf gw cidrs h ri = (Ok gw, ri, []).
Proof.
  unfold gateway_step. rewrite bind_get.
  destruct gw as [g|], (RouterInfo.ex_gw_port ri) as [old|];
    intros [H1 H2]; try done.
  - by destruct H1 as [? [=]].
  - by destruct H2 as [? [=]].
Qed.

Lemma silent_app {X} (f : event -> option X) d1 d2 :
  silent f d1 -> silent f d2 -> silent f (d1 ++ d2).
Proof. unfold silent. intros H1 H2. by rewrite omap_app, H1, H2. Qed.

Lemma process_router_last_steps_gateway (old ex : option Port.t) :
  respects (keeps (fun _ : RouterInfo.t => tt)) (silent gateway_call)
    ((if bool_decide (is_Some old ∨ is_Some ex)
      then process_router_floating_ips env conf ex
      else ret tt) ;;
     modify (RouterInfo.set_ex_gw_port ex)).
Proof.
  frame_with ltac:(apply process_router_floating_ips_respects).
Qed.

(** A reconciliation that finds the gateway as the descriptor has it
    enters neither gateway hook, whatever else happens. *)
Lemma process_router_gateway_quiet h ri r res ri' d :
  RouterInfo.router ri = Some r ->
  (is_Some (Router.gw_port r) <-> is_Some (RouterInfo.ex_gw_port ri)) ->
  process_router env conf h ri = (res, ri', d) ->
  external_gateway_added_calls d = []
  /\ external_gateway_removed_calls d = [].
Proof.
  intros Hr Hgw H. apply silent_gateway_call.
  unfold process_router in H.
  rewrite bind_get, Hr in H. cbn [of_option] in H. rewrite bind_ret in H.
  cbv zeta in H.
  apply bind_inv in H as [([] & s1 & d1 & d2 & H1 & H & ->)|(e & H1 & _)];
    [|by apply new_ports_loop_gateway in H1 as [_ ?]].
  apply new_ports_loop_gateway in H1 as [K1 S1]. apply silent_app; [done|].
  apply bind_inv in H as [([] & s2 & d2' & d3 & H2 & H & ->)|(e & H2 & _)];
    [|by apply old_ports_loop_gateway in H2 as [_ ?]].
  apply old_ports_loop_gateway in H2 as [K2 S2]. apply silent_app; [done|].
  rewrite bind_get in H.
  apply bind_inv in H as [(cidrs & s3 & d4 & d5 & H3 & H & ->)|(e & H3 & _)];
    [|by apply mapM_port_ip_cidr_pure in H3 as [_ ->]].
  apply mapM_port_ip_cidr_pure in H3 as [<- ->]. simpl.
  assert (Hex : RouterInfo.ex_gw_port s2 = RouterInfo.ex_gw_port ri).
  { unfold keeps, gateways in K1, K2. congruence. }
  rewrite (bind_ok _ _ _ _ _ _ _
             (gateway_step_quiet (Router.gw_port r) cidrs _ s2
                ltac:(by rewrite Hex))) in H.
  destruct (bind _ _ _ s2) as [[r5 s5] d5'] eqn:H5 in H.
  injection H as _ _ <-.
  by apply process_router_last_steps_gateway in H5 as [_ ?].
Qed.

End ProcessRouterGateway.

(** C5.  Gateway transition.  In a reconciliation that returns:
    external_gateway_added is invoked exactly once if the descriptor has a
    gateway port and the RouterInfo had none, and otherwise not;
    external_gateway_removed is invoked exactly once, for the old port, if
    the RouterInfo had a gateway port and the descriptor has none, and
    otherwise not; afterwards the RouterInfo holds the descriptor's gateway
    port (the very dict of the stored descriptor, which is the port
    received, with its ip_cidr filled in when the gateway was added); and
    reconciling the same descriptor again enters neither gateway hook. *)
Theorem gateway_transition env conf h ri r ri' d :
  RouterInfo.router ri = Some r ->
  process_router env conf h ri = (Ok tt, ri', d) ->
  external_gateway_added_calls d
    = match Router.gw_port r, RouterInfo.ex_gw_port ri with
      | Some gw, None => [Port.id gw]
      | _, _ => []
      end
  /\ external_gateway_removed_calls d
     = match Router.gw_port r, RouterInfo.ex_gw_port ri with
       | None, Some old => [Port.id old]
       | _, _ => []
       end
  /\ RouterInfo.ex_gw_port ri' = RouterInfo.router ri' ≫= Router.gw_port
  /\ (RouterInfo.ex_gw_port ri' = Router.gw_port r
      \/ exists gw c, Router.gw_port r = Some gw
           /\ RouterInfo.ex_gw_port ri' = Some (Port.set_ip_cidr c gw))
  /\ forall h2 res ri2 d2,
       process_router env conf h2 (RouterInfo.set_router (Some r) ri')
         = (res, ri2, d2) ->
       external_gateway_added_calls d2 = []
       /\ external_gateway_removed_calls d2 = [].
Proof.
  intros Hr H. unfold process_router in H.
  rewrite bind_get, Hr in H. cbn [of_option] in H. rewrite bind_ret in H.
  cbv zeta in H.
  apply bind_ok_inv in H as ([] & s1 & d1 & d2 & H1 & H & ->).
  apply (new_ports_loop_gateway env conf) in H1 as [K1 [A1 R1]%silent_gateway_call].
  apply bind_ok_inv in H as ([] & s2 & d2' & d3 & H2 & H & ->).
  apply (old_ports_loop_gateway env) in H2 as [K2 [A2 R2]%silent_gateway_call].
  rewrite bind_get in H.
  apply bind_ok_inv in H as (cidrs & s3 & d4 & d5 & H3 & H & ->).
  apply mapM_port_ip_cidr_pure in H3 as [<- ->].
  apply bind_ok_inv in H as (ex & s4 & d6 & d7 & H4 & H & ->).
  apply gateway_step_ok in H4.
  apply bind_ok_inv in H as ([] & s5 & d8 & d9 & H5 & H & ->).
  injection H as <- <-.
  assert (K5 : keeps gateways s4 s5 /\ silent gateway_call d8).
  { destruct (bool_decide _) in H5.
    - by apply process_router_floating_ips_gateway in H5.
    - by injection H5 as <- <-. }
  destruct K5 as [K5 [A5 R5]%silent_gateway_call].
  assert (K : gateways s2 = (RouterInfo.ex_gw_port ri, Router.gw_port r)).
  { unfold keeps in K1, K2. rewrite K2, K1. unfold gateways. by rewrite Hr. }
  unfold keeps, gateways in K5, K. injection K5 as _ K5. injection K as Kex Kr.
  unfold external_gateway_added_calls, external_gateway_removed_calls in *.
  rewrite !omap_app, A1, A2, A5, R1, R2, R5, !app_nil_r. simpl.
  rewrite Kex in H4.
  assert (Hbase :
    RouterInfo.ex_gw_port (RouterInfo.set_ex_gw_port ex s5)
      = RouterInfo.router (RouterInfo.set_ex_gw_port ex s5) ≫= Router.gw_port
    /\ (ex = Router.gw_port r
        \/ exists gw c, Router.gw_port r = Some gw
             /\ ex = Some (Port.set_ip_cidr c gw))
    /\ omap added_gateway d6
       = match Router.gw_port r, RouterInfo.ex_gw_port ri with
         | Some gw, None => [Port.id gw]
         | _, _ => []
         end
    /\ omap removed_gateway d6
       = match Router.gw_port r, RouterInfo.ex_gw_port ri with
         | None, Some old => [Port.id old]
         | _, _ => []
         end).
  { simpl. rewrite K5.
    destruct (Router.gw_port r) as [g|] eqn:Hg,
             (RouterInfo.ex_gw_port ri) as [old|] eqn:Hold.
    - destruct H4 as (-> & -> & ->). rewrite Kr. eauto.
    - destruct H4 as (c & -> & -> & -> & ->).
      split; [|split; [right; by exists g, c|done]].
      unfold annotate_gw_port. simpl.
      by destruct (RouterInfo.router s2).
    - destruct H4 as (-> & -> & -> & ->). rewrite Kr. eauto.
    - destruct H4 as (-> & -> & ->). rewrite Kr. eauto. }
  destruct Hbase as (Hb1 & Hb2 & -> & ->).
  split; [done|split; [done|split; [done|split; [done|]]]].
  intros h2 res ri2 d2 H2.
  eapply process_router_gateway_quiet in H2; [done|done|].
  simpl. destruct Hb2 as [->|(gw & c & -> & ->)]; [done|].
  split; eauto.
Qed.

(** ** The agent: batches of routers *)

Lemma for_each_app {S A} (l1 l2 : list A) (body : A -> M S unit) h s :
  for_each (l1 ++ l2) body h s
  = bind (for_each l1 body) (fun _ => for_each l2 body) h s.
Proof.
  revert h s. induction l1 as [|x l1 IH]; intros h s; simpl.
  - by rewrite bind_ret.
  - rewrite bind_assoc.
    destruct (body x h s) as [[[[]|e] s1] d1] eqn:Hx.
    + rewrite !(bind_ok _ _ _ _ _ _ _ Hx). by rewrite IH.
    + by rewrite !(bind_raise _ _ _ _ _ _ _ Hx).
Qed.

#[global] Instance touches_only_preorder key : PreOrder (touches_only key).
Proof.
  split.
  - by intros a.
  - intros a b c (F1 & O1 & S1) (F2 & O2 & S2). split; [congruence|split].
    + intros k Hk. by rewrite O2, O1.
    + intros k Hk. by apply S2, S1.
Qed.

Lemma touches_only_insert key ri a :
  touches_only key a (set_router_info (<[key := ri]> (router_info a)) a).
Proof.
  split; [done|split]; simpl.
  - intros k Hk. by rewrite lookup_insert_ne.
  - intros k Hk. destruct (decide (key = k)) as [->|Hne].
    + rewrite lookup_insert_eq. eauto.
    + by rewrite lookup_insert_ne.
Qed.

Lemma respects_with_router {A} (R : Agent -> Agent -> Prop)
    (D : list event -> Prop) `{!Framing R D} key (m : M RouterInfo.t A) :
  (forall a ri, R a (set_router_info (<[key := ri]> (router_info a)) a)) ->
  respects (keeps (fun _ => tt)) D m ->
  respects R D (with_router key m).
Proof.
  intros HR Hm h a r a' d. unfold with_router.
  destruct (router_info a !! key) as [ri|].
  - destruct (m h ri) as [[r1 ri'] d1] eqn:H1. intros [= <- <- <-].
    apply Hm in H1 as [_ ?]. split; [apply HR|done].
  - intros [= <- <- <-]. split; [apply framing_refl|apply framing_nil].
Qed.

Section Batches.

Context (env : Env) (conf : Conf).

Lemma _router_added_touches_only key router :
  respects (touches_only key) (fun _ => True)
    (_router_added env conf key router).
Proof.
  unfold _router_added.
  frame_with ltac:(apply touches_only_insert).
Qed.

Lemma _process_routers_body_touches_only target r :
  respects (touches_only (Router.id r)) (fun _ => True)
    (_process_routers_body env conf target r).
Proof.
  unfold _process_routers_body.
  repeat first
    [ apply _router_added_touches_only
    | apply respects_with_router;
        [tc_solve|intros; apply touches_only_insert|by intros ? ? ? ? ? _]
    | frame_step ].
Qed.

(** A descriptor that is admin-down is skipped. *)
Lemma _process_routers_body_admin_down target r h a :
  Router.admin_state_up r = false ->
  _process_routers_body env conf target r h a = (Ok tt, a, []).
Proof. intros Hdown. unfold _process_routers_body. by rewrite Hdown. Qed.

(** A loop over descriptors leaves alone every registry key for which
    the batch has only admin-down descriptors. *)
Lemma for_each_router_lookup target routers h a res a' d k :
  for_each routers (_process_routers_body env conf target) h a
    = (res, a', d) ->
  (forall r, r ∈ routers -> Router.id r = k ->
             Router.admin_state_up r = false) ->
  router_info a' !! k = router_info a !! k.
Proof.
  revert h a d. induction routers as [|r routers IH]; intros h a d; simpl.
  - by intros [= _ <- _].
  - intros H Hk.
    assert (Hr : forall h0 a0 r0 a1 d1,
               _process_routers_body env conf target r h0 a0 = (r0, a1, d1) ->
               router_info a1 !! k = router_info a0 !! k).
    { intros h0 a0 r0 a1 d1 H0. destruct (decide (Router.id r = k)) as [Hid|Hid].
      - rewrite _process_routers_body_admin_down in H0
          by (apply Hk; [apply elem_of_cons; by left|done]).
        by injection H0 as _ <- _.
      - apply _process_routers_body_touches_only in H0 as [(_ & Ho & _) _].
        by apply Ho. }
    apply bind_inv in H as [([] & s1 & d1 & d2 & H1 & H2 & ->)|(e & H1 & _)].
    + apply Hr in H1. apply IH in H2.
      * congruence.
      * intros r0 Hr0. apply Hk, elem_of_cons. by right.
    + by apply Hr in H1.
Qed.

(** A loop over descriptors never drops a registry entry nor touches the
    flag. *)
Lemma for_each_router_monotone target routers h a res a' d :
  for_each routers (_process_routers_body env conf target) h a
    = (res, a', d) ->
  fullsync a' = fullsync a
  /\ forall k, is_Some (router_info a !! k) -> is_Some (router_info a' !! k).
Proof.
  revert h a d. induction routers as [|r routers IH]; intros h a d; simpl.
  - by intros [= _ <- _].
  - intros H.
    apply bind_inv in H as [([] & s1 & d1 & d2 & H1 & H2 & ->)|(e & H1 & _)].
    + apply _process_routers_body_touches_only in H1 as [(F1 & _ & S1) _].
      apply IH in H2 as [F2 S2]. split; [congruence|]. intros k Hk. by apply S2, S1.
    + by apply _process_routers_body_touches_only in H1 as [(F1 & _ & S1) _].
Qed.

End Batches.

Section RoutersUpdated.

Context (env : Env) (conf : Conf).

Lemma _process_routers_raise_app l1 l2 h a e a2 d :
  _process_routers env conf l1 h a = (Raise e, a2, d) ->
  _process_routers env conf (l1 ++ l2) h a = (Raise e, a2, d).
Proof.
  unfold _process_routers. intros H.
  apply bind_inv in H as [(bm & s0 & d0 & d1 & H0 & H & ->)|(e' & H0 & [= <-])];
    [|by rewrite (bind_raise _ _ _ _ _ _ _ H0)].
  rewrite (bind_ok _ _ _ _ _ _ _ H0). destruct bm; [done|].
  apply bind_inv in H as [(t & s1 & d2 & d3 & H1 & H & ->)|(e' & H1 & [= <-])];
    [|by rewrite (bind_raise _ _ _ _ _ _ _ H1)].
  rewrite (bind_ok _ _ _ _ _ _ _ H1).
  by rewrite for_each_app, (bind_raise _ _ _ _ _ _ _ H).
Qed.

Lemma routers_updated_cons r routers h a :
  routers_updated env conf (r :: routers) h a
  = with_sync_sem
      (try_except (_process_routers env conf (r :: routers))
         (fun _ =>
            emit (Log "debug"
                      "Failed dealing with routers update RPC message"
                      None) ;;
            modify (set_fullsync true))) h a.
Proof. done. Qed.

(** The batch cut before [r] went through and the batch cut after [r]
    raised: the run on the longer batch is the run on the shorter one
    followed by the failing work on [r]. *)
Lemma _process_routers_last pre r h a a1 d1 e a2 d :
  _process_routers env conf pre h a = (Ok tt, a1, d1) ->
  _process_routers env conf (pre ++ [r]) h a = (Raise e, a2, d) ->
  exists target d2,
    _process_routers_body env conf target r (h ++ d1) a1 = (Raise e, a2, d2)
    /\ d = d1 ++ d2.
Proof.
  unfold _process_routers. intros Hpre H.
  apply bind_ok_inv in Hpre as (bm & s0 & d0 & d1' & H0 & Hpre & ->).
  rewrite (bind_ok _ _ _ _ _ _ _ H0) in H.
  destruct bm.
  { destruct (emit _ _ _) as [[r0 s] d'] eqn:He in H.
    injection He as <- _ _. by injection H. }
  apply bind_ok_inv in Hpre as (t & s1 & d2 & d3 & H1 & Hpre & ->).
  rewrite (bind_ok _ _ _ _ _ _ _ H1) in H.
  rewrite for_each_app, (bind_ok _ _ _ _ _ _ _ Hpre) in H. simpl in H.
  destruct (bind _ _ _ a1) as [[r2 s2] d4] eqn:Hr in H.
  injection H as -> -> <-.
  apply bind_inv in Hr as [([] & s3 & d5 & d6 & _ & [=] & _)|(e' & Hr & [= <-])].
  exists t, d4. rewrite <- !app_assoc in Hr. split; [done|].
  by rewrite !app_assoc.
Qed.

End RoutersUpdated.

(** C6.  A router in the batch raises: the routers before it were
    reconciled (the batch cut before [r] returns) and the work on [r]
    raises (the batch cut after [r] raises).  Then routers_updated itself
    returns, with the full-sync flag set; the routers after [r] play no
    part in the outcome, the trace ends with the failing work (then the log
    line and the release), so nothing is undone; every registry entry that
    was there after the earlier routers is still there, and those of other
    routers than [r] are as they were. *)
Theorem routers_updated_exception env conf h a pre r post e a1 d1 a2 d :
  _process_routers env conf pre (h ++ [SemAcquire]) a = (Ok tt, a1, d1) ->
  _process_routers env conf (pre ++ [r]) (h ++ [SemAcquire]) a
    = (Raise e, a2, d) ->
  routers_updated env conf (pre ++ r :: post) h a
    = (Ok tt, set_fullsync true a2,
       SemAcquire :: d
         ++ [Log "debug" "Failed dealing with routers update RPC message" None;
             SemRelease])
  /\ fullsync (set_fullsync true a2) = true
  /\ d1 `prefix_of` d
  /\ (forall k, is_Some (router_info a1 !! k) ->
                is_Some (router_info (set_fullsync true a2) !! k))
  /\ (forall k, k <> Router.id r ->
                router_info (set_fullsync true a2) !! k = router_info a1 !! k).
Proof.
  intros Hpre H.
  destruct (_process_routers_last env conf pre r _ a a1 d1 e a2 d Hpre H)
    as (target & d2 & Hbody & ->).
  apply _process_routers_body_touches_only in Hbody as [(_ & Ho & Hs) _].
  split; [|split; [done|split; [by exists d2|split; [exact Hs|exact Ho]]]].
  apply (_process_routers_raise_app env conf _ post) in H.
  rewrite <- app_assoc in H. simpl in H.
  destruct (pre ++ r :: post) as [|r0 routers] eqn:Hl;
    [by destruct pre|].
  rewrite routers_updated_cons. unfold with_sync_sem, try_except.
  rewrite H. simpl. by rewrite <- app_assoc.
Qed.

(** ** Calls whose outcome is known *)

Lemma bind_query_ok {S A B} env ev (answer : list event -> A)
    (k : A -> M S B) h s :
  raises env h ev = None ->
  bind (query env ev answer) k h s
  = (let '(r, s2, d2) := k (answer h) (h ++ [ev]) s in (r, s2, ev :: d2)).
Proof.
  intros H. unfold bind, query. rewrite H.
  by destruct (k (answer h) (h ++ [ev]) s) as [[? ?] ?].
Qed.

Lemma bind_query_raise {S A B} env ev (answer : list event -> A)
    (k : A -> M S B) h s e :
  raises env h ev = Some e ->
  bind (query env ev answer) k h s = (Raise e, s, [ev]).
Proof. intros H. unfold bind, query. by rewrite H. Qed.

(** C10.  An empty batch: routers_updated returns at once; the agent
    (registry and flag) is as it was and the trace gets no event, so the
    semaphore is not acquired, no external network id is looked up and
    nothing is asked of the host. *)
Theorem routers_updated_empty env conf h a :
  routers_updated env conf [] h a = (Ok tt, a, []).
Proof. reflexivity. Qed.

Section ExternalNetwork.

Context (env : Env) (conf : Conf).

Context (no_static_id : gateway_external_network_id conf = "")
        (too_many : forall h,
            raises env h (Rpc_get_external_network_id (host conf))
            = Some (RemoteError "TooManyExternalNetworks")).

Lemma _fetch_external_net_id_too_many h a :
  _fetch_external_net_id env conf h a
  = (Raise (Exception_ too_many_msg), a,
     [Rpc_get_external_network_id (host conf)]).
Proof.
  unfold _fetch_external_net_id. rewrite no_static_id. simpl.
  unfold try_except, get_external_network_id, query. by rewrite too_many.
Qed.

Context (bridge_ok : forall h,
            raises env h (DeviceExists (external_network_bridge conf) None)
            = None)
        (bridge_present : forall h,
            env_device_exists env h (external_network_bridge conf) None
            = true).

Lemma _process_routers_too_many routers h a :
  _process_routers env conf routers h a
  = (Raise (Exception_ too_many_msg), a,
     (if str_truthy (external_network_bridge conf)
      then [DeviceExists (external_network_bridge conf) None] else [])
     ++ [Rpc_get_external_network_id (host conf)]).
Proof.
  unfold _process_routers. destruct (str_truthy _).
  - rewrite bind_assoc, bind_query_ok by apply bridge_ok.
    rewrite bind_ret, bridge_present. simpl.
    by rewrite (bind_raise _ _ _ _ _ _ _ (_fetch_external_net_id_too_many _ _)).
  - rewrite bind_ret.
    by rewrite (bind_raise _ _ _ _ _ _ _ (_fetch_external_net_id_too_many _ _)).
Qed.

End ExternalNetwork.

(** C8.  No static gateway_external_network_id, and the plugin answers
    get_external_network_id with TooManyExternalNetworks.  Then
    _fetch_external_net_id raises the exception that tells the operator to
    configure the id, after that one call.  When the periodic task runs
    (flag set, routers fetched, bridge found), it makes the call once, logs
    that exception and returns with the flag still set. *)
Theorem ambiguous_external_network env conf h a :
  gateway_external_network_id conf = "" ->
  (forall h', raises env h' (Rpc_get_external_network_id (host conf))
              = Some (RemoteError "TooManyExternalNetworks")) ->
  fullsync a = true ->
  (forall h' arg, raises env h' (Rpc_sync_routers (host conf) arg None)
                  = None) ->
  (forall h', raises env h' (DeviceExists (external_network_bridge conf) None)
              = None) ->
  (forall h', env_device_exists env h' (external_network_bridge conf) None
              = true) ->
  _fetch_external_net_id env conf h a
    = (Raise (Exception_ too_many_msg), a,
       [Rpc_get_external_network_id (host conf)])
  /\ _sync_routers_task env conf h a
     = (Ok tt, set_fullsync true (set_router_info ∅ a),
        SemAcquire
        :: Rpc_sync_routers (host conf)
             (if negb (use_namespaces conf) then ArgStr (router_id conf)
              else ArgNone) None
        :: (if str_truthy (external_network_bridge conf)
            then [DeviceExists (external_network_bridge conf) None]
            else [])
        ++ [Rpc_get_external_network_id (host conf);
            Log "exception" "Failed synchronizing routers"
                (Some (Exception_ too_many_msg));
            SemRelease])
  /\ fullsync (set_fullsync true (set_router_info ∅ a)) = true.
Proof.
  intros Hid Htoo Hflag Hsync Hbridge Hpresent.
  split; [by apply _fetch_external_net_id_too_many|split; [|done]].
  unfold _sync_routers_task, with_sync_sem.
  rewrite bind_get, Hflag. unfold try_except, get_routers.
  rewrite bind_query_ok by apply Hsync. rewrite bind_modify.
  rewrite (bind_raise _ _ _ _ _ _ _
             (_process_routers_too_many env conf Hid Htoo Hbridge Hpresent
                _ _ _)).
  simpl. by rewrite <- !app_assoc.
Qed.

(** ** Routers that are admin-down *)

Section AdminDown.

Context (env : Env) (conf : Conf).

Lemma _fetch_external_net_id_frame :
  respects eq (fun _ => True) (_fetch_external_net_id env conf).
Proof. unfold _fetch_external_net_id. frame_auto. Qed.

(** A batch leaves alone every registry key for which it has only
    admin-down descriptors, and it never touches the flag. *)
Lemma _process_routers_lookup routers h a res a' d k :
  _process_routers env conf routers h a = (res, a', d) ->
  (forall r, r ∈ routers -> Router.id r = k ->
             Router.admin_state_up r = false) ->
  router_info a' !! k = router_info a !! k.
Proof.
  unfold _process_routers. intros H Hk.
  apply bind_inv in H as [(bm & s0 & d0 & d1 & H0 & H & ->)|(e & H0 & _)].
  - assert (s0 = a) as ->.
    { destruct (str_truthy _) in H0; [|by injection H0].
      apply bind_inv in H0
        as [(p & s1 & d2 & d3 & H1 & H2 & ->)|(e & H1 & _)].
      - unfold query in H1. destruct (raises env h _) in H1; [done|].
        injection H1 as _ <- _. by injection H2.
      - unfold query in H1. destruct (raises env h _) in H1; by injection H1. }
    destruct bm; [by injection H as _ <- _|].
    apply bind_inv in H as [(t & s1 & d2 & d3 & H1 & H & ->)|(e & H1 & _)].
    + apply _fetch_external_net_id_frame in H1 as [<- _].
      by eapply for_each_router_lookup.
    + by apply _fetch_external_net_id_frame in H1 as [<- _].
  - destruct (str_truthy _) in H0; [|done].
    apply bind_inv in H0 as [(p & s1 & d2 & d3 & _ & [=] & _)|(e' & H1 & _)].
    unfold query in H1.
    destruct (raises env h _) in H1; [by injection H1 as _ <- _|done].
Qed.

End AdminDown.

(** C9, as the code has it.  A periodic full sync that runs (flag set) and
    gets the routers from the plugin leaves no router in the registry
    whose descriptor is admin-down, given that router ids are unique in what
    the plugin sent.  routers_updated skips an admin-down descriptor: the
    registry entry under its id is what it was before, present or not. *)
Theorem admin_down_router_skipped env conf h a :
  (forall res a' d,
      fullsync a = true ->
      raises env (h ++ [SemAcquire])
             (Rpc_sync_routers (host conf)
                (if negb (use_namespaces conf) then ArgStr (router_id conf)
                 else ArgNone) None) = None ->
      _sync_routers_task env conf h a = (res, a', d) ->
      NoDup (Router.id <$> env_sync_routers env (h ++ [SemAcquire])) ->
      forall r, r ∈ env_sync_routers env (h ++ [SemAcquire]) ->
                Router.admin_state_up r = false ->
                router_info a' !! Router.id r = None)
  /\ (forall routers res a' d,
      routers_updated env conf routers h a = (res, a', d) ->
      NoDup (Router.id <$> routers) ->
      forall r, r ∈ routers -> Router.admin_state_up r = false ->
                router_info a' !! Router.id r = router_info a !! Router.id r).
Proof.
  split.
  - intros res a' d Hflag Hfetch H Hnd r Hr Hdown.
    unfold _sync_routers_task, with_sync_sem in H.
    rewrite bind_get, Hflag in H. unfold try_except, get_routers in H.
    rewrite bind_query_ok, bind_modify in H by exact Hfetch.
    destruct (bind (_process_routers _ _ _) _ _ _) as [[r1 a1] d1] eqn:H1 in H.
    assert (Hreg : router_info a1 !! Router.id r = None).
    { apply bind_inv in H1
        as [([] & s2 & d2 & d3 & H2 & [= _ <- _] & _)|(e & H2 & _)].
      - eapply _process_routers_lookup in H2; [by rewrite H2|].
        intros r' Hr' Hid.
        by rewrite (NoDup_fmap_eq Router.id _ r' r Hnd Hr' Hr Hid).
      - eapply _process_routers_lookup in H2; [by rewrite H2|].
        intros r' Hr' Hid.
        by rewrite (NoDup_fmap_eq Router.id _ r' r Hnd Hr' Hr Hid). }
    destruct r1; simpl in H; by injection H as _ <- _.
  - intros routers res a' d H Hnd r Hr Hdown.
    destruct routers as [|r0 routers]; [by injection H as _ <- _|].
    rewrite routers_updated_cons in H. unfold with_sync_sem, try_except in H.
    destruct (_process_routers _ _ _ _ _) as [[r1 a1] d1] eqn:H1 in H.
    eapply _process_routers_lookup in H1.
    + destruct r1; simpl in H; injection H as _ <- _; exact H1.
    + intros r' Hr' Hid.
      by rewrite (NoDup_fmap_eq Router.id _ r' r Hnd Hr' Hr Hid).
Qed.

(** * The floating-IP reconciler on concrete routers

    The second loop of process_router_floating_ips removes from the list
    it iterates over.  After a removal the element that followed the
    removed one sits at the index the iterator has already passed, so it is
    never visited. *)

(** C4.  Router "r1" holds the floating IPs f1 and f2; a descriptor without
    floating IPs arrives.  Both are absent from the descriptor, yet only f1
    is unbound: f2 stays in the RouterInfo and floating_ip_removed is never
    invoked for it.  And when the descriptor keeps f1's id without a port,
    the lookup in id_to_fip_map raises KeyError: f1 stays and nothing is
    unbound. *)
Theorem floating_ips_removed_together_skip_one :
  (let st := Scenario.deliver Scenario.env Scenario.conf
               [[Scenario.two_fips]] in
   let run := routers_updated Scenario.env Scenario.conf
                [Scenario.no_fips] (snd st) (fst st) in
   Scenario.floating_ips_of_r1 (fst st)
     = Some [Scenario.f1 "10.0.1.5"; Scenario.f2 "10.0.1.6"]
   /\ fst (fst run) = Ok tt
   /\ Scenario.floating_ips_of_r1 (snd (fst run))
      = Some [Scenario.f2 "10.0.1.6"]
   /\ floating_ip_removed_calls (snd run)
      = [("203.0.113.10", Some "10.0.1.5")])
  /\ (let st := Scenario.deliver Scenario.env Scenario.conf
                  [[Scenario.one_fip]] in
      let run := _process_routers Scenario.env Scenario.conf
                   [Scenario.fip_lost_port] (snd st) (fst st) in
      fst (fst run) = Raise (KeyError "f1")
      /\ Scenario.floating_ips_of_r1 (snd (fst run))
         = Some [Scenario.f1 "10.0.1.5"]
      /\ floating_ip_removed_calls (snd run) = []).
Proof. vm_compute. repeat split; reflexivity. Qed.

(** C3.  Router "r1" holds f1 and f2, f2 bound to 10.0.1.6; the descriptor
    drops f1 and binds f2 to 10.0.1.7.  f1 is removed, and the iterator
    then skips f2: neither floating_ip_removed nor floating_ip_added is
    invoked for f2, and the RouterInfo still maps f2 to 10.0.1.6. *)
Theorem floating_ip_remap_skipped_after_removal :
  let st := Scenario.deliver Scenario.env Scenario.conf
              [[Scenario.two_fips]] in
  let run := routers_updated Scenario.env Scenario.conf
               [Scenario.f2_moved] (snd st) (fst st) in
  fst (fst run) = Ok tt
  /\ floating_ip_removed_calls (snd run) = [("203.0.113.10", Some "10.0.1.5")]
  /\ floating_ip_added_calls (snd run) = []
  /\ Scenario.floating_ips_of_r1 (snd (fst run))
     = Some [Scenario.f2 "10.0.1.6"].
Proof. vm_compute. repeat split; reflexivity. Qed.

(** C2.  Router "r1" holds f1 and f2; the batch [no_fips] is delivered
    twice.  The first delivery unbinds f1 only; the second delivery of the
    very same batch unbinds f2: it deletes an address, removes three rules,
    applies, and changes the registry. *)
Theorem routers_updated_replay_not_idempotent :
  let st1 := Scenario.deliver Scenario.env Scenario.conf
               [[Scenario.two_fips]; [Scenario.no_fips]] in
  let run := routers_updated Scenario.env Scenario.conf
               [Scenario.no_fips] (snd st1) (fst st1) in
  filter (fun e => changes_host e = true) (snd run)
  = [AddrDelete "qg-g1" (Some "qrouter-r1") 4 "203.0.113.11/32";
     RemoveRule "r1" "nat" "PREROUTING" "-d 203.0.113.11 -j DNAT --to 10.0.1.6";
     RemoveRule "r1" "nat" "OUTPUT" "-d 203.0.113.11 -j DNAT --to 10.0.1.6";
     RemoveRule "r1" "nat" "float-snat" "-s 10.0.1.6 -j SNAT --to 203.0.113.11";
     Apply "r1"]
  /\ Scenario.floating_ips_of_r1 (fst st1) = Some [Scenario.f2 "10.0.1.6"]
  /\ Scenario.floating_ips_of_r1 (snd (fst run)) = Some []
  /\ router_info (snd (fst run)) <> router_info (fst st1).
Proof.
  vm_compute. split; [reflexivity|split; [reflexivity|split; [reflexivity|]]].
  intros [=].
Qed.

(** C7.  Without namespaces and configured for router "r1", the periodic
    task asks the plugin for routers with the router id in the fullsync
    slot of the message and no router_ids: the fetch is not scoped. *)
Theorem sync_routers_task_fetch_unscoped :
  _sync_routers_task Scenario.env Scenario.conf_single [] initial_agent
  = (Ok tt, set_fullsync false initial_agent,
     [SemAcquire;
      Rpc_sync_routers "host1" (ArgStr "r1") None;
      DeviceExists "br-ex" None;
      Rpc_get_external_network_id "host1";
      SemRelease]).
Proof. vm_compute. reflexivity. Qed.

(** Whatever the configuration, the periodic task never sends router_ids,
    and never sends True as fullsync. *)
Lemma sync_routers_task_message env conf h a res a' d :
  fullsync a = true ->
  _sync_routers_task env conf h a = (res, a', d) ->
  exists d',
    d = SemAcquire
        :: Rpc_sync_routers (host conf)
             (if negb (use_namespaces conf) then ArgStr (router_id conf)
              else ArgNone) None
        :: d'.
Proof.
  intros Hflag. unfold _sync_routers_task, with_sync_sem.
  rewrite bind_get, Hflag. unfold try_except, get_routers.
  destruct (bind (query _ _ _) _ _ _) as [[r1 a1] d1] eqn:H1.
  assert (exists d', d1 = Rpc_sync_routers (host conf)
             (if negb (use_namespaces conf) then ArgStr (router_id conf)
              else ArgNone) None :: d') as [d' ->].
  { apply bind_inv in H1
      as [(x & s1 & d2 & d3 & Hq & _ & ->)|(e & Hq & _)];
      unfold query in Hq; destruct (raises env _ _) in Hq;
      injection Hq as _ _ <-; by eexists. }
  destruct r1.
  - intros [= _ _ <-]. by eexists.
  - simpl. intros [= _ _ <-]. by eexists.
Qed.

(** C9 as stated fails: router "r1" is in the registry, a batch with its
    descriptor admin-down arrives, and "r1" is still in the registry. *)
Lemma admin_down_router_stays_registered :
  ~ (forall env conf routers h a res a' d r,
        routers_updated env conf routers h a = (res, a', d) ->
        r ∈ routers -> Router.admin_state_up r = false ->
        router_info a' !! Router.id r = None).
Proof.
  intros H.
  pose (st := Scenario.deliver Scenario.env Scenario.conf
                [[Scenario.r1 true [] []]]).
  pose (run := routers_updated Scenario.env Scenario.conf
                 [Scenario.r1 false [] []] (snd st) (fst st)).
  specialize (H Scenario.env Scenario.conf [Scenario.r1 false [] []]
                (snd st) (fst st) (fst (fst run)) (snd (fst run)) (snd run)
                (Scenario.r1 false [] [])).
  assert (E : routers_updated Scenario.env Scenario.conf
                [Scenario.r1 false [] []] (snd st) (fst st)
              = (fst (fst run), snd (fst run), snd run)).
  { fold run. by destruct run as [[? ?] ?]. }
  specialize (H E ltac:(apply list_elem_of_here) eq_refl).
  vm_compute in H. discriminate H.
Qed.

(** * The second loop of the floating-IP reconciler always ends by
    itself *)

Section Fuel.

Context (env : Env) (conf : Conf).

Lemma remove_floating_ip_length fip h ri r ri' d :
  remove_floating_ip fip h ri = (r, ri', d) ->
  (r = Ok tt
   /\ length (RouterInfo.floating_ips ri)
      = S (length (RouterInfo.floating_ips ri')))
  \/ (r = Raise ValueError /\ ri' = ri).
Proof.
  unfold remove_floating_ip. rewrite bind_get.
  destruct (list_remove fip (RouterInfo.floating_ips ri)) as [l|] eqn:Hl;
    simpl.
  - rewrite bind_ret. intros [= <- <- _]. left. split; [done|].
    by apply list_remove_length in Hl.
  - intros [= <- <- _]. by right.
Qed.

(** One round of the loop never makes the list longer. *)
Lemma floating_ips_second_body_length to_remove m fip h ri r ri' d :
  floating_ips_second_body env conf to_remove m fip h ri = (r, ri', d) ->
  length (RouterInfo.floating_ips ri') <= length (RouterInfo.floating_ips ri).
Proof.
  unfold floating_ips_second_body. rewrite bind_get.
  destruct (bool_decide _).
  - intros H.
    apply bind_inv in H as [([] & s1 & d1 & d2 & H1 & H & ->)|(e & H1 & _)].
    + apply remove_floating_ip_length in H1 as [[_ Hlen]|[[=] _]].
      apply floating_ip_removed_shape in H as [-> _]. lia.
    + apply remove_floating_ip_length in H1 as [[[=] _]|[_ ->]]. lia.
  - destruct (m !! FloatingIp.id fip) as [new_fip|]; simpl;
      [|by intros [= _ <- _]].
    rewrite bind_ret. destruct (_ && _); [|by intros [= _ <- _]].
    intros H.
    apply bind_inv in H as [([] & s1 & d1 & d2 & H1 & H & ->)|(e & H1 & _)];
      [|by apply floating_ip_removed_shape in H1 as [-> _]].
    apply floating_ip_removed_shape in H1 as [-> _].
    apply bind_inv in H as [([] & s2 & d3 & d4 & H2 & H & ->)|(e & H2 & _)];
      [|by apply floating_ip_added_shape in H2 as [-> _]].
    apply floating_ip_added_shape in H2 as [-> _].
    apply bind_inv in H as [([] & s3 & d5 & d6 & H3 & H & ->)|(e & H3 & _)].
    + apply remove_floating_ip_length in H3 as [[_ Hlen]|[[=] _]].
      injection H as _ <- _. simpl. rewrite length_app. simpl. lia.
    + apply remove_floating_ip_length in H3 as [[[=] _]|[_ ->]]. lia.
Qed.

(** Any two amounts of fuel above what is left of the list give the same
    run: the loop stops because the index is past the end, not because
    the fuel is spent. *)
Lemma floating_ips_second_loop_fuel fuel1 fuel2 i to_remove m h ri :
  length (RouterInfo.floating_ips ri) < fuel1 + i ->
  length (RouterInfo.floating_ips ri) < fuel2 + i ->
  floating_ips_second_loop env conf fuel1 i to_remove m h ri
  = floating_ips_second_loop env conf fuel2 i to_remove m h ri.
Proof.
  revert fuel2 i h ri.
  induction fuel1 as [|fuel1 IH]; intros fuel2 i h ri H1 H2.
  - destruct fuel2 as [|fuel2]; [done|]. simpl. rewrite bind_get.
    by rewrite lookup_ge_None_2 by lia.
  - destruct fuel2 as [|fuel2].
    + simpl. rewrite bind_get. by rewrite lookup_ge_None_2 by lia.
    + simpl. rewrite !bind_get.
      destruct (RouterInfo.floating_ips ri !! i) as [fip|] eqn:Hi; [|done].
      destruct (floating_ips_second_body env conf to_remove m fip h ri)
        as [[[[]|e] s1] d1] eqn:Hb.
      * rewrite !(bind_ok _ _ _ _ _ _ _ Hb).
        apply floating_ips_second_body_length in Hb.
        rewrite (IH fuel2 (S i) (h ++ d1) s1); [done|lia|lia].
      * by rewrite !(bind_raise _ _ _ _ _ _ _ Hb).
Qed.

(** The fuel process_router_floating_ips gives is enough: more fuel
    changes nothing. *)
Lemma floating_ips_second_loop_enough more to_remove m h ri :
  floating_ips_second_loop env conf
    (S (length (RouterInfo.floating_ips ri)) + more) 0 to_remove m h ri
  = floating_ips_second_loop env conf
      (S (length (RouterInfo.floating_ips ri))) 0 to_remove m h ri.
Proof. apply floating_ips_second_loop_fuel; lia. Qed.

End Fuel.

(** * The theorems at work on concrete routers *)

(** The port diff on a RouterInfo that holds pa and pb, for a descriptor
    with pb and pc up and pd and pa down: pc is added, pa is removed. *)
Lemma process_router_port_diff_witness :
  let run := process_router Scenario.env Scenario.conf []
               Scenario.ports_before in
  RouterInfo.router Scenario.ports_before = Some Scenario.ports_descriptor
  /\ run = (Ok tt, snd (fst run), snd run)
  /\ NoDup (Port.id <$> Router._interfaces Scenario.ports_descriptor)
  /\ NoDup (Port.id <$> RouterInfo.internal_ports Scenario.ports_before)
  /\ port_ids (RouterInfo.internal_ports (snd (fst run)))
     = port_ids [Scenario.pb true; Scenario.pc true]
  /\ times "pc" (internal_network_added_calls (snd run)) = 1
  /\ times "pb" (internal_network_added_calls (snd run)) = 0
  /\ times "pa" (internal_network_removed_calls (snd run)) = 1
  /\ times "pd" (internal_network_removed_calls (snd run)) = 0
  /\ "pd" ∉ port_ids (RouterInfo.internal_ports (snd (fst run))).
Proof.
  intros run.
  assert (Hrun : run = (Ok tt, snd (fst run), snd run)) by (by vm_compute).
  assert (HD : NoDup (Port.id <$> Router._interfaces Scenario.ports_descriptor))
    by (apply (bool_decide_unpack _); by vm_compute).
  assert (HE : NoDup (Port.id <$> RouterInfo.internal_ports Scenario.ports_before))
    by (apply (bool_decide_unpack _); by vm_compute).
  destruct (process_router_port_diff Scenario.env Scenario.conf []
              Scenario.ports_before Scenario.ports_descriptor
              (snd (fst run)) (snd run) eq_refl Hrun)
    as (Hset & _ & _ & Hadd & Hrem & Hdown).
  split; [done|split; [done|split; [done|split; [done|]]]].
  split; [exact Hset|].
  split; [rewrite (Hadd HD "pc"); by vm_compute|].
  split; [rewrite (Hadd HD "pb"); by vm_compute|].
  split; [rewrite (Hrem HE "pa"); by vm_compute|].
  split; [rewrite (Hrem HE "pd"); by vm_compute|].
  rewrite Hset.
  apply (Hdown HD (Scenario.pd false)); [|done].
  apply (bool_decide_unpack _). by vm_compute.
Defined.

(** The gateway transition on a RouterInfo without gateway, for a
    descriptor with the gateway port g1. *)
Lemma gateway_transition_witness :
  let run := process_router Scenario.env Scenario.conf []
               Scenario.gateway_before in
  RouterInfo.router Scenario.gateway_before = Some Scenario.gateway_descriptor
  /\ run = (Ok tt, snd (fst run), snd run)
  /\ external_gateway_added_calls (snd run) = ["g1"]
  /\ external_gateway_removed_calls (snd run) = []
  /\ RouterInfo.ex_gw_port (snd (fst run))
     = Some (Port.set_ip_cidr "203.0.113.5/24" Scenario.gw)
  /\ external_gateway_added_calls
       (snd (process_router Scenario.env Scenario.conf (snd run)
               (RouterInfo.set_router (Some Scenario.gateway_descriptor)
                                      (snd (fst run))))) = [].
Proof.
  intros run.
  assert (Hrun : run = (Ok tt, snd (fst run), snd run)) by (by vm_compute).
  destruct (gateway_transition Scenario.env Scenario.conf []
              Scenario.gateway_before Scenario.gateway_descriptor
              (snd (fst run)) (snd run) eq_refl Hrun)
    as (Hadd & Hrem & _ & _ & Hagain).
  split; [done|split; [done|split; [exact Hadd|split; [exact Hrem|]]]].
  split; [by vm_compute|].
  destruct (process_router Scenario.env Scenario.conf (snd run) _)
    as [[res ri2] d2] eqn:H2.
  by destruct (Hagain _ _ _ _ H2).
Defined.

(** A batch of three routers on the host where the port of the second
    cannot be plugged. *)
Lemma routers_updated_exception_witness :
  let before := _process_routers Scenario.env_bad_port Scenario.conf
                  [Scenario.ra] [SemAcquire] initial_agent in
  let failing := _process_routers Scenario.env_bad_port Scenario.conf
                   [Scenario.ra; Scenario.rb] [SemAcquire] initial_agent in
  before = (Ok tt, snd (fst before), snd before)
  /\ failing = (Raise (OtherError "plug failed"), snd (fst failing),
                snd failing)
  /\ routers_updated Scenario.env_bad_port Scenario.conf
       [Scenario.ra; Scenario.rb; Scenario.rc] [] initial_agent
     = (Ok tt, set_fullsync true (snd (fst failing)),
        SemAcquire :: snd failing
          ++ [Log "debug" "Failed dealing with routers update RPC message"
                  None;
              SemRelease])
  /\ is_Some (router_info (set_fullsync true (snd (fst failing))) !! "ra").
Proof.
  intros before failing.
  assert (H1 : before = (Ok tt, snd (fst before), snd before))
    by (by vm_compute).
  assert (H2 : failing = (Raise (OtherError "plug failed"),
                          snd (fst failing), snd failing))
    by (by vm_compute).
  destruct (routers_updated_exception Scenario.env_bad_port Scenario.conf
              [] initial_agent [Scenario.ra] Scenario.rb [Scenario.rc]
              (OtherError "plug failed") (snd (fst before)) (snd before)
              (snd (fst failing)) (snd failing) H1 H2)
    as (Hrun & _ & _ & Hkept & _).
  split; [done|split; [done|split; [exact Hrun|]]].
  apply Hkept. eexists. vm_compute. reflexivity.
Defined.

(** The plugin that knows several external networks, an agent fresh from
    start. *)
Lemma ambiguous_external_network_witness :
  gateway_external_network_id Scenario.conf = ""
  /\ fullsync initial_agent = true
  /\ _fetch_external_net_id Scenario.env_too_many Scenario.conf []
       initial_agent
     = (Raise (Exception_ too_many_msg), initial_agent,
        [Rpc_get_external_network_id "host1"])
  /\ fullsync (snd (fst (_sync_routers_task Scenario.env_too_many
                            Scenario.conf [] initial_agent))) = true.
Proof.
  destruct (ambiguous_external_network Scenario.env_too_many Scenario.conf
              [] initial_agent eq_refl (fun _ => eq_refl) eq_refl
              (fun _ _ => eq_refl) (fun _ => eq_refl) (fun _ => eq_refl))
    as (Hfetch & Htask & Hflag).
  split; [done|split; [done|split; [exact Hfetch|]]].
  by rewrite Htask.
Defined.

(** Router "r1" is in the registry; the plugin then has it admin-down.
    A full sync drops it, a routers_updated leaves it where it is. *)
Lemma admin_down_router_skipped_witness :
  let down := Scenario.r1 false [] [] in
  let e := Scenario.env_with_routers [down; Scenario.ra] in
  let a := fst (Scenario.deliver e Scenario.conf [[Scenario.r1 true [] []]]) in
  fullsync a = true
  /\ is_Some (router_info a !! "r1")
  /\ router_info (snd (fst (_sync_routers_task e Scenario.conf [] a))) !! "r1"
     = None
  /\ is_Some (router_info
                (snd (fst (routers_updated e Scenario.conf [down] [] a)))
              !! "r1").
Proof.
  intros down e a.
  destruct (admin_down_router_skipped e Scenario.conf [] a) as [Hfull Hinc].
  assert (Hsplit : forall x : result unit * Agent * list event,
             x = (fst (fst x), snd (fst x), snd x)) by (by intros [[? ?] ?]).
  assert (Hnd : NoDup (Router.id <$> [down; Scenario.ra]))
    by (apply (bool_decide_unpack _); by vm_compute).
  assert (Hnd1 : NoDup (Router.id <$> [down]))
    by (apply (bool_decide_unpack _); by vm_compute).
  split; [by vm_compute|].
  split; [eexists; vm_compute; reflexivity|]. split.
  - apply (Hfull _ _ _ ltac:(by vm_compute) eq_refl (Hsplit _) Hnd down
             ltac:(apply list_elem_of_here) eq_refl).
  - pose proof (Hinc [down] _ _ _ (Hsplit _) Hnd1 down
                  ltac:(apply list_elem_of_here) eq_refl) as Hkept.
    change (Router.id down) with "r1" in Hkept. rewrite Hkept.
    eexists. vm_compute. reflexivity.
Defined.

(** * A remap on its own

    The remap of the specification's scenario: the RouterInfo holds the one
    floating IP [fip], the descriptor has it with another fixed address.
    When the reconciler returns, it has entered floating_ip_removed with the
    old fixed address, later floating_ip_added with the new one, no other
    hook, and the RouterInfo holds the descriptor's record. *)
Lemma floating_ip_remap_alone env conf gw h ri r fip new_fip ri' d :
  RouterInfo.router ri = Some r ->
  RouterInfo.floating_ips ri = [fip] ->
  Router._floatingips r = [new_fip] ->
  FloatingIp.id new_fip = FloatingIp.id fip ->
  truthy (FloatingIp.port_id new_fip) = true ->
  truthy (FloatingIp.fixed_ip_address new_fip) = true ->
  truthy (FloatingIp.fixed_ip_address fip) = true ->
  FloatingIp.fixed_ip_address new_fip <> FloatingIp.fixed_ip_address fip ->
  process_router_floating_ips env conf gw h ri = (Ok tt, ri', d) ->
  RouterInfo.floating_ips ri' = [new_fip]
  /\ exists d1 d2,
       d = Call_floating_ip_removed (RouterInfo.router_id ri)
             (FloatingIp.floating_ip_address fip)
             (FloatingIp.fixed_ip_address fip)
           :: d1
           ++ Call_floating_ip_added (RouterInfo.router_id ri)
                (FloatingIp.floating_ip_address fip)
                (FloatingIp.fixed_ip_address new_fip)
           :: d2
       /\ low d1 /\ low d2.
Proof.
  intros Hr Hold Hnew Hid Hport Hfixed_new Hfixed_old Hne H.
  assert (Hknown : ~ (FloatingIp.id new_fip ∉ floating_ip_ids [fip])).
  { unfold floating_ip_ids. simpl. rewrite Hid. intros Hn. apply Hn.
    by apply elem_of_union_l, elem_of_singleton. }
  assert (Hstays : FloatingIp.id fip
                   ∉ floating_ip_ids [fip] ∖ floating_ip_ids [new_fip]).
  { unfold floating_ip_ids. simpl. rewrite Hid.
    intros [_ Hn]%elem_of_difference. apply Hn.
    by apply elem_of_union_l, elem_of_singleton. }
  unfold process_router_floating_ips in H.
  rewrite bind_get, Hr in H. cbn [of_option] in H. rewrite bind_ret in H.
  cbv zeta in H. rewrite Hnew, Hold in H.
  cbn [floating_ips_first_loop] in H. rewrite Hport in H.
  rewrite (bool_decide_eq_false_2 _ Hknown) in H.
  bind_norm H. rewrite Hold in H.
  cbn [length floating_ips_second_loop] in H.
  bind_norm H. rewrite Hold in H. cbn [lookup list_lookup] in H.
  unfold floating_ips_second_body in H. bind_norm H.
  rewrite (bool_decide_eq_false_2 _ Hstays) in H.
  rewrite <- Hid, lookup_insert_eq in H. cbn [of_option] in H.
  bind_norm H.
  rewrite Hfixed_new, Hfixed_old, bool_decide_eq_false_2 in H by done.
  cbn [andb negb] in H. bind_norm H.
  apply bind_ok_inv in H as ([] & s1 & d1 & d2 & H1 & H & ->).
  apply floating_ip_removed_shape in H1 as (-> & d1' & -> & Hd1).
  bind_norm H.
  apply bind_ok_inv in H as ([] & s2 & d3 & d4 & H2 & H & ->).
  apply floating_ip_added_shape in H2 as (-> & d3' & -> & Hd3).
  unfold remove_floating_ip in H. bind_norm H. rewrite Hold in H.
  cbn [list_remove] in H. rewrite decide_True in H by done.
  cbn [of_option] in H. bind_norm H.
  cbn [RouterInfo.floating_ips RouterInfo.set_floating_ips app lookup
       list_lookup] in H.
  injection H as <- <-.
  split; [done|]. exists d1', d3'. split; [|done].
  simpl. by rewrite app_nil_r.
Qed.

(** * Nothing to do

    What idempotence rests on: on a RouterInfo that already is what the
    descriptor says, process_router asks nothing of the host and changes
    nothing but the gateway port it stores, which becomes the
    descriptor's. *)

Lemma filter_none {A} (P : A -> Prop) `{!forall x, Decision (P x)}
    (l : list A) :
  (forall x, x ∈ l -> ~ P x) -> filter P l = [].
Proof.
  induction l as [|x l IH]; [done|]. intros Hl. rewrite filter_cons.
  rewrite decide_False by (apply Hl, list_elem_of_here).
  apply IH. intros y Hy. apply Hl. by apply list_elem_of_further.
Qed.

Lemma fip_map_other l m k :
  k ∉ FloatingIp.id <$> l -> fip_map l m !! k = m !! k.
Proof.
  revert m. induction l as [|x l IH]; intros m Hk; [done|]. simpl.
  rewrite fmap_cons, not_elem_of_cons in Hk. destruct Hk as [Hx Hl].
  rewrite IH by done. by rewrite lookup_insert_ne.
Qed.

Lemma fip_map_lookup l m fip :
  NoDup (FloatingIp.id <$> l) -> fip ∈ l ->
  fip_map l m !! FloatingIp.id fip = Some fip.
Proof.
  revert m. induction l as [|x l IH]; intros m Hnd Hin;
    [by apply elem_of_nil in Hin|].
  rewrite fmap_cons, NoDup_cons in Hnd. destruct Hnd as [Hx Hnd]. simpl.
  apply elem_of_cons in Hin as [->|Hin].
  - rewrite fip_map_other by done. by rewrite lookup_insert_eq.
  - by apply IH.
Qed.

Section Settled.

Context (env : Env) (conf : Conf).

Lemma mapM_port_ip_cidr_ok (l : list Port.t) h (ri : RouterInfo.t) :
  Forall (fun p => is_Some (Port.ip_cidr p)) l ->
  exists cidrs, mapM port_ip_cidr l h ri = (Ok cidrs, ri, []).
Proof.
  intros Hl. revert h. induction Hl as [|p l [c Hc] _ IH]; intros h; simpl.
  - by eexists.
  - destruct (IH h) as [cidrs Hcidrs]. exists (c :: cidrs).
    unfold port_ip_cidr at 1. rewrite Hc. simpl.
    rewrite bind_ret, (bind_ok _ _ _ _ _ _ _ Hcidrs). by rewrite app_nil_r.
Qed.

(** The first loop when every floating IP of the descriptor is known. *)
Lemma floating_ips_first_loop_known gw existing l m h ri :
  Forall (fun fip => truthy (FloatingIp.port_id fip) = true) l ->
  (forall fip, fip ∈ l -> FloatingIp.id fip ∈ existing) ->
  floating_ips_first_loop env conf gw existing l m h ri
  = (Ok (fip_map l m), ri, []).
Proof.
  revert m. induction l as [|fip l IH]; intros m Hport Hknown; [done|].
  apply Forall_cons in Hport as [Hp Hport]. simpl. rewrite Hp.
  assert (Hfip : FloatingIp.id fip ∈ existing)
    by apply Hknown, list_elem_of_here.
  rewrite bool_decide_eq_false_2 by (intros Hn; by apply Hn).
  rewrite bind_ret. apply IH; [done|].
  intros fip' Hfip'. by apply Hknown, list_elem_of_further.
Qed.

(** A round of the second loop on a floating IP that is as the map has
    it. *)
Lemma floating_ips_second_body_same to_remove m fip h ri :
  FloatingIp.id fip ∉ to_remove ->
  m !! FloatingIp.id fip = Some fip ->
  floating_ips_second_body env conf to_remove m fip h ri = (Ok tt, ri, []).
Proof.
  intros Hstay Hm. unfold floating_ips_second_body.
  rewrite bind_get, (bool_decide_eq_false_2 _ Hstay), Hm. simpl.
  rewrite bind_ret. rewrite (bool_decide_eq_true_2 _ eq_refl).
  by rewrite andb_false_r.
Qed.

Lemma floating_ips_second_loop_same fuel i to_remove m h ri :
  (forall fip, fip ∈ RouterInfo.floating_ips ri ->
     (FloatingIp.id fip ∉ to_remove)
     /\ m !! FloatingIp.id fip = Some fip) ->
  floating_ips_second_loop env conf fuel i to_remove m h ri = (Ok tt, ri, []).
Proof.
  intros Hsame. revert i h. induction fuel as [|fuel IH]; intros i h; [done|].
  simpl. rewrite bind_get.
  destruct (RouterInfo.floating_ips ri !! i) as [fip|] eqn:Hi; [|done].
  destruct (Hsame fip) as [Hstay Hm]; [by eapply list_elem_of_lookup_2|].
  rewrite (bind_ok _ _ _ _ _ _ _
             (floating_ips_second_body_same to_remove m fip h ri Hstay Hm)).
  by rewrite IH.
Qed.

Lemma process_router_floating_ips_settled gw h ri r :
  RouterInfo.router ri = Some r ->
  RouterInfo.floating_ips ri = Router._floatingips r ->
  Forall (fun fip => truthy (FloatingIp.port_id fip) = true)
         (Router._floatingips r) ->
  NoDup (FloatingIp.id <$> Router._floatingips r) ->
  process_router_floating_ips env conf gw h ri = (Ok tt, ri, []).
Proof.
  intros Hr Hfips Hport Hnd. unfold process_router_floating_ips.
  rewrite bind_get, Hr. cbn [of_option]. rewrite bind_ret. cbv zeta.
  assert (Hknown : forall fip, fip ∈ Router._floatingips r ->
            FloatingIp.id fip ∈ floating_ip_ids (RouterInfo.floating_ips ri)).
  { intros fip Hin. rewrite Hfips. unfold floating_ip_ids.
    apply elem_of_list_to_set, list_elem_of_fmap. by exists fip. }
  rewrite (bind_ok _ _ _ _ _ _ _
             (floating_ips_first_loop_known gw _ _ ∅ h ri Hport Hknown)).
  rewrite bind_get, floating_ips_second_loop_same; [done|].
  intros fip Hin. rewrite Hfips in Hin |- *. split.
  - intros [_ Hn]%elem_of_difference. apply Hn. unfold floating_ip_ids.
    apply elem_of_list_to_set, list_elem_of_fmap. by exists fip.
  - by apply fip_map_lookup.
Qed.

(** On a settled RouterInfo, process_router returns, with an empty trace,
    and only stores the descriptor's gateway port. *)
Lemma process_router_settled h ri r :
  RouterInfo.router ri = Some r ->
  settled ri r ->
  process_router env conf h ri
  = (Ok tt, RouterInfo.set_ex_gw_port (Router.gw_port r) ri, []).
Proof.
  intros Hr (Hports & Hcidr & Hgw & Hfloating).
  unfold process_router.
  rewrite bind_get, Hr. cbn [of_option]. rewrite bind_ret. cbv zeta.
  rewrite (filter_none (fun p => _ ∧ _)).
  2:{ intros p _ [Hc He]. by rewrite Hports in He. }
  rewrite (filter_none (fun p => _ ∉ _)).
  2:{ intros p Hp Hn. apply Hn. rewrite <- Hports.
      apply elem_of_port_ids. by exists p. }
  simpl. rewrite !bind_ret, bind_get.
  destruct (mapM_port_ip_cidr_ok _ h ri Hcidr) as [cidrs Hcidrs].
  rewrite (bind_ok _ _ _ _ _ _ _ Hcidrs).
  rewrite (bind_ok _ _ _ _ _ _ _
             (gateway_step_quiet env conf _ cidrs _ ri Hgw)).
  case_bool_decide as Hany.
  - destruct Hfloating as (Hfips & Hport & Hnd); [tauto|].
    rewrite (bind_ok _ _ _ _ _ _ _
               (process_router_floating_ips_settled _ _ ri r Hr Hfips
                  Hport Hnd)).
    done.
  - by rewrite bind_ret.
Qed.

End Settled.

(** * The first reconciliation of a router, and its replay *)

Lemma annotate_interface_floating p p' ri :
  keeps floating_view ri (annotate_interface p p' ri).
Proof.
  unfold keeps, floating_view, annotate_interface. simpl.
  by destruct (RouterInfo.router ri).
Qed.

Lemma annotate_gw_port_floating gw ri :
  keeps floating_view ri (annotate_gw_port gw ri).
Proof.
  unfold keeps, floating_view, annotate_gw_port. simpl.
  by destruct (RouterInfo.router ri).
Qed.

Section FirstReconciliation.

Context (env : Env) (conf : Conf).

(** A reconciliation that returns, stage by stage. *)
Lemma process_router_stages h ri r ri' d :
  RouterInfo.router ri = Some r ->
  process_router env conf h ri = (Ok tt, ri', d) ->
  let gw := Router.gw_port r in
  let E := port_ids (RouterInfo.internal_ports ri) in
  let C := port_ids (filter (fun p => Port.admin_state_up p = true)
                            (Router._interfaces r)) in
  exists s1 d1 s2 d2 cidrs ex s4 d4 s5 d5,
    for_each (filter (fun p => Port.id p ∈ C ∧ Port.id p ∉ E)
                     (Router._interfaces r))
             (new_port_body env conf gw) h ri = (Ok tt, s1, d1)
    /\ for_each (filter (fun p => Port.id p ∉ C)
                        (RouterInfo.internal_ports ri))
                (old_port_body env gw) (h ++ d1) s1 = (Ok tt, s2, d2)
    /\ mapM port_ip_cidr (RouterInfo.internal_ports s2) ((h ++ d1) ++ d2) s2
       = (Ok cidrs, s2, [])
    /\ gateway_step env conf gw cidrs (((h ++ d1) ++ d2) ++ []) s2
       = (Ok ex, s4, d4)
    /\ (if bool_decide (is_Some (RouterInfo.ex_gw_port s2) ∨ is_Some ex)
        then process_router_floating_ips env conf ex
        else ret tt) ((((h ++ d1) ++ d2) ++ []) ++ d4) s4
       = (Ok tt, s5, d5)
    /\ ri' = RouterInfo.set_ex_gw_port ex s5
    /\ d = d1 ++ d2 ++ d4 ++ d5.
Proof.
  intros Hr H gw E C. unfold process_router in H.
  rewrite bind_get, Hr in H. cbn [of_option] in H. rewrite bind_ret in H.
  cbv zeta in H.
  apply bind_ok_inv in H as ([] & s1 & d1 & d2 & H1 & H & ->).
  apply bind_ok_inv in H as ([] & s2 & d2' & d3 & H2 & H & ->).
  rewrite bind_get in H.
  apply bind_ok_inv in H as (cidrs & s3 & d4 & d5 & H3 & H & ->).
  destruct (mapM_port_ip_cidr_pure _ _ _ _ _ _ H3) as [<- ->].
  apply bind_ok_inv in H as (ex & s4 & d6 & d7 & H4 & H & ->).
  apply bind_ok_inv in H as ([] & s5 & d8 & d9 & H5 & H & ->).
  injection H as <- <-.
  exists s1, d1, s2, d2', cidrs, ex, s4, d6, s5, d8.
  repeat split; try done. simpl. by rewrite app_nil_r.
Qed.

Lemma mapM_port_ip_cidr_inv (l : list Port.t) h (ri : RouterInfo.t)
    cidrs ri' d :
  mapM port_ip_cidr l h ri = (Ok cidrs, ri', d) ->
  Forall (fun p => is_Some (Port.ip_cidr p)) l.
Proof.
  revert h cidrs ri' d.
  induction l as [|p l IH]; intros h cidrs ri' d H; [done|].
  simpl in H. unfold port_ip_cidr at 1 in H.
  destruct (Port.ip_cidr p) as [c|] eqn:Hc; [|done]. simpl in H.
  rewrite bind_ret in H.
  apply bind_ok_inv in H as (ys & s1 & d1 & d2 & H1 & _ & _).
  destruct (mapM_port_ip_cidr_pure _ _ _ _ _ _ H1) as [<- ->].
  apply Forall_cons. split; [by rewrite Hc|by eapply IH].
Qed.

Lemma new_ports_loop_floating gw l :
  respects (keeps floating_view) (fun _ => True)
    (for_each l (new_port_body env conf gw)).
Proof.
  unfold new_port_body, internal_network_added.
  frame_with ltac:(apply annotate_interface_floating).
Qed.

Lemma old_ports_loop_floating gw l :
  respects (keeps floating_view) (fun _ => True)
    (for_each l (old_port_body env gw)).
Proof. unfold old_port_body, internal_network_removed. frame_auto. Qed.

Lemma gateway_step_floating gw cidrs :
  respects (keeps floating_view) (fun _ => True)
    (gateway_step env conf gw cidrs).
Proof.
  unfold gateway_step, external_gateway_added, external_gateway_removed.
  frame_with ltac:(apply annotate_gw_port_floating).
Qed.

(** The first loop on a RouterInfo that knows no floating IP. *)
Lemma floating_ips_first_loop_fresh gw l m h ri m' ri' d :
  Forall (fun fip => truthy (FloatingIp.port_id fip) = true) l ->
  floating_ips_first_loop env conf gw ∅ l m h ri = (Ok m', ri', d) ->
  m' = fip_map l m
  /\ ri' = RouterInfo.set_floating_ips (RouterInfo.floating_ips ri ++ l) ri.
Proof.
  revert m h ri d. induction l as [|fip l IH]; intros m h ri d Hport H.
  - injection H as <- <- _. split; [done|]. rewrite app_nil_r.
    by destruct ri.
  - apply Forall_cons in Hport as [Hp Hport]. simpl in H. rewrite Hp in H.
    rewrite bool_decide_eq_true_2 in H by apply not_elem_of_empty.
    bind_norm H.
    apply bind_ok_inv in H as ([] & s1 & d1 & d2 & H1 & H & ->).
    apply floating_ip_added_shape in H1 as (-> & _).
    apply IH in H as [-> ->]; [|done]. split; [done|].
    simpl. by rewrite <- app_assoc.
Qed.

Lemma process_router_floating_ips_fresh gw h ri r ri' d :
  RouterInfo.router ri = Some r ->
  RouterInfo.floating_ips ri = [] ->
  Forall (fun fip => truthy (FloatingIp.port_id fip) = true)
         (Router._floatingips r) ->
  NoDup (FloatingIp.id <$> Router._floatingips r) ->
  process_router_floating_ips env conf gw h ri = (Ok tt, ri', d) ->
  ri' = RouterInfo.set_floating_ips (Router._floatingips r) ri.
Proof.
  intros Hr Hnone Hport Hnd H. unfold process_router_floating_ips in H.
  rewrite bind_get, Hr in H. cbn [of_option] in H. rewrite bind_ret in H.
  cbv zeta in H. rewrite Hnone in H.
  apply bind_ok_inv in H as (m & s1 & d1 & d2 & H1 & H & ->).
  apply floating_ips_first_loop_fresh in H1 as [-> ->]; [|done].
  rewrite Hnone in H. cbn [app] in H. rewrite bind_get in H.
  rewrite floating_ips_second_loop_same in H; [by injection H as <- _|].
  simpl. intros fip Hin. split.
  - intros [Hn _]%elem_of_difference. by apply not_elem_of_empty in Hn.
  - by apply fip_map_lookup.
Qed.

(** A first reconciliation that returns leaves the RouterInfo settled. *)
Lemma first_reconciliation_settles h ri r ri' d :
  fresh ri r ->
  Forall (fun fip => truthy (FloatingIp.port_id fip) = true)
         (Router._floatingips r) ->
  NoDup (FloatingIp.id <$> Router._floatingips r) ->
  process_router env conf h ri = (Ok tt, ri', d) ->
  settled ri' r.
Proof.
  intros (Hr & Hports & Hfips & Hgw) Hport Hnd H.
  destruct (process_router_ports env conf h ri r ri' d Hr H)
    as ((l' & Hids & Hri') & _ & _).
  destruct (process_router_stages h ri r ri' d Hr H)
    as (s1 & d1 & s2 & d2 & cidrs & ex & s4 & d4 & s5 & d5
        & H1 & H2 & H3 & H4 & H5 & -> & ->).
  pose proof (proj1 (new_ports_loop_gateway env conf _ _ _ _ _ _ _ H1)) as G1.
  pose proof (proj1 (old_ports_loop_gateway env _ _ _ _ _ _ _ H2)) as G2.
  pose proof (proj1 (new_ports_loop_floating _ _ _ _ _ _ _ H1)) as F1.
  pose proof (proj1 (old_ports_loop_floating _ _ _ _ _ _ _ H2)) as F2.
  pose proof (proj1 (gateway_step_floating _ _ _ _ _ _ _ H4)) as F4.
  pose proof (proj1 (gateway_step_ports env conf _ _ _ _ _ _ _ H4)) as P4.
  apply mapM_port_ip_cidr_inv in H3.
  assert (Hex2 : RouterInfo.ex_gw_port s2 = None).
  { unfold keeps, gateways in G1, G2. congruence. }
  apply gateway_step_ok in H4. rewrite Hex2 in H4.
  assert (Hview : floating_view s4 = ([], Some (Router._floatingips r))).
  { unfold keeps in F1, F2, F4. rewrite F4, F2, F1.
    unfold floating_view. by rewrite Hfips, Hr. }
  assert (Hex : is_Some (Router.gw_port r) <-> is_Some ex).
  { destruct (Router.gw_port r) as [g|].
    - destruct H4 as (c & -> & _). split; eauto.
    - by destruct H4 as (-> & _). }
  assert (Hp5 : RouterInfo.internal_ports s5 = RouterInfo.internal_ports s2).
  { unfold keeps in P4. rewrite <- P4. case_bool_decide.
    - by destruct (process_router_floating_ips_respects env conf
                (keeps RouterInfo.internal_ports) internal_port_call
                ltac:(by intros []) ltac:(done) ltac:(done) ltac:(done)
                ex _ _ _ _ _ H5) as [-> _].
    - by injection H5 as <- _. }
  split; [|split; [|split]].
  - exact (process_router_port_ids env conf h ri r _ _ Hr H).
  - simpl. by rewrite Hp5.
  - done.
  - simpl. intros Hsome. split; [|done].
    rewrite bool_decide_eq_true_2 in H5 by (by right).
    unfold floating_view in Hview. injection Hview as Hnone Hr4.
    destruct (RouterInfo.router s4) as [r4|] eqn:Hr4'; [|done].
    injection Hr4 as Hr4.
    apply (process_router_floating_ips_fresh _ _ _ r4) in H5 as ->;
      try done; by rewrite Hr4.
Qed.

(** So the replay of a first reconciliation is silent: when a router the
    agent did not know is reconciled and the reconciliation returns,
    reconciling the same descriptor again returns with an empty trace.
    Where a reconciliation has floating IPs to remove or remap, this is
    lost: see the concrete routers above. *)
Lemma first_reconciliation_replay h ri r ri' d h2 :
  fresh ri r ->
  Forall (fun fip => truthy (FloatingIp.port_id fip) = true)
         (Router._floatingips r) ->
  NoDup (FloatingIp.id <$> Router._floatingips r) ->
  process_router env conf h ri = (Ok tt, ri', d) ->
  process_router env conf h2 (RouterInfo.set_router (Some r) ri')
  = (Ok tt,
     RouterInfo.set_ex_gw_port (Router.gw_port r)
       (RouterInfo.set_router (Some r) ri'),
     []).
Proof.
  intros Hfresh Hport Hnd H.
  apply process_router_settled; [done|].
  exact (first_reconciliation_settles h ri r ri' d Hfresh Hport Hnd H).
Qed.

End FirstReconciliation.

(** * The periodic task and the flag

    Apart from the message it sends (see
    [sync_routers_task_message]), the periodic task does what is expected
    of it: without the flag it does nothing; with the flag it always
    returns, and it leaves the flag cleared exactly when the fetch and the
    reconciliation of the fetched routers, started from an empty registry,
    both returned. *)

Lemma sync_routers_task_idle env conf h a :
  fullsync a = false ->
  _sync_routers_task env conf h a = (Ok tt, a, [SemAcquire; SemRelease]).
Proof.
  intros Hflag. unfold _sync_routers_task, with_sync_sem.
  by rewrite bind_get, Hflag.
Qed.

Lemma sync_routers_task_flag env conf h a res a' d :
  fullsync a = true ->
  _sync_routers_task env conf h a = (res, a', d) ->
  res = Ok tt
  /\ (fullsync a' = false <->
      exists routers d0 a1 d1,
        get_routers env conf
          (if negb (use_namespaces conf) then ArgStr (router_id conf)
           else ArgNone) None (h ++ [SemAcquire]) a
        = (Ok routers, a, d0)
        /\ _process_routers env conf routers ((h ++ [SemAcquire]) ++ d0)
             (set_router_info ∅ a)
           = (Ok tt, a1, d1)
        /\ a' = set_fullsync false a1).
Proof.
  intros Hflag. unfold _sync_routers_task, with_sync_sem.
  rewrite bind_get, Hflag. unfold try_except.
  destruct (bind (get_routers _ _ _ _) _ _ _) as [[[[]|e] a1] d1] eqn:H1.
  - intros [= <- <- <-]. split; [done|].
    apply bind_ok_inv in H1 as (routers & s1 & d0 & d2 & Hg & H1 & ->).
    assert (s1 = a) as ->.
    { unfold get_routers, query in Hg.
      destruct (raises env _ _) in Hg; by injection Hg. }
    rewrite bind_modify in H1.
    apply bind_ok_inv in H1 as ([] & s2 & d3 & d4 & Hp & H1 & ->).
    injection H1 as <- <-. split; [|done].
    intros _. by exists routers, d0, s2, d3.
  - simpl. intros [= <- <- <-]. split; [done|]. simpl. split; [done|].
    intros (routers & d0 & a2 & d2 & Hg & Hp & _).
    rewrite (bind_ok _ _ _ _ _ _ _ Hg), bind_modify in H1.
    by rewrite (bind_ok _ _ _ _ _ _ _ Hp) in H1.
Qed.

(** * Reasoning from a state that is known *)

#[global] Instance trace_closed_Forall (P : event -> Prop)
  : TraceClosed (Forall P).
Proof. split; [apply Forall_nil_2|]. intros d1 d2 H1 H2. by apply Forall_app. Qed.

Section From.

Context (env : Env) {S : Type} (I : S -> Prop) (D : list event -> Prop)
        `{!TraceClosed D}.

Lemma from_ret {A} (a : A) : respects_from I D (ret a).
Proof. intros h s r s' d Hs [= <- <- <-]. split; [done|apply trace_closed_nil]. Qed.

Lemma from_raise {A} e : respects_from I D (raise (A:=A) e).
Proof. intros h s r s' d Hs [= <- <- <-]. split; [done|apply trace_closed_nil]. Qed.

Lemma from_of_option {A} (o : option A) e : respects_from I D (of_option o e).
Proof. destruct o; [apply from_ret|apply from_raise]. Qed.

Lemma from_modify (f : S -> S) :
  (forall s, I s -> I (f s)) -> respects_from I D (modify f).
Proof.
  intros Hf h s r s' d Hs [= <- <- <-]. split; [by apply Hf|apply trace_closed_nil].
Qed.

Lemma from_emit ev : D [ev] -> respects_from I D (emit (S:=S) ev).
Proof. by intros Hev h s r s' d Hs [= <- <- <-]. Qed.

Lemma from_query {A} ev (answer : list event -> A) :
  D [ev] -> respects_from I D (query env ev answer).
Proof.
  intros Hev h s r s' d Hs. unfold query.
  by destruct (raises env h ev); intros [= <- <- <-].
Qed.

Lemma from_call ev : D [ev] -> respects_from I D (call (S:=S) env ev).
Proof. apply from_query. Qed.

Lemma from_bind {A B} (m : M S A) (k : A -> M S B) :
  respects_from I D m -> (forall a, respects_from I D (k a)) ->
  respects_from I D (bind m k).
Proof.
  intros Hm Hk h s r s' d Hs H.
  apply bind_inv in H as [(a & s1 & d1 & d2 & H1 & H2 & ->)|(e & H1 & _)].
  - apply Hm in H1 as [Hs1 ?]; [|done]. apply Hk in H2 as [? ?]; [|done].
    split; [done|by apply trace_closed_app].
  - by apply Hm in H1.
Qed.

(** What [get] hands over is the state, so it satisfies [I]. *)
Lemma from_get_bind {B} (k : S -> M S B) :
  (forall a, I a -> respects_from I D (k a)) ->
  respects_from I D (bind get k).
Proof.
  intros Hk h s r s' d Hs. rewrite bind_get. by apply Hk.
Qed.

Lemma from_try_except {A} (m : M S A) (handler : exn -> M S A) :
  respects_from I D m -> (forall e, respects_from I D (handler e)) ->
  respects_from I D (try_except m handler).
Proof.
  intros Hm Hh h s r s' d Hs. unfold try_except.
  destruct (m h s) as [[[a|e] s1] d1] eqn:H1.
  - intros [= <- <- <-]. by apply Hm in H1.
  - destruct (handler e (h ++ d1) s1) as [[r2 s2] d2] eqn:H2.
    intros [= <- <- <-]. apply Hm in H1 as [? ?]; [|done].
    apply Hh in H2 as [? ?]; [|done].
    split; [done|by apply trace_closed_app].
Qed.

Lemma from_for_each {A} (l : list A) (body : A -> M S unit) :
  (forall x, respects_from I D (body x)) -> respects_from I D (for_each l body).
Proof.
  intros Hb. induction l as [|x l IH]; simpl.
  - apply from_ret.
  - apply from_bind; [apply Hb|intros _; apply IH].
Qed.

Lemma from_mapM {A B} (f : A -> M S B) (l : list A) :
  (forall x, respects_from I D (f x)) -> respects_from I D (mapM f l).
Proof.
  intros Hf. induction l as [|x l IH]; simpl.
  - apply from_ret.
  - apply from_bind; [apply Hf|intros y].
    apply from_bind; [apply IH|intros ys; apply from_ret].
Qed.

End From.

Ltac from_step :=
  lazymatch goal with
  | |- TraceClosed _ => tc_solve
  | |- respects_from _ _ (bind get _) => apply from_get_bind; intros ? ?
  | |- respects_from _ _ (bind _ _) => apply from_bind
  | |- respects_from _ _ (ret _) => apply from_ret
  | |- respects_from _ _ (raise _) => apply from_raise
  | |- respects_from _ _ (of_option _ _) => apply from_of_option
  | |- respects_from _ _ (emit _) => apply from_emit
  | |- respects_from _ _ (query _ _ _) => apply from_query
  | |- respects_from _ _ (call _ _) => apply from_call
  | |- respects_from _ _ (modify _) => apply from_modify
  | |- respects_from _ _ (for_each _ _) => apply from_for_each
  | |- respects_from _ _ (mapM _ _) => apply from_mapM
  | |- respects_from _ _ (try_except _ _) => apply from_try_except
  | |- respects_from _ _ (if ?b then _ else _) => destruct b eqn:?
  | |- respects_from _ _ (match ?x with _ => _ end) => destruct x eqn:?
  | |- forall _ : exn, _ => intros ?
  | |- forall _ : unit, _ => intros ?
  | |- forall _ : bool, _ => intros ?
  | |- forall _ : string, _ => intros ?
  | |- forall _ : list _, _ => intros ?
  | |- forall _ : option _, _ => intros ?
  | |- forall _ : Port.t, _ => intros ?
  | |- forall _ : FloatingIp.t, _ => intros ?
  | |- forall _ : Router.t, _ => intros ?
  | |- forall _ : IPNetwork, _ => intros ?
  | |- forall _ : gmap _ _, _ => intros ?
  | |- forall _ : _ * _, _ => intros ?
  end.

Ltac from_with tac :=
  repeat first [ tac | from_step | progress autounfold with agent_unfold ].

(** * A reconciliation stays within its router *)

Lemma ns_name_of conf rid ri :
  router_info_of conf rid ri -> ns_name ri = namespace_of conf rid.
Proof. intros [Hid Huse]. unfold ns_name, namespace_of. by rewrite Hid, Huse. Qed.

(** What is left of a scope proof: one event, built from a RouterInfo
    that is known to be the router's. *)
Ltac scope_side :=
  repeat match goal with
         | H : router_info_of _ _ ?ri |- _ =>
             let Hns := fresh "Hns" in
             pose proof (ns_name_of _ _ _ H) as Hns;
             destruct H as [? ?]
         end;
  repeat match goal with
         | H : ns_name _ = _ |- _ => rewrite ?H; clear H
         end;
  repeat match goal with
         | H : RouterInfo.router_id _ = _ |- _ => rewrite ?H; clear H
         end;
  try (intros ? [? ?]; by split);
  try (apply Forall_singleton; unfold in_scope, namespace_of;
       repeat match goal with
              | H : use_namespaces _ = _ |- _ => rewrite ?H
              end;
       rewrite ?bool_decide_eq_true_2 by done; done).

Section Scope.

Context (env : Env) (conf : Conf) (rid : string).

Local Abbreviation I := (router_info_of conf rid).
Local Abbreviation D :=
  (Forall (fun e => in_scope rid (namespace_of conf rid) e = true)).

Lemma _set_subnet_info_scope p : respects_from I D (_set_subnet_info env p).
Proof. from_with fail; scope_side. Qed.

Lemma _send_gratuitous_arp_packet_scope ri interface_name ip_address :
  I ri ->
  respects_from I D
    (_send_gratuitous_arp_packet env conf ri interface_name ip_address).
Proof. intros Hri. from_with fail; scope_side. Qed.

Lemma internal_network_added_scope gw network_id port_id cidr mac :
  respects_from I D
    (internal_network_added env conf gw network_id port_id cidr mac).
Proof.
  unfold internal_network_added.
  from_with ltac:(by apply _send_gratuitous_arp_packet_scope); scope_side.
Qed.

Lemma internal_network_removed_scope gw port_id cidr :
  respects_from I D (internal_network_removed env gw port_id cidr).
Proof. unfold internal_network_removed. from_with fail; scope_side. Qed.

Lemma external_gateway_added_scope gw cidrs :
  respects_from I D (external_gateway_added env conf gw cidrs).
Proof.
  unfold external_gateway_added.
  from_with ltac:(by apply _send_gratuitous_arp_packet_scope); scope_side.
Qed.

Lemma external_gateway_removed_scope gw cidrs :
  respects_from I D (external_gateway_removed env conf gw cidrs).
Proof. unfold external_gateway_removed. from_with fail; scope_side. Qed.

Lemma floating_ip_added_scope gw floating_ip fixed_ip :
  respects_from I D (floating_ip_added env conf gw floating_ip fixed_ip).
Proof.
  unfold floating_ip_added.
  from_with ltac:(by apply _send_gratuitous_arp_packet_scope); scope_side.
Qed.

Lemma floating_ip_removed_scope gw floating_ip fixed_ip :
  respects_from I D (floating_ip_removed env gw floating_ip fixed_ip).
Proof. unfold floating_ip_removed. from_with fail; scope_side. Qed.

End Scope.

Section ScopeOfProcessRouter.

Context (env : Env) (conf : Conf) (rid : string).

Local Abbreviation I := (router_info_of conf rid).
Local Abbreviation D :=
  (Forall (fun e => in_scope rid (namespace_of conf rid) e = true)).

Ltac scope_hooks :=
  first [ apply _set_subnet_info_scope
        | apply internal_network_added_scope
        | apply internal_network_removed_scope
        | apply external_gateway_added_scope
        | apply external_gateway_removed_scope
        | apply floating_ip_added_scope
        | apply floating_ip_removed_scope ].

Lemma floating_ips_first_loop_scope gw existing l m :
  respects_from I D (floating_ips_first_loop env conf gw existing l m).
Proof.
  revert m. induction l as [|fip l IH]; intros m; cbn [floating_ips_first_loop].
  - from_with fail.
  - from_with ltac:(first [apply IH | scope_hooks]); scope_side.
Qed.

Lemma floating_ips_second_body_scope rm m fip :
  respects_from I D (floating_ips_second_body env conf rm m fip).
Proof.
  unfold floating_ips_second_body, remove_floating_ip.
  from_with scope_hooks; scope_side.
Qed.

Lemma floating_ips_second_loop_scope fuel i rm m :
  respects_from I D (floating_ips_second_loop env conf fuel i rm m).
Proof.
  revert i. induction fuel as [|fuel IH]; intros i;
    cbn [floating_ips_second_loop].
  - from_with fail.
  - from_with ltac:(first [apply IH | apply floating_ips_second_body_scope]).
Qed.

Lemma process_router_floating_ips_scope gw :
  respects_from I D (process_router_floating_ips env conf gw).
Proof.
  unfold process_router_floating_ips.
  from_with ltac:(first [ apply floating_ips_first_loop_scope
                        | apply floating_ips_second_loop_scope ]).
Qed.

Lemma process_router_scope : respects_from I D (process_router env conf).
Proof.
  unfold process_router, new_port_body, old_port_body, gateway_step,
    remove_internal_port, port_ip_cidr.
  from_with ltac:(first [ apply process_router_floating_ips_scope
                        | scope_hooks ]); scope_side.
Qed.

End ScopeOfProcessRouter.

(** * A batch stays within its routers *)

Lemma respects_from_ext {S A} (I : S -> Prop) D (m m' : M S A) :
  (forall h s, m h s = m' h s) ->
  respects_from I D m' -> respects_from I D m.
Proof. intros Heq Hm h s r s' d Hs H. rewrite Heq in H. by eapply Hm. Qed.

Lemma respects_from_weaken {S A} (I : S -> Prop) (D D' : list event -> Prop)
    (m : M S A) :
  (forall d, D d -> D' d) -> respects_from I D m -> respects_from I D' m.
Proof. intros HD Hm h s r s' d Hs H. apply Hm in H as [? ?]; auto. Qed.

Lemma from_for_each_in {S A} (I : S -> Prop) D `{!TraceClosed D}
    (l : list A) (body : A -> M S unit) :
  (forall x, x ∈ l -> respects_from I D (body x)) ->
  respects_from I D (for_each l body).
Proof.
  induction l as [|x l IH]; intros Hbody; cbn [for_each].
  - by apply from_ret.
  - apply from_bind; [done| |intros _].
    + apply Hbody, elem_of_cons. by left.
    + apply IH. intros y Hy. apply Hbody, elem_of_cons. by right.
Qed.

Lemma in_scope_of_router conf rid e :
  in_scope rid (namespace_of conf rid) e = true -> of_router conf rid e = true.
Proof. intros H. unfold of_router. by rewrite H. Qed.

Section BatchScope.

Context (env : Env) (conf : Conf) (K : string -> Prop).

Local Abbreviation IA := (fun a => registry_ok conf a /\ keys_in K a).

Lemma from_with_router {A} D `{!TraceClosed D} key (m : M RouterInfo.t A) :
  respects_from (router_info_of conf key) D m ->
  respects_from IA D (with_router key m).
Proof.
  intros Hm h a r a' d [Hreg HK]. unfold with_router.
  destruct (router_info a !! key) as [ri|] eqn:Hk.
  - destruct (m h ri) as [[r1 ri'] d1] eqn:H1. intros [= <- <- <-].
    apply Hm in H1 as [Hri' Hd]; [|by apply Hreg].
    split; [split|done].
    + intros k ri0. simpl. destruct (decide (key = k)) as [<-|Hne].
      * rewrite lookup_insert_eq. by intros [= <-].
      * rewrite lookup_insert_ne by done. apply Hreg.
    + intros k. simpl. destruct (decide (key = k)) as [<-|Hne].
      * intros _. apply HK. by rewrite Hk.
      * rewrite lookup_insert_ne by done. apply HK.
  - intros [= <- <- <-]. split; [done|apply trace_closed_nil].
Qed.

Lemma _router_added_from rid router :
  K rid ->
  respects_from IA (Forall (fun e => of_router conf rid e = true))
    (_router_added env conf rid router).
Proof.
  intros HK. unfold _router_added, _create_router_namespace,
    _spawn_metadata_proxy.
  from_with fail.
  all: try (apply Forall_singleton; unfold of_router, namespace_of, ns_name;
            simpl;
            repeat match goal with
                   | H : use_namespaces _ = _ |- _ => rewrite H
                   end;
            by rewrite ?bool_decide_eq_true_2).
  intros a [Hreg Hkeys]. split.
  - intros k ri. simpl. destruct (decide (rid = k)) as [<-|Hne].
    + rewrite lookup_insert_eq. by intros [= <-].
    + rewrite lookup_insert_ne by done. apply Hreg.
  - intros k. simpl. destruct (decide (rid = k)) as [<-|Hne]; [done|].
    rewrite lookup_insert_ne by done. apply Hkeys.
Qed.

Lemma _process_routers_body_unfold target r h a :
  _process_routers_body env conf target r h a
  = if acceptable conf target r then
      (a <- get ;;
       (if bool_decide (router_info a !! Router.id r = None)
        then _router_added env conf (Router.id r) None
        else ret tt) ;;
       with_router (Router.id r)
         (modify (RouterInfo.set_router (Some r)) ;; process_router env conf))
        h a
    else (Ok tt, a, []).
Proof.
  unfold _process_routers_body, acceptable.
  change (match Router.external_gateway_info r with
          | Some info => info
          | None => None
          end) with (ex_net_id_of r).
  destruct (Router.admin_state_up r); [|done].
  destruct (use_namespaces conf),
    (bool_decide (Router.id r = router_id conf)),
    (truthy (ex_net_id_of r)), (handle_internal_only_routers conf),
    (bool_decide (ex_net_id_of r = Some target)); done.
Qed.

Lemma _process_routers_body_from target routers r :
  r ∈ routers ->
  (forall r, r ∈ routers -> acceptable conf target r = true ->
             K (Router.id r)) ->
  respects_from IA (Forall (of_batch conf target routers))
    (_process_routers_body env conf target r).
Proof.
  intros Hr HK.
  destruct (acceptable conf target r) eqn:Hacc.
  - eapply respects_from_ext.
    { intros h s. rewrite _process_routers_body_unfold, Hacc. done. }
    assert (Hmine : forall d,
               Forall (fun e => of_router conf (Router.id r) e = true) d ->
               Forall (of_batch conf target routers) d).
    { intros d Hd. eapply Forall_impl; [exact Hd|].
      intros e He. right. by exists r. }
    from_with fail.
    + apply (respects_from_weaken _
               (Forall (fun e => of_router conf (Router.id r) e = true)));
        [exact Hmine|].
      apply _router_added_from. by apply HK.
    + apply from_with_router; [tc_solve|].
      apply (respects_from_weaken _
               (Forall (fun e => in_scope (Router.id r)
                                   (namespace_of conf (Router.id r)) e
                                 = true))).
      { intros d Hd. apply Hmine. eapply Forall_impl; [exact Hd|].
        intros e. apply in_scope_of_router. }
      from_with ltac:(apply process_router_scope). by intros ri [? ?].
  - eapply respects_from_ext.
    { intros h s. rewrite _process_routers_body_unfold, Hacc. done. }
    intros h s res s' d Hs [= <- <- <-]. by split.
Qed.

Lemma for_each_router_from target routers :
  (forall r, r ∈ routers -> acceptable conf target r = true ->
             K (Router.id r)) ->
  respects_from IA (Forall (of_batch conf target routers))
    (for_each routers (_process_routers_body env conf target)).
Proof.
  intros HK. apply from_for_each_in; [tc_solve|].
  intros r Hr. by apply _process_routers_body_from.
Qed.

End BatchScope.

Section ProcessRoutersTrace.

Context (env : Env) (conf : Conf).

Lemma bridge_check_run {B} (k : bool -> M Agent B) h a res a' d :
  bind (if str_truthy (external_network_bridge conf) then
          present <- query env (DeviceExists (external_network_bridge conf) None)
                       (fun h => env_device_exists env h
                                   (external_network_bridge conf) None) ;;
          ret (negb present)
        else ret false) k h a = (res, a', d) ->
  (d = bridge_check conf /\ a' = a /\ exists e, res = Raise e)
  \/ exists b d', k b (h ++ bridge_check conf) a = (res, a', d')
                  /\ d = bridge_check conf ++ d'.
Proof.
  unfold bridge_check. destruct (str_truthy _).
  - rewrite bind_assoc. unfold bind at 1. unfold query.
    destruct (raises env h (DeviceExists (external_network_bridge conf) None))
      as [e|].
    + intros [= <- <- <-]. left. eauto.
    + rewrite bind_ret.
      destruct (k _ _ _) as [[r1 a1] d1] eqn:Hk. intros [= <- <- <-].
      right. eauto.
  - rewrite bind_ret. intros H. right. exists false, d.
    by rewrite app_nil_r.
Qed.

Lemma _fetch_external_net_id_run h a res a' d :
  _fetch_external_net_id env conf h a = (res, a', d) ->
  a' = a /\ d = net_id_fetch conf
  /\ (str_truthy (gateway_external_network_id conf) = true ->
      res = Ok (gateway_external_network_id conf)).
Proof.
  unfold _fetch_external_net_id, net_id_fetch.
  destruct (str_truthy _).
  - by intros [= <- <- <-].
  - unfold try_except, get_external_network_id, query.
    destruct (raises env h _) as [e|].
    + destruct e as [| | | | | | |t|]; try by intros [= <- <- <-].
      destruct (String.eqb t _); by intros [= <- <- <-].
    + by intros [= <- <- <-].
Qed.

(** What a run of [_process_routers] looks like: the bridge check, the
    request for the external network when the run gets that far, then
    log lines and the work on the routers that are not skipped; the
    registry stays well formed and its keys stay within [K]. *)
Lemma _process_routers_trace (K : string -> string -> Prop) routers h a
    res a' d :
  registry_ok conf a ->
  (forall target, keys_in (K target) a) ->
  (forall target r, r ∈ routers -> acceptable conf target r = true ->
                    K target (Router.id r)) ->
  _process_routers env conf routers h a = (res, a', d) ->
  exists target f d1,
    registry_ok conf a' /\ keys_in (K target) a'
    /\ d = bridge_check conf ++ f ++ d1
    /\ (f = [] \/ f = net_id_fetch conf)
    /\ Forall (of_batch conf target routers) d1
    /\ (str_truthy (gateway_external_network_id conf) = true ->
        target = gateway_external_network_id conf).
Proof.
  intros Hreg Hkeys HK. unfold _process_routers. intros H.
  apply bridge_check_run in H as [(-> & -> & _)|(b & d' & H & ->)].
  { exists (gateway_external_network_id conf), [], [].
    rewrite app_nil_r. split_and?; eauto using Forall_nil. }
  destruct b.
  { injection H as <- <- <-.
    exists (gateway_external_network_id conf), [],
      [Log "error" ("The external network bridge '"
                    +:+ external_network_bridge conf
                    +:+ "' does not exist") None].
    split_and?; eauto using Forall_nil. apply Forall_singleton. by left. }
  apply bind_inv in H as [(t & s1 & d2 & d3 & H1 & H & ->)|(e & H1 & ->)].
  - apply _fetch_external_net_id_run in H1 as (-> & -> & Ht).
    apply (for_each_router_from env conf (K t)) in H as [[Hreg' Hkeys'] Hd];
      [|by apply HK|by split].
    exists t, (net_id_fetch conf), d3. split_and?; eauto using Forall_nil.
    intros Hs. specialize (Ht Hs). by injection Ht.
  - apply _fetch_external_net_id_run in H1 as (-> & -> & Ht).
    exists (gateway_external_network_id conf), (net_id_fetch conf), [].
    rewrite app_nil_r. split_and?; eauto using Forall_nil.
Qed.

End ProcessRoutersTrace.

(** * More properties of the agent *)

(** X1.  process_router stays within its router: on the RouterInfo of
    router [rid], made under [conf], every event it issues is a log line,
    a call on a device or an address in the router's own namespace (the
    root namespace when namespaces are off), a change to the nat table of
    the router's rules or their apply, or the entry into a hook for
    [rid]; so it takes no semaphore, sends no RPC, creates no namespace,
    starts no proxy and changes no filter rule.  The RouterInfo is still
    the one of [rid] afterwards, whatever the outcome. *)
Theorem process_router_isolated env conf rid h ri res ri' d :
  router_info_of conf rid ri ->
  process_router env conf h ri = (res, ri', d) ->
  router_info_of conf rid ri'
  /\ Forall (fun e => in_scope rid (namespace_of conf rid) e = true) d.
Proof. intros Hri H. by apply (process_router_scope env conf rid) in H. Qed.

Lemma process_router_isolated_witness :
  let run := process_router Scenario.env Scenario.conf []
               Scenario.ports_before in
  router_info_of Scenario.conf "r1" Scenario.ports_before
  /\ router_info_of Scenario.conf "r1" (snd (fst run))
  /\ Forall (fun e => in_scope "r1" (Some "qrouter-r1") e = true) (snd run).
Proof.
  intros run.
  assert (Hri : router_info_of Scenario.conf "r1" Scenario.ports_before)
    by (by split).
  assert (Hrun : run = (fst (fst run), snd (fst run), snd run))
    by (by vm_compute).
  split; [exact Hri|].
  exact (process_router_isolated Scenario.env Scenario.conf "r1" []
           Scenario.ports_before _ _ _ Hri Hrun).
Defined.

Lemma registry_ok_initial conf : registry_ok conf initial_agent.
Proof. intros k ri. simpl. by rewrite lookup_empty. Qed.

Lemma Forall_of_batch_log conf target routers d lvl msg e :
  Forall (of_batch conf target routers) d ->
  Forall (of_batch conf target routers) (d ++ [Log lvl msg e]).
Proof. intros Hd. apply Forall_app. split; [done|]. apply Forall_singleton. by left. Qed.

(** X2.  routers_updated on a batch that is not empty, from a registry
    that is well formed: it returns, the registry is well formed
    afterwards, and its trace is the semaphore taken, the check of the
    external bridge (when one is configured), the request for the
    external network (when the run gets that far and none is configured),
    then only log lines and events of routers of the batch that the loop
    does not skip, then the semaphore released.  With a configured
    external network, that network is the one the routers are tested
    against. *)
Theorem routers_updated_isolated env conf routers h a res a' d :
  registry_ok conf a -> routers <> [] ->
  routers_updated env conf routers h a = (res, a', d) ->
  res = Ok tt /\ registry_ok conf a'
  /\ exists target f d1,
       d = SemAcquire :: bridge_check conf ++ f ++ d1 ++ [SemRelease]
       /\ (f = [] \/ f = net_id_fetch conf)
       /\ Forall (of_batch conf target routers) d1
       /\ (str_truthy (gateway_external_network_id conf) = true ->
           target = gateway_external_network_id conf).
Proof.
  intros Hreg Hne. destruct routers as [|r routers]; [done|].
  rewrite routers_updated_cons. unfold with_sync_sem, try_except.
  destruct (_process_routers _ _ _ _ _) as [[[[]|e] a1] d1] eqn:Hp;
    apply (_process_routers_trace env conf (fun _ _ => True)) in Hp
      as (target & f & d2 & Hreg' & _ & -> & Hf & Hd & Ht); try done.
  - intros [= <- <- <-]. split; [done|]. split; [done|].
    exists target, f, d2. by rewrite <- !app_assoc.
  - rewrite bind_emit. unfold modify.
    intros [= <- <- <-]. split; [done|]. split; [done|].
    exists target, f,
      (d2 ++ [Log "debug" "Failed dealing with routers update RPC message"
                  None]).
    split; [by rewrite <- !app_assoc|].
    split; [done|]. split; [|done]. by apply Forall_of_batch_log.
Qed.

Lemma routers_updated_isolated_witness :
  let run := routers_updated Scenario.env_bad_port Scenario.conf
               [Scenario.ra; Scenario.rb] [] initial_agent in
  registry_ok Scenario.conf initial_agent
  /\ fst (fst run) = Ok tt
  /\ registry_ok Scenario.conf (snd (fst run))
  /\ exists target f d1,
       snd run = SemAcquire :: bridge_check Scenario.conf ++ f ++ d1
                   ++ [SemRelease]
       /\ Forall (of_batch Scenario.conf target [Scenario.ra; Scenario.rb]) d1.
Proof.
  intros run.
  assert (Hrun : run = (fst (fst run), snd (fst run), snd run))
    by (by vm_compute).
  destruct (routers_updated_isolated Scenario.env_bad_port Scenario.conf
              [Scenario.ra; Scenario.rb] [] initial_agent _ _ _
              (registry_ok_initial _) ltac:(done) Hrun)
    as (Hres & Hreg & target & f & d1 & Hd & _ & Hall & _).
  split; [apply registry_ok_initial|]. split; [exact Hres|].
  split; [exact Hreg|]. by exists target, f, d1.
Defined.

(** X3.  The periodic task when the flag is set, from a registry that is
    well formed: it returns and the registry is well formed afterwards.
    Either the fetch raised: the trace is the semaphore, the sync_routers
    message and the log line of the exception, and the registry is what
    it was, with the flag set.  Or the fetch returned: then follow the
    bridge check, the request for the external network, and only log
    lines and events of fetched routers that the loop does not skip; and
    every router in the registry afterwards is one of those fetched
    routers. *)
Theorem sync_routers_task_isolated env conf h a res a' d :
  registry_ok conf a -> fullsync a = true ->
  _sync_routers_task env conf h a = (res, a', d) ->
  let routers := env_sync_routers env (h ++ [SemAcquire]) in
  let msg := Rpc_sync_routers (host conf)
               (if negb (use_namespaces conf) then ArgStr (router_id conf)
                else ArgNone) None in
  res = Ok tt /\ registry_ok conf a'
  /\ ((exists e,
         d = [SemAcquire; msg;
              Log "exception" "Failed synchronizing routers" (Some e);
              SemRelease]
         /\ router_info a' = router_info a /\ fullsync a' = true)
      \/ exists target f d1,
           d = SemAcquire :: msg :: bridge_check conf ++ f ++ d1
                 ++ [SemRelease]
           /\ (f = [] \/ f = net_id_fetch conf)
           /\ Forall (of_batch conf target routers) d1
           /\ keys_in (fun k => exists r, r ∈ routers
                                  /\ acceptable conf target r = true
                                  /\ Router.id r = k) a').
Proof.
  intros Hreg Hflag. unfold _sync_routers_task, with_sync_sem.
  rewrite bind_get, Hflag. unfold try_except, get_routers.
  unfold bind at 1. unfold query.
  destruct (raises env (h ++ [SemAcquire]) _) as [e|].
  - rewrite bind_emit. unfold modify. intros [= <- <- <-]. cbn zeta.
    split; [done|]. split; [done|]. left. by exists e.
  - rewrite bind_modify.
    destruct (bind (_process_routers _ _ _) _ _ _) as [[r1 a1] d1] eqn:Hp.
    apply bind_inv in Hp
      as [([] & s2 & d2 & d3 & Hp & Hm & ->)|(e & Hp & ->)];
      apply (_process_routers_trace env conf
               (fun target k =>
                  exists r, r ∈ env_sync_routers env (h ++ [SemAcquire])
                            /\ acceptable conf target r = true
                            /\ Router.id r = k)) in Hp
        as (target & f & d4 & Hreg' & Hkeys & Hd & Hf & Hall & _);
      try done;
      try (intros target k [x Hx]; simpl in Hx;
           by rewrite lookup_empty in Hx);
      try (intros target r Hr Hacc; by exists r).
    + injection Hm as <- <- <-. subst d2. intros [= <- <- <-]. cbn zeta.
      split; [done|]. split; [done|]. right. exists target, f, d4.
      split; [|done]. simpl. by rewrite <- !app_assoc.
    + subst d1. rewrite bind_emit. unfold modify. intros [= <- <- <-]. cbn zeta.
      split; [done|]. split; [done|]. right.
      exists target, f,
        (d4 ++ [Log "exception" "Failed synchronizing routers" (Some e)]).
      split; [simpl; by rewrite <- !app_assoc|].
      split; [done|]. split; [by apply Forall_of_batch_log|done].
Qed.

Lemma sync_routers_task_isolated_witness :
  let e := Scenario.env_with_routers
             [Scenario.r1 false [] []; Scenario.ra] in
  let run := _sync_routers_task e Scenario.conf [] initial_agent in
  registry_ok Scenario.conf initial_agent
  /\ fullsync initial_agent = true
  /\ fst (fst run) = Ok tt
  /\ registry_ok Scenario.conf (snd (fst run)).
Proof.
  intros e run.
  assert (Hrun : run = (fst (fst run), snd (fst run), snd run))
    by (by vm_compute).
  destruct (sync_routers_task_isolated e Scenario.conf [] initial_agent
              _ _ _ (registry_ok_initial _) eq_refl Hrun)
    as (Hres & Hreg & _).
  split; [apply registry_ok_initial|]. by split.
Defined.

(** * Deleting a router *)

Lemma from_ret_bind {S A B} (I : S -> Prop) D (x : A) (k : A -> M S B) :
  respects_from I D (k x) -> respects_from I D (bind (ret x) k).
Proof.
  intros Hk. eapply respects_from_ext; [|exact Hk].
  intros h s. by rewrite bind_ret.
Qed.

Lemma from_raise_bind {S A B} (I : S -> Prop) D `{!TraceClosed D} e
    (k : A -> M S B) :
  respects_from I D (bind (raise e) k).
Proof.
  apply (respects_from_ext _ _ _ (raise e)); [|by apply from_raise].
  intros h s. by rewrite bind_raise_now.
Qed.

(** A step that leaves the state alone, then the rest: either the step
    raised, or the rest ran from the same state. *)
Lemma bind_same_state {S A B} (m : M S A) (k : A -> M S B) h s r s' d :
  respects eq (fun _ => True) m ->
  bind m k h s = (r, s', d) ->
  (s' = s /\ exists e, r = Raise e)
  \/ exists a d1 d2, k a (h ++ d1) s = (r, s', d2) /\ d = d1 ++ d2.
Proof.
  intros Hm H.
  apply bind_inv in H as [(x & s1 & d1 & d2 & H1 & H2 & ->)|(e & H1 & ->)].
  - apply Hm in H1 as [<- _]. right. by exists x, d1, d2.
  - apply Hm in H1 as [<- _]. left. eauto.
Qed.

Section RouterDeleted.

Context (env : Env) (conf : Conf).

Lemma _destroy_router_namespace_state ns :
  respects eq (fun _ => True) (_destroy_router_namespace env conf ns).
Proof. unfold _destroy_router_namespace. frame_auto. Qed.

Lemma _destroy_router_namespace_from (I : Agent -> Prop) rid :
  respects_from I (Forall (fun e => of_router conf rid e = true))
    (_destroy_router_namespace env conf (namespace_of conf rid)).
Proof.
  unfold _destroy_router_namespace. from_with fail.
  all: apply Forall_singleton; unfold of_router; simpl;
    by rewrite ?bool_decide_eq_true_2.
Qed.

Lemma registry_ok_delete rid a :
  registry_ok conf a ->
  registry_ok conf (set_router_info (delete rid (router_info a)) a).
Proof.
  intros Hreg k ri. simpl. intros Hk.
  apply lookup_delete_Some in Hk as [_ Hk]. by apply Hreg.
Qed.

Lemma _router_removed_from rid :
  respects_from (registry_ok conf)
    (Forall (fun e => of_router conf rid e = true))
    (_router_removed env conf rid).
Proof.
  unfold _router_removed. apply from_get_bind; try tc_solve. intros a Hreg.
  destruct (router_info a !! rid) as [ri|] eqn:Hk; cbn [of_option].
  - apply from_ret_bind.
    pose proof (ns_name_of _ _ _ (Hreg _ _ Hk)) as Hns.
    destruct (Hreg _ _ Hk) as [Hid _].
    unfold _destroy_metadata_proxy. rewrite Hns.
    from_with ltac:(apply _destroy_router_namespace_from).
    all: try (apply Forall_singleton; unfold of_router; simpl;
              by rewrite ?Hid, ?bool_decide_eq_true_2).
    apply registry_ok_delete.
  - apply from_raise_bind. tc_solve.
Qed.

Lemma _router_removed_state rid h a res a' d :
  _router_removed env conf rid h a = (res, a', d) ->
  a' = set_router_info (delete rid (router_info a)) a
  \/ (a' = a /\ exists e, res = Raise e).
Proof.
  unfold _router_removed. rewrite bind_get.
  destruct (router_info a !! rid) as [ri|]; cbn [of_option].
  - rewrite bind_ret. intros H.
    apply bind_same_state in H as [?|(? & ? & ? & H & _)];
      [by right| |frame_auto].
    apply bind_same_state in H as [?|(? & ? & ? & H & _)];
      [by right| |frame_auto].
    apply bind_same_state in H as [?|(? & ? & ? & H & _)];
      [by right| |frame_auto].
    apply bind_same_state in H as [?|(? & ? & ? & H & _)];
      [by right| |unfold _destroy_metadata_proxy; frame_auto].
    rewrite bind_modify in H.
    apply _destroy_router_namespace_state in H as [<- _]. by left.
  - rewrite bind_raise_now. intros [= <- <- <-]. right. eauto.
Qed.

End RouterDeleted.

(** X4.  router_deleted from a registry that is well formed: it returns
    and the registry is well formed afterwards; the entries of other
    routers are what they were; the router's own entry is gone, or it is
    what it was and the full-sync flag is set; a flag that was set stays
    set; for a router that is not in the registry nothing happens between
    taking and releasing the semaphore; and everything between the two
    semaphore events is an event of that router. *)
Theorem router_deleted_outcome env conf rid h a res a' d :
  registry_ok conf a ->
  router_deleted env conf rid h a = (res, a', d) ->
  res = Ok tt /\ registry_ok conf a'
  /\ (forall k, k <> rid -> router_info a' !! k = router_info a !! k)
  /\ (router_info a' !! rid = None
      \/ (router_info a' !! rid = router_info a !! rid
          /\ fullsync a' = true))
  /\ (fullsync a = true -> fullsync a' = true)
  /\ (router_info a !! rid = None -> a' = a /\ d = [SemAcquire; SemRelease])
  /\ exists d', d = SemAcquire :: d' ++ [SemRelease]
                /\ Forall (fun e => of_router conf rid e = true) d'.
Proof.
  intros Hreg. unfold router_deleted, with_sync_sem. rewrite bind_get.
  case_bool_decide as Hk.
  - unfold try_except.
    destruct (_router_removed _ _ _ _ _) as [[[[]|e] a1] d1] eqn:Hr.
    + intros [= <- <- <-].
      pose proof Hr as Hst. apply _router_removed_state in Hst
        as [->|(_ & e & [=])].
      apply _router_removed_from in Hr as [Hreg' Hd]; [|done].
      split; [done|]. split; [done|]. simpl.
      split; [intros k Hne; by rewrite lookup_delete_ne|].
      split; [left; by rewrite lookup_delete_eq|]. split; [done|].
      split; [intros Hnone; rewrite Hnone in Hk; by destruct Hk|].
      by exists d1.
    + rewrite bind_emit. unfold modify. intros [= <- <- <-].
      pose proof Hr as Hst. apply _router_removed_state in Hst as [->| [-> _]];
        apply _router_removed_from in Hr as [Hreg' Hd]; try done.
      * split; [done|]. split; [done|]. simpl.
        split; [intros k Hne; by rewrite lookup_delete_ne|].
        split; [left; by rewrite lookup_delete_eq|]. split; [done|].
        split; [intros Hnone; rewrite Hnone in Hk; by destruct Hk|].
        eexists. split; [reflexivity|].
        apply Forall_app. split; [done|]. by apply Forall_singleton.
      * split; [done|]. split; [done|]. simpl.
        split; [done|]. split; [by right|]. split; [done|].
        split; [intros Hnone; rewrite Hnone in Hk; by destruct Hk|].
        eexists. split; [reflexivity|].
        apply Forall_app. split; [done|]. by apply Forall_singleton.
  - intros [= <- <- <-]. split; [done|]. split; [done|].
    split; [done|]. split.
    { left. by apply eq_None_not_Some. }
    split; [done|]. split; [done|]. by exists [].
Qed.

Lemma registry_ok_check conf a :
  bool_decide (map_Forall (fun k ri => router_info_of conf k ri)
                          (router_info a)) = true ->
  registry_ok conf a.
Proof. intros H k ri Hk. apply bool_decide_eq_true_1 in H. by apply H. Qed.

Lemma router_deleted_outcome_witness :
  let run := router_deleted Host.env Scenario.conf "r1" [] Host.with_r1 in
  registry_ok Scenario.conf Host.with_r1
  /\ fst (fst run) = Ok tt
  /\ router_info (snd (fst run)) !! "r1" = None
  /\ Forall (fun e => of_router Scenario.conf "r1" e = true)
       (removelast (tail (snd run))).
Proof.
  intros run.
  assert (Hreg : registry_ok Scenario.conf Host.with_r1)
    by (apply registry_ok_check; by vm_compute).
  assert (Hrun : run = (fst (fst run), snd (fst run), snd run))
    by (by vm_compute).
  destruct (router_deleted_outcome Host.env Scenario.conf "r1" []
              Host.with_r1 _ _ _ Hreg Hrun)
    as (Hres & _ & _ & _ & _ & _ & d' & Hd & Hall).
  split; [exact Hreg|]. split; [exact Hres|]. split; [by vm_compute|].
  rewrite Hd. simpl. by rewrite removelast_last.
Defined.

(** * Tearing a namespace down *)

Section Teardown.

Context (env : Env) (conf : Conf).

Lemma bind_call_inv {S B} ev (k : unit -> M S B) h s r s' d :
  bind (call env ev) k h s = (r, s', d) ->
  (exists e, raises env h ev = Some e /\ r = Raise e /\ s' = s /\ d = [ev])
  \/ (raises env h ev = None
      /\ exists d', k tt (h ++ [ev]) s = (r, s', d') /\ d = ev :: d').
Proof.
  unfold bind at 1. unfold call, query.
  destruct (raises env h ev) as [e|].
  - intros [= <- <- <-]. left. by exists e.
  - destruct (k tt _ s) as [[r1 s1] d1] eqn:Hk. intros [= <- <- <-].
    right. split; [done|]. by exists d1.
Qed.

Lemma teardown_loop_run ns devices h (a : Agent) res a' d :
  for_each devices (fun d =>
    if starts_with INTERNAL_DEV_PREFIX d
    then call env (Unplug d None ns INTERNAL_DEV_PREFIX)
    else if starts_with EXTERNAL_DEV_PREFIX d
    then call env (Unplug d (Some (external_network_bridge conf)) ns
                          EXTERNAL_DEV_PREFIX)
    else ret tt) h a = (res, a', d) ->
  a' = a
  /\ d `prefix_of` omap (unplug_of conf ns) devices
  /\ (res = Ok tt -> d = omap (unplug_of conf ns) devices)
  /\ (quiet env -> res = Ok tt).
Proof.
  revert h d. induction devices as [|x l IH]; intros h d; cbn [for_each].
  - by intros [= <- <- <-].
  - intros H. cbn [omap list_omap].
    change (unplug_of conf ns x)
      with (if starts_with INTERNAL_DEV_PREFIX x
            then Some (Unplug x None ns INTERNAL_DEV_PREFIX)
            else if starts_with EXTERNAL_DEV_PREFIX x
            then Some (Unplug x (Some (external_network_bridge conf)) ns
                              EXTERNAL_DEV_PREFIX)
            else None).
    destruct (starts_with INTERNAL_DEV_PREFIX x);
      [|destruct (starts_with EXTERNAL_DEV_PREFIX x)];
      [| |rewrite bind_ret in H; by apply IH in H];
      (apply bind_call_inv in H
         as [(e & Hr & -> & -> & ->)|(Hr & d' & H & ->)];
       [ split; [done|]; split; [by apply prefix_cons, prefix_nil|];
         split; [done|]; intros Hq; by rewrite Hq in Hr
       | apply IH in H as (-> & Hp & Hok & Hq);
         split; [done|]; split; [by apply prefix_cons|];
         split; [intros Hres; by rewrite (Hok Hres)|done] ]).
Qed.

Lemma _destroy_router_namespace_run ns h a res a' d :
  _destroy_router_namespace env conf ns h a = (res, a', d) ->
  a' = a
  /\ exists us,
       d = GetDevices ns :: us
       /\ us `prefix_of` omap (unplug_of conf ns) (env_get_devices env h ns)
       /\ (res = Ok tt ->
           us = omap (unplug_of conf ns) (env_get_devices env h ns))
       /\ (quiet env -> res = Ok tt).
Proof.
  unfold _destroy_router_namespace. unfold bind at 1. unfold query.
  destruct (raises env h (GetDevices ns)) as [e|] eqn:Hr.
  - intros [= <- <- <-]. split; [done|]. exists [].
    split; [done|]. split; [apply prefix_nil|]. split; [done|].
    intros Hq. by rewrite Hq in Hr.
  - destruct (for_each _ _ _ a) as [[r1 a1] d1] eqn:Hl.
    intros [= <- <- <-].
    apply teardown_loop_run in Hl as (-> & Hp & Hok & Hq).
    split; [done|]. by exists d1.
Qed.

End Teardown.

(** X5.  _destroy_router_namespace lists the devices of the namespace
    and unplugs, in the order of the listing, those whose name starts
    with "qr-" (from the default bridge) or "qg-" (from the external
    bridge): its trace is the listing followed by a prefix of these
    unplug calls, all of them when it returns; it returns on a host on
    which no call raises; it never changes the agent's state, and it
    never touches a device with another name. *)
Theorem destroy_router_namespace_unplugs env conf ns h a res a' d :
  _destroy_router_namespace env conf ns h a = (res, a', d) ->
  a' = a
  /\ exists us,
       d = GetDevices ns :: us
       /\ us `prefix_of` omap (unplug_of conf ns) (env_get_devices env h ns)
       /\ (res = Ok tt ->
           us = omap (unplug_of conf ns) (env_get_devices env h ns))
       /\ (quiet env -> res = Ok tt).
Proof. apply _destroy_router_namespace_run. Qed.

Lemma destroy_router_namespace_unplugs_witness :
  let ns := Some "qrouter-r1" in
  let run := _destroy_router_namespace Host.env Scenario.conf ns []
               initial_agent in
  run = (Ok tt, initial_agent,
         [GetDevices ns; Unplug "qr-pa" None ns "qr-";
          Unplug "qg-g1" (Some "br-ex") ns "qg-"]).
Proof.
  intros ns run.
  assert (Hrun : run = (fst (fst run), snd (fst run), snd run))
    by (by vm_compute).
  destruct (destroy_router_namespace_unplugs Host.env Scenario.conf ns []
              initial_agent _ _ _ Hrun) as (Ha & us & Hd & _ & _ & Hq).
  rewrite Hrun, Ha, Hd, (Hq (fun _ _ => eq_refl)). f_equal.
  rewrite Hd in Hrun. by vm_compute.
Defined.

Lemma substring_length n s :
  String.length (String.substring 0 n s) <= n.
Proof.
  revert s. induction n as [|n IH]; intros [|c s]; simpl; try lia.
  specialize (IH s). lia.
Qed.

(** X6.  Device names.  With a driver whose names have room for the
    prefix (DEV_NAME_LEN of at least 3), the name the agent gives to the
    device of a port is no longer than DEV_NAME_LEN and keeps its prefix,
    so that _destroy_router_namespace recognises it: a listed internal
    device is unplugged with the arguments it was plugged with (no
    bridge, prefix "qr-"), a listed external device with the external
    bridge and the prefix "qg-". *)
Theorem device_names_recognised env conf ns port_id :
  3 <= DEV_NAME_LEN env ->
  String.length (get_internal_device_name env port_id) <= DEV_NAME_LEN env
  /\ String.length (get_external_device_name env port_id) <= DEV_NAME_LEN env
  /\ unplug_of conf ns (get_internal_device_name env port_id)
     = Some (Unplug (get_internal_device_name env port_id) None ns
                    INTERNAL_DEV_PREFIX)
  /\ unplug_of conf ns (get_external_device_name env port_id)
     = Some (Unplug (get_external_device_name env port_id)
                    (Some (external_network_bridge conf)) ns
                    EXTERNAL_DEV_PREFIX).
Proof.
  intros Hlen. unfold get_internal_device_name, get_external_device_name.
  split; [apply substring_length|]. split; [apply substring_length|].
  destruct (DEV_NAME_LEN env) as [|[|[|n]]]; try lia.
  unfold unplug_of, starts_with, INTERNAL_DEV_PREFIX, EXTERNAL_DEV_PREFIX.
  simpl. by destruct (substring 0 n _).
Qed.

Lemma device_names_recognised_witness :
  3 <= DEV_NAME_LEN Scenario.env
  /\ get_internal_device_name Scenario.env
       "0a1b2c3d-4e5f-6789-abcd-ef0123456789" = "qr-0a1b2c3d-4e"
  /\ unplug_of Scenario.conf None
       (get_external_device_name Scenario.env
          "0a1b2c3d-4e5f-6789-abcd-ef0123456789")
     = Some (Unplug "qg-0a1b2c3d-4e" (Some "br-ex") None "qg-").
Proof.
  assert (Hlen : 3 <= DEV_NAME_LEN Scenario.env) by (simpl; lia).
  destruct (device_names_recognised Scenario.env Scenario.conf None
              "0a1b2c3d-4e5f-6789-abcd-ef0123456789" Hlen)
    as (_ & _ & _ & Hext).
  split; [exact Hlen|]. split; [reflexivity|]. exact Hext.
Defined.

Section DestroyAll.

Context (env : Env) (conf : Conf).

Lemma _destroy_router_namespace_events ns h a res a' d :
  _destroy_router_namespace env conf ns h a = (res, a', d) ->
  GetDevices ns ∈ d
  /\ Forall (fun e => teardown_namespace e = Some ns) d.
Proof.
  intros H. apply _destroy_router_namespace_run in H
    as (_ & us & -> & Hp & _).
  split; [apply elem_of_cons; by left|].
  apply Forall_cons. split; [done|].
  destruct Hp as [k Hk].
  assert (Hall : Forall (fun e => teardown_namespace e = Some ns)
                   (omap (unplug_of conf ns) (env_get_devices env h ns))).
  { apply Forall_forall. intros e He.
    apply list_elem_of_omap in He as (x & _ & Hx).
    unfold unplug_of in Hx.
    destruct (starts_with INTERNAL_DEV_PREFIX x);
      [|destruct (starts_with EXTERNAL_DEV_PREFIX x)]; by simplify_eq. }
  rewrite Hk in Hall. by apply Forall_app in Hall as [? _].
Qed.

End DestroyAll.

(** X7.  _destroy_all_router_namespaces, given the namespaces of the
    host: it returns whatever the host does and leaves the agent's state
    alone; apart from log lines it only lists and unplugs devices, and
    only in listed namespaces whose name starts with "qrouter-"; and it
    gets to every such namespace, also after the teardown of an earlier
    one has failed. *)
Theorem destroy_all_router_namespaces_outcome env conf namespaces h a
    res a' d :
  _destroy_all_router_namespaces env conf namespaces h a = (res, a', d) ->
  res = Ok tt /\ a' = a
  /\ Forall (fun e =>
               is_log e = true
               \/ exists ns, ns ∈ namespaces
                             /\ starts_with NS_PREFIX ns = true
                             /\ teardown_namespace e = Some (Some ns)) d
  /\ (forall ns, ns ∈ namespaces -> starts_with NS_PREFIX ns = true ->
                 GetDevices (Some ns) ∈ d).
Proof.
  unfold _destroy_all_router_namespaces.
  revert h d. induction namespaces as [|x l IH]; intros h d; cbn [for_each].
  - intros [= <- <- <-]. split; [done|]. split; [done|].
    split; [done|]. intros ns Hns. by apply elem_of_nil in Hns.
  - intros H.
    assert (Hx : exists d1,
               (if starts_with NS_PREFIX x
                then try_except
                       (_destroy_router_namespace env conf (Some x))
                       (fun e =>
                          emit (Log "exception"
                                    ("Failed deleting namespace '" +:+ x
                                     +:+ "'") (Some e)))
                else ret tt) h a = (Ok tt, a, d1)
               /\ Forall (fun e =>
                            is_log e = true
                            \/ (starts_with NS_PREFIX x = true
                                /\ teardown_namespace e = Some (Some x))) d1
               /\ (starts_with NS_PREFIX x = true ->
                   GetDevices (Some x) ∈ d1)).
    { destruct (starts_with NS_PREFIX x) eqn:Hpre.
      - unfold try_except.
        destruct (_destroy_router_namespace _ _ _ _ _)
          as [[[[]|e] a1] d1] eqn:Hd.
        + pose proof Hd as Hst.
          apply _destroy_router_namespace_state in Hst as [<- _].
          apply _destroy_router_namespace_events in Hd as [Hin Hall].
          exists d1. split; [done|]. split; [|done].
          eapply Forall_impl; [exact Hall|]. intros e He. by right.
        + pose proof Hd as Hst.
          apply _destroy_router_namespace_state in Hst as [<- _].
          apply _destroy_router_namespace_events in Hd as [Hin Hall].
          eexists. split; [reflexivity|]. split.
          * apply Forall_app. split.
            -- eapply Forall_impl; [exact Hall|]. intros e' He. by right.
            -- apply Forall_singleton. by left.
          * intros _. apply elem_of_app. by left.
      - exists []. split; [done|]. split; [done|]. done. }
    destruct Hx as (d1 & Hx & Hall1 & Hin1).
    rewrite (bind_ok _ _ _ _ _ _ _ Hx) in H.
    destruct (for_each l _ _ a) as [[r2 a2] d2] eqn:Hl.
    injection H as <- <- <-.
    apply IH in Hl as (-> & -> & Hall2 & Hin2).
    split; [done|]. split; [done|]. split.
    + apply Forall_app. split.
      * eapply Forall_impl; [exact Hall1|].
        intros e [He|[Hpre He]]; [by left|]. right. exists x.
        split; [apply elem_of_cons; by left|done].
      * eapply Forall_impl; [exact Hall2|].
        intros e [He|(ns & Hns & Hpre & He)]; [by left|]. right. exists ns.
        split; [apply elem_of_cons; by right|done].
    + intros ns Hns Hpre. apply elem_of_app.
      apply elem_of_cons in Hns as [->|Hns]; [left; by apply Hin1|].
      right. by apply Hin2.
Qed.

Lemma destroy_all_router_namespaces_outcome_witness :
  let run := _destroy_all_router_namespaces Host.env_stuck Scenario.conf
               ["qrouter-r1"; "qdhcp-n1"; "qrouter-r2"] [] initial_agent in
  fst (fst run) = Ok tt
  /\ GetDevices (Some "qrouter-r2") ∈ snd run
  /\ snd run
     = [GetDevices (Some "qrouter-r1");
        Unplug "qr-pa" None (Some "qrouter-r1") "qr-";
        Log "exception" "Failed deleting namespace 'qrouter-r1'"
            (Some (OtherError "unplug failed"));
        GetDevices (Some "qrouter-r2");
        Unplug "qr-pb" None (Some "qrouter-r2") "qr-"].
Proof.
  intros run.
  assert (Hrun : run = (fst (fst run), snd (fst run), snd run))
    by (by vm_compute).
  destruct (destroy_all_router_namespaces_outcome Host.env_stuck
              Scenario.conf ["qrouter-r1"; "qdhcp-n1"; "qrouter-r2"] []
              initial_agent _ _ _ Hrun) as (Hres & _ & _ & Hin).
  split; [exact Hres|]. split; [|by vm_compute].
  apply Hin; [|done]. apply (bool_decide_unpack _). by vm_compute.
Defined.

Section QuietHost.

Context (env : Env) (conf : Conf).

Lemma call_quiet {S} ev h (s : S) :
  quiet env -> call env ev h s = (Ok tt, s, [ev]).
Proof. intros Hq. unfold call, query. by rewrite Hq. Qed.

Lemma for_each_call_quiet {S A} (f : A -> event) (l : list A) h (s : S) :
  quiet env ->
  for_each l (fun x => call env (f x)) h s = (Ok tt, s, f <$> l).
Proof.
  intros Hq. revert h. induction l as [|x l IH]; intros h; cbn [for_each].
  - done.
  - rewrite (bind_ok _ _ _ _ _ _ _ (call_quiet _ _ _ Hq)). by rewrite IH.
Qed.

Lemma _router_removed_quiet rid ri h a :
  quiet env -> router_info a !! rid = Some ri ->
  let rules :=
    ((fun cr => RemoveRule rid "filter" cr.1 cr.2)
       <$> metadata_filter_rules conf)
    ++ ((fun cr => RemoveRule rid "nat" cr.1 cr.2)
          <$> metadata_nat_rules conf)
    ++ [Apply rid; ProxyDisable (RouterInfo.router_id ri) (ns_name ri)] in
  _router_removed env conf rid h a
  = (Ok tt, set_router_info (delete rid (router_info a)) a,
     rules ++ GetDevices (ns_name ri)
       :: omap (unplug_of conf (ns_name ri))
               (env_get_devices env (h ++ rules) (ns_name ri))).
Proof.
  intros Hq Hk rules. unfold _router_removed.
  rewrite bind_get, Hk. cbn [of_option]. rewrite bind_ret.
  rewrite (bind_ok _ _ _ _ _ _ _ (for_each_call_quiet _ _ _ _ Hq)).
  rewrite (bind_ok _ _ _ _ _ _ _ (for_each_call_quiet _ _ _ _ Hq)).
  rewrite (bind_ok _ _ _ _ _ _ _ (call_quiet _ _ _ Hq)).
  unfold _destroy_metadata_proxy.
  rewrite (bind_ok _ _ _ _ _ _ _ (call_quiet _ _ _ Hq)).
  rewrite bind_modify.
  destruct (_destroy_router_namespace _ _ _ _ _) as [[r1 a1] d1] eqn:Hd.
  apply _destroy_router_namespace_run in Hd
    as (-> & us & -> & _ & Hok & Hres).
  rewrite (Hres Hq) in *. rewrite (Hok eq_refl).
  unfold rules. rewrite <- !app_assoc. simpl. by rewrite <- ?app_assoc.
Qed.

End QuietHost.

(** X8.  router_deleted for a router of the registry, on a host on which
    no call raises: it returns, the router's entry is gone and nothing
    else of the state has changed (the full-sync flag included), and the
    trace is, between the semaphore events: the metadata rules removed
    from the filter and the nat table, the apply, the metadata proxy
    stopped, the devices of the router's namespace listed, and those
    with the agent's prefixes unplugged. *)
Theorem router_deleted_quiet_host env conf rid ri h a :
  quiet env -> router_info a !! rid = Some ri ->
  let rules :=
    ((fun cr => RemoveRule rid "filter" cr.1 cr.2)
       <$> metadata_filter_rules conf)
    ++ ((fun cr => RemoveRule rid "nat" cr.1 cr.2)
          <$> metadata_nat_rules conf)
    ++ [Apply rid; ProxyDisable (RouterInfo.router_id ri) (ns_name ri)] in
  router_deleted env conf rid h a
  = (Ok tt, set_router_info (delete rid (router_info a)) a,
     SemAcquire
       :: (rules ++ GetDevices (ns_name ri)
             :: omap (unplug_of conf (ns_name ri))
                     (env_get_devices env ((h ++ [SemAcquire]) ++ rules)
                                      (ns_name ri)))
       ++ [SemRelease]).
Proof.
  intros Hq Hk rules. unfold router_deleted, with_sync_sem.
  rewrite bind_get, bool_decide_eq_true_2 by (by rewrite Hk).
  unfold try_except. by rewrite (_router_removed_quiet env conf rid ri _ _ Hq Hk).
Qed.

Lemma router_deleted_quiet_host_witness :
  router_deleted Host.env Scenario.conf "r1" [] Host.with_r1
  = (Ok tt, initial_agent,
     [SemAcquire;
      RemoveRule "r1" "filter" "INPUT"
        "-s 0.0.0.0/0 -d 127.0.0.1 -p tcp -m tcp --dport 9697 -j ACCEPT";
      RemoveRule "r1" "nat" "PREROUTING"
        "-s 0.0.0.0/0 -d 169.254.169.254/32 -p tcp -m tcp --dport 80 -j REDIRECT --to-port 9697";
      Apply "r1"; ProxyDisable "r1" (Some "qrouter-r1");
      GetDevices (Some "qrouter-r1");
      Unplug "qr-pa" None (Some "qrouter-r1") "qr-";
      Unplug "qg-g1" (Some "br-ex") (Some "qrouter-r1") "qg-";
      SemRelease]).
Proof.
  assert (Hk : is_Some (router_info Host.with_r1 !! "r1"))
    by (eexists; vm_compute; reflexivity).
  destruct Hk as [ri Hk].
  rewrite (router_deleted_quiet_host Host.env Scenario.conf "r1" ri []
             Host.with_r1 (fun _ _ => eq_refl) Hk).
  assert (Hri : router_info Host.with_r1 !! "r1" = Some ri) by exact Hk.
  vm_compute in Hk. injection Hk as <-. by vm_compute.
Defined.

(** * What a batch leaves alone *)

Lemma in_scope_not_setup r ns rid e :
  in_scope r ns e = true -> is_setup rid e = false.
Proof.
  destruct e; try done. simpl.
  intros [_ Ht]%andb_true_iff. apply String.eqb_eq in Ht as ->.
  by rewrite andb_false_r.
Qed.

Lemma of_router_not_setup conf r rid e :
  r <> rid -> of_router conf r e = true -> is_setup rid e = false.
Proof.
  intros Hne. unfold of_router. intros [H|H]%orb_true_iff.
  { by eapply in_scope_not_setup. }
  destruct e; try done; simpl in *.
  - destruct name as [n|]; [|done]. apply bool_decide_eq_true_1 in H.
    unfold namespace_of in H. destruct (use_namespaces conf); [|done].
    injection H as ->. apply String.eqb_neq. unfold NS_PREFIX. simpl.
    intros [= ?]. done.
  - apply bool_decide_eq_true_1 in H as ->.
    by rewrite bool_decide_eq_false_2.
  - apply andb_true_iff in H as [H _]. apply bool_decide_eq_true_1 in H as ->.
    by rewrite bool_decide_eq_false_2.
Qed.

Section Skips.

Context (env : Env) (conf : Conf).

Lemma _process_routers_body_known target r rid h a res a' d :
  registry_ok conf a -> is_Some (router_info a !! rid) ->
  _process_routers_body env conf target r h a = (res, a', d) ->
  registry_ok conf a' /\ is_Some (router_info a' !! rid)
  /\ Forall (fun e => is_setup rid e = false) d.
Proof.
  intros Hreg Hk H.
  pose proof H as Hst.
  apply _process_routers_body_touches_only in Hst as [(_ & _ & Hmono) _].
  pose proof H as Hfrom.
  apply (_process_routers_body_from env conf (fun _ => True) target [r])
    in Hfrom as [[Hreg' _] Hd]; [|apply list_elem_of_singleton; done|done|done].
  split; [done|]. split; [by apply Hmono|].
  destruct (decide (Router.id r = rid)) as [Hid|Hid].
  - rewrite _process_routers_body_unfold in H.
    destruct (acceptable conf target r); [|by injection H as <- <- <-].
    rewrite bind_get in H.
    rewrite bool_decide_eq_false_2 in H
      by (rewrite Hid; by apply not_eq_None_Some).
    rewrite bind_ret in H.
    apply (from_with_router conf (fun _ => True)
             (Forall (fun e => in_scope (Router.id r)
                                 (namespace_of conf (Router.id r)) e = true)))
      in H as [_ Hd']; [| |done].
    + eapply Forall_impl; [exact Hd'|]. intros e. apply in_scope_not_setup.
    + from_with ltac:(apply process_router_scope). by intros ri [? ?].
  - eapply Forall_impl; [exact Hd|].
    intros e [He|(r' & ->%list_elem_of_singleton & _ & He)].
    + by destruct e.
    + by eapply of_router_not_setup.
Qed.

Lemma for_each_router_known target routers rid h a res a' d :
  registry_ok conf a -> is_Some (router_info a !! rid) ->
  for_each routers (_process_routers_body env conf target) h a
    = (res, a', d) ->
  Forall (fun e => is_setup rid e = false) d.
Proof.
  revert h a d. induction routers as [|r routers IH]; intros h a d Hreg Hk;
    cbn [for_each].
  - by intros [= <- <- <-].
  - intros H.
    apply bind_inv in H as [([] & s1 & d1 & d2 & H1 & H2 & ->)|(e & H1 & _)];
      apply _process_routers_body_known with (rid := rid) in H1
        as (Hreg1 & Hk1 & Hd1); try done.
    apply Forall_app. split; [done|]. by eapply IH.
Qed.

Lemma for_each_router_skips target routers k h a res a' d :
  (forall r, r ∈ routers -> Router.id r = k ->
             acceptable conf target r = false) ->
  for_each routers (_process_routers_body env conf target) h a
    = (res, a', d) ->
  router_info a' !! k = router_info a !! k.
Proof.
  revert h a d. induction routers as [|r routers IH]; intros h a d Hk;
    cbn [for_each].
  - by intros [= _ <- _].
  - intros H.
    assert (Hr : forall h0 a0 r0 a1 d1,
               _process_routers_body env conf target r h0 a0 = (r0, a1, d1) ->
               router_info a1 !! k = router_info a0 !! k).
    { intros h0 a0 r0 a1 d1 H0.
      destruct (decide (Router.id r = k)) as [Hid|Hid].
      - rewrite _process_routers_body_unfold, Hk in H0
          by (by try (apply elem_of_cons; left)).
        by injection H0 as _ <- _.
      - apply _process_routers_body_touches_only in H0 as [(_ & Ho & _) _].
        by apply Ho. }
    apply bind_inv in H as [([] & s1 & d1 & d2 & H1 & H2 & ->)|(e & H1 & _)].
    + apply Hr in H1. apply IH in H2.
      * congruence.
      * intros r0 Hr0. apply Hk, elem_of_cons. by right.
    + by apply Hr in H1.
Qed.

(** The run of [_process_routers] up to the loop: either it ends before
    the loop, with the state it started from and at most a log line
    after the bridge check and the fetch, or the loop runs from that
    state against the target that was fetched. *)
Lemma _process_routers_loop routers h a res a' d :
  _process_routers env conf routers h a = (res, a', d) ->
  (a' = a
   /\ exists f l, d = bridge_check conf ++ f ++ l
                  /\ (f = [] \/ f = net_id_fetch conf)
                  /\ Forall (fun e => is_log e = true) l)
  \/ exists target h' d',
       for_each routers (_process_routers_body env conf target) h' a
       = (res, a', d')
       /\ d = bridge_check conf ++ net_id_fetch conf ++ d'
       /\ (str_truthy (gateway_external_network_id conf) = true ->
           target = gateway_external_network_id conf).
Proof.
  unfold _process_routers. intros H.
  apply bridge_check_run in H as [(-> & -> & _)|(b & d' & H & ->)].
  { left. split; [done|]. exists [], []. rewrite app_nil_r. auto. }
  destruct b.
  { injection H as <- <- <-. left. split; [done|].
    eexists [], _. split; [reflexivity|]. split; [by left|].
    by apply Forall_singleton. }
  apply bind_inv in H as [(t & s1 & d2 & d3 & H1 & H & ->)|(e & H1 & ->)].
  - apply _fetch_external_net_id_run in H1 as (-> & -> & Ht).
    right. exists t, ((h ++ bridge_check conf) ++ net_id_fetch conf), d3.
    split; [done|]. split; [done|].
    intros Hs. specialize (Ht Hs). by injection Ht.
  - apply _fetch_external_net_id_run in H1 as (-> & -> & Ht).
    left. split; [done|]. exists (net_id_fetch conf), [].
    rewrite app_nil_r. auto.
Qed.

End Skips.

Section RoutersUpdatedMore.

Context (env : Env) (conf : Conf).

Lemma _process_routers_monotone routers h a res a' d :
  _process_routers env conf routers h a = (res, a', d) ->
  fullsync a' = fullsync a
  /\ forall k, is_Some (router_info a !! k) -> is_Some (router_info a' !! k).
Proof.
  intros H. apply _process_routers_loop in H
    as [(-> & _)|(target & h' & d' & H & _)]; [done|].
  by apply for_each_router_monotone in H.
Qed.

Lemma preamble_not_setup rid f l :
  (f = [] \/ f = net_id_fetch conf) ->
  Forall (fun e => is_log e = true) l ->
  Forall (fun e => is_setup rid e = false) (bridge_check conf ++ f ++ l).
Proof.
  intros Hf Hl. apply Forall_app. split; [|apply Forall_app; split].
  - unfold bridge_check. destruct (str_truthy _); by repeat constructor.
  - destruct Hf as [->| ->]; [done|]. unfold net_id_fetch.
    destruct (str_truthy _); by repeat constructor.
  - eapply Forall_impl; [exact Hl|]. intros e He. by destruct e.
Qed.

Lemma _process_routers_known routers rid h a res a' d :
  registry_ok conf a -> is_Some (router_info a !! rid) ->
  _process_routers env conf routers h a = (res, a', d) ->
  Forall (fun e => is_setup rid e = false) d.
Proof.
  intros Hreg Hk H. apply _process_routers_loop in H
    as [(-> & f & l & -> & Hf & Hl)|(target & h' & d' & H & -> & _)].
  - by apply preamble_not_setup.
  - rewrite app_assoc. apply Forall_app. split.
    + rewrite <- (app_nil_r (_ ++ _)), <- app_assoc.
      apply preamble_not_setup; [by right|done].
    + by eapply for_each_router_known.
Qed.

Lemma _process_routers_skips routers k h a res a' d :
  (forall target r,
      (str_truthy (gateway_external_network_id conf) = true ->
       target = gateway_external_network_id conf) ->
      r ∈ routers -> Router.id r = k -> acceptable conf target r = false) ->
  _process_routers env conf routers h a = (res, a', d) ->
  router_info a' !! k = router_info a !! k.
Proof.
  intros Hk H. apply _process_routers_loop in H
    as [(-> & _)|(target & h' & d' & H & _ & Ht)]; [done|].
  eapply for_each_router_skips; [|exact H]. intros r. by apply Hk.
Qed.

Lemma routers_updated_run routers h a res a' d :
  routers_updated env conf routers h a = (res, a', d) ->
  (routers = [] /\ res = Ok tt /\ a' = a /\ d = [])
  \/ exists r1 a1 d1,
       routers <> []
       /\ _process_routers env conf routers (h ++ [SemAcquire]) a
          = (r1, a1, d1)
       /\ res = Ok tt
       /\ ((r1 = Ok tt /\ a' = a1 /\ d = SemAcquire :: d1 ++ [SemRelease])
           \/ ((exists e, r1 = Raise e) /\ a' = set_fullsync true a1
               /\ d = SemAcquire
                      :: (d1 ++ [Log "debug"
                                   "Failed dealing with routers update RPC message"
                                   None])
                      ++ [SemRelease])).
Proof.
  destruct routers as [|r routers].
  { intros [= <- <- <-]. by left. }
  rewrite routers_updated_cons. unfold with_sync_sem, try_except.
  destruct (_process_routers _ _ _ _ _) as [[[[]|e] a1] d1] eqn:Hp.
  - intros [= <- <- <-]. right. exists (Ok tt), a1, d1.
    split; [done|]. split; [done|]. split; [done|]. by left.
  - rewrite bind_emit. unfold modify. intros [= <- <- <-].
    right. exists (Raise e), a1, d1.
    split; [done|]. split; [done|]. split; [done|]. right. eauto.
Qed.

Lemma routers_updated_lookup_skips routers k h a res a' d :
  (forall target r,
      (str_truthy (gateway_external_network_id conf) = true ->
       target = gateway_external_network_id conf) ->
      r ∈ routers -> Router.id r = k -> acceptable conf target r = false) ->
  routers_updated env conf routers h a = (res, a', d) ->
  router_info a' !! k = router_info a !! k.
Proof.
  intros Hk H. apply routers_updated_run in H
    as [(_ & _ & -> & _)|(r1 & a1 & d1 & _ & Hp & _ & H)]; [done|].
  apply (_process_routers_skips _ k) in Hp; [|done].
  by destruct H as [(_ & -> & _)|(_ & -> & _)].
Qed.

End RoutersUpdatedMore.

(** X9.  A router that is in the registry is not set up again: while
    routers_updated works on any batch, from a registry that is well
    formed and holds router [rid], no namespace is created for [rid], no
    metadata proxy is started for it and no rule is added to its filter
    table; and [rid] is still in the registry afterwards. *)
Theorem known_router_not_set_up_again env conf routers rid h a res a' d :
  registry_ok conf a -> is_Some (router_info a !! rid) ->
  routers_updated env conf routers h a = (res, a', d) ->
  is_Some (router_info a' !! rid)
  /\ Forall (fun e => is_setup rid e = false) d.
Proof.
  intros Hreg Hk H. apply routers_updated_run in H
    as [(_ & _ & -> & ->)|(r1 & a1 & d1 & _ & Hp & _ & H)]; [done|].
  pose proof Hp as Hmono. apply _process_routers_monotone in Hmono as [_ Hmono].
  apply (_process_routers_known env conf _ rid) in Hp; [|done|done].
  destruct H as [(_ & -> & ->)|(_ & -> & ->)].
  - split; [by apply Hmono|]. apply Forall_cons. split; [done|].
    apply Forall_app. split; [done|]. by apply Forall_singleton.
  - split; [by apply Hmono|]. apply Forall_cons. split; [done|].
    apply Forall_app. split; [|by apply Forall_singleton].
    apply Forall_app. split; [done|]. by apply Forall_singleton.
Qed.

Lemma known_router_not_set_up_again_witness :
  let run := routers_updated Scenario.env Scenario.conf
               [Scenario.r1 true [Scenario.pa true] []; Scenario.ra] []
               Host.with_r1 in
  registry_ok Scenario.conf Host.with_r1
  /\ is_Some (router_info Host.with_r1 !! "r1")
  /\ Forall (fun e => is_setup "r1" e = false) (snd run)
  /\ ProxyEnable "ra" (Some "qrouter-ra") ∈ snd run.
Proof.
  intros run.
  assert (Hreg : registry_ok Scenario.conf Host.with_r1)
    by (apply registry_ok_check; by vm_compute).
  assert (Hk : is_Some (router_info Host.with_r1 !! "r1"))
    by (eexists; vm_compute; reflexivity).
  assert (Hrun : run = (fst (fst run), snd (fst run), snd run))
    by (by vm_compute).
  destruct (known_router_not_set_up_again Scenario.env Scenario.conf _ "r1"
              [] Host.with_r1 _ _ _ Hreg Hk Hrun) as [_ Hall].
  split; [exact Hreg|]. split; [exact Hk|]. split; [exact Hall|].
  apply (bool_decide_unpack _). by vm_compute.
Defined.

(** X10.  A batch leaves alone the registry entry of every router for
    which it has no descriptor that passes the tests of the loop (up and
    running, the agent's own router when namespaces are off, on the
    agent's external network or internal-only where those are handled):
    the entry under that id is what it was, present or not.  With a
    configured external network only that network counts as the
    agent's. *)
Theorem routers_updated_skips env conf routers k h a res a' d :
  (forall target r,
      (str_truthy (gateway_external_network_id conf) = true ->
       target = gateway_external_network_id conf) ->
      r ∈ routers -> Router.id r = k -> acceptable conf target r = false) ->
  routers_updated env conf routers h a = (res, a', d) ->
  router_info a' !! k = router_info a !! k.
Proof. apply routers_updated_lookup_skips. Qed.

(** X11.  Without namespaces the agent works on one router only: a
    batch changes no registry entry other than the one of the configured
    router id. *)
Theorem single_router_mode env conf routers k h a res a' d :
  use_namespaces conf = false -> k <> router_id conf ->
  routers_updated env conf routers h a = (res, a', d) ->
  router_info a' !! k = router_info a !! k.
Proof.
  intros Hns Hk. apply routers_updated_lookup_skips.
  intros target r _ _ Hid. unfold acceptable.
  rewrite Hns, Hid, bool_decide_eq_false_2 by done.
  by rewrite andb_false_r.
Qed.

(** X12.  routers_updated never raises, never clears the full-sync flag
    and never drops a router from the registry; it changes the flag only
    by setting it, and then the trace holds the log line of the failed
    batch. *)
Theorem routers_updated_never_forgets env conf routers h a res a' d :
  routers_updated env conf routers h a = (res, a', d) ->
  res = Ok tt
  /\ (forall k, is_Some (router_info a !! k) -> is_Some (router_info a' !! k))
  /\ (fullsync a' = fullsync a
      \/ (fullsync a' = true
          /\ Log "debug" "Failed dealing with routers update RPC message"
                 None ∈ d)).
Proof.
  intros H. apply routers_updated_run in H
    as [(_ & -> & -> & _)|(r1 & a1 & d1 & _ & Hp & -> & H)]; [by auto|].
  apply _process_routers_monotone in Hp as [Hflag Hmono].
  destruct H as [(_ & -> & ->)|(_ & -> & ->)].
  - split; [done|]. split; [done|]. by left.
  - split; [done|]. split; [done|]. right. split; [done|].
    apply elem_of_cons. right. apply elem_of_app. left.
    apply elem_of_app. right. by apply list_elem_of_singleton.
Qed.

Lemma routers_updated_skips_witness :
  let run := routers_updated Scenario.env Static.conf
               [Static.elsewhere; Scenario.ra] [] initial_agent in
  router_info (snd (fst run)) !! "r9" = None
  /\ is_Some (router_info (snd (fst run)) !! "ra").
Proof.
  intros run.
  assert (Hrun : run = (fst (fst run), snd (fst run), snd run))
    by (by vm_compute).
  split; [|eexists; vm_compute; reflexivity].
  rewrite (routers_updated_skips Scenario.env Static.conf
             [Static.elsewhere; Scenario.ra] "r9" [] initial_agent
             (fst (fst run)) (snd (fst run)) (snd run));
    [reflexivity| |exact Hrun].
  intros target r Ht Hr Hid. rewrite (Ht eq_refl).
  apply elem_of_cons in Hr as [->|Hr]; [by vm_compute|].
  apply list_elem_of_singleton in Hr as ->. by vm_compute in Hid.
Defined.

Lemma single_router_mode_witness :
  let run := routers_updated Scenario.env Scenario.conf_single
               [Scenario.internal_router "r2" [Scenario.pa true];
                Scenario.r1 true [] []] [] initial_agent in
  use_namespaces Scenario.conf_single = false
  /\ router_info (snd (fst run)) !! "r2" = None
  /\ is_Some (router_info (snd (fst run)) !! "r1").
Proof.
  intros run.
  assert (Hrun : run = (fst (fst run), snd (fst run), snd run))
    by (by vm_compute).
  split; [done|]. split; [|eexists; vm_compute; reflexivity].
  by rewrite (single_router_mode Scenario.env Scenario.conf_single _ "r2" []
                initial_agent (fst (fst run)) (snd (fst run)) (snd run)
                eq_refl ltac:(done) Hrun).
Defined.

Lemma routers_updated_never_forgets_witness :
  let a := set_fullsync false Host.with_r1 in
  let run := routers_updated Scenario.env_bad_port Scenario.conf
               [Scenario.ra; Scenario.rb] [] a in
  fst (fst run) = Ok tt
  /\ is_Some (router_info (snd (fst run)) !! "r1")
  /\ fullsync (snd (fst run)) = true.
Proof.
  intros a run.
  assert (Hrun : run = (fst (fst run), snd (fst run), snd run))
    by (by vm_compute).
  destruct (routers_updated_never_forgets Scenario.env_bad_port
              Scenario.conf _ [] a _ _ _ Hrun) as (Hres & Hkeep & Hflag).
  split; [exact Hres|]. split.
  - apply Hkeep. eexists. vm_compute. reflexivity.
  - by destruct Hflag as [Hflag|[Hflag _]]; [vm_compute|].
Defined.

(** X13.  The plugin is asked at most once per batch: from a registry
    that is well formed, the only RPC in the trace of routers_updated is
    one get_external_network_id, and there is none at all when the
    external network is configured. *)
Theorem routers_updated_rpc env conf routers h a res a' d :
  registry_ok conf a ->
  routers_updated env conf routers h a = (res, a', d) ->
  filter (fun e => is_rpc e = true) d = []
  \/ (str_truthy (gateway_external_network_id conf) = false
      /\ filter (fun e => is_rpc e = true) d
         = [Rpc_get_external_network_id (host conf)]).
Proof.
  intros Hreg H. apply routers_updated_run in H
    as [(_ & _ & _ & ->)|(r1 & a1 & d1 & _ & Hp & _ & H)]; [by left|].
  apply (_process_routers_trace env conf (fun _ _ => True)) in Hp
    as (target & f & d2 & _ & _ & -> & Hf & Hd & _); try done.
  assert (Hb : filter (fun e => is_rpc e = true) (bridge_check conf) = []).
  { unfold bridge_check. by destruct (str_truthy _). }
  assert (H2 : filter (fun e => is_rpc e = true) d2 = []).
  { apply filter_none. intros e He.
    apply (proj1 (Forall_forall _ _) Hd) in He
      as [He|(r & _ & _ & He)]; destruct e; try done.
    all: by rewrite not_true_iff_false. }
  assert (Hall : filter (fun e => is_rpc e = true) d
                 = filter (fun e => is_rpc e = true) f).
  { destruct H as [(_ & _ & ->)|(_ & _ & ->)];
      rewrite filter_cons, decide_False by done;
      rewrite !filter_app, Hb, H2; simpl; by rewrite ?app_nil_r. }
  rewrite Hall. destruct Hf as [->| ->]; [by left|].
  unfold net_id_fetch. destruct (str_truthy _); [by left|]. by right.
Qed.

Lemma routers_updated_rpc_witness :
  let run := routers_updated Scenario.env Scenario.conf
               [Scenario.ra; Scenario.rc] [] initial_agent in
  registry_ok Scenario.conf initial_agent
  /\ filter (fun e => is_rpc e = true) (snd run)
     = [Rpc_get_external_network_id "host1"].
Proof.
  intros run.
  assert (Hrun : run = (fst (fst run), snd (fst run), snd run))
    by (by vm_compute).
  split; [apply registry_ok_initial|].
  destruct (routers_updated_rpc Scenario.env Scenario.conf _ []
              initial_agent _ _ _ (registry_ok_initial _) Hrun)
    as [Hnone|[_ Hone]]; [|exact Hone].
  by vm_compute in Hnone.
Defined.

(** * Routers do not share what they work on *)

Lemma ns_prefix_inj a b : NS_PREFIX +:+ a = NS_PREFIX +:+ b -> a = b.
Proof. unfold NS_PREFIX. simpl. by intros [= ?]. Qed.

(** X14.  With namespaces, two routers share nothing but the log: the
    namespaces of two RouterInfos are the same only if their router ids
    are, and an event that process_router may issue for one router is
    not one it may issue for another router, unless it is a log line. *)
Theorem scopes_disjoint conf r1 r2 ri1 ri2 e :
  use_namespaces conf = true ->
  router_info_of conf r1 ri1 -> router_info_of conf r2 ri2 ->
  (ns_name ri1 = ns_name ri2 -> r1 = r2)
  /\ (in_scope r1 (namespace_of conf r1) e = true ->
      in_scope r2 (namespace_of conf r2) e = true ->
      r1 = r2 \/ is_log e = true).
Proof.
  intros Hns H1 H2. split.
  - rewrite (ns_name_of _ _ _ H1), (ns_name_of _ _ _ H2).
    unfold namespace_of. rewrite Hns. intros Heq. apply ns_prefix_inj.
    congruence.
  - unfold namespace_of. rewrite Hns.
    destruct e; simpl; try done; try (by right);
      rewrite ?andb_true_iff, ?bool_decide_eq_true;
      try (intros -> Heq; left; apply ns_prefix_inj; congruence);
      try (intros [-> _] [-> _]; by left);
      try (intros -> ->; by left).
Qed.

Lemma scopes_disjoint_witness :
  let ri1 := RouterInfo.mk "ra" None [] [] true None in
  let ri2 := RouterInfo.mk "rb" None [] [] true None in
  use_namespaces Scenario.conf = true
  /\ ns_name ri1 <> ns_name ri2
  /\ in_scope "ra" (Some "qrouter-ra")
       (InitL3 "qr-pa" ["10.0.1.1/24"] (Some "qrouter-ra")) = true
  /\ in_scope "rb" (Some "qrouter-rb")
       (InitL3 "qr-pa" ["10.0.1.1/24"] (Some "qrouter-ra")) = false.
Proof.
  intros ri1 ri2.
  destruct (scopes_disjoint Scenario.conf "ra" "rb" ri1 ri2
              (InitL3 "qr-pa" ["10.0.1.1/24"] (Some "qrouter-ra"))
              eq_refl (conj eq_refl eq_refl) (conj eq_refl eq_refl))
    as [Hns Hev].
  split; [done|]. split; [|by split].
  intros Heq. by specialize (Hns Heq).
Defined.

(** * When the external bridge is missing *)

(** X15.  The external bridge is configured but the host does not have
    it (and the check itself does not raise): a batch is dropped, with
    an error in the log and nothing else; routers_updated returns with
    the state unchanged, so the full-sync flag is not set; and the
    periodic task, once it has fetched the routers, leaves an empty
    registry and clears the flag although no router was reconciled. *)
Theorem missing_bridge env conf r routers h a :
  let bridge := external_network_bridge conf in
  let dropped :=
    [DeviceExists bridge None;
     Log "error" ("The external network bridge '" +:+ bridge
                  +:+ "' does not exist") None] in
  let msg := Rpc_sync_routers (host conf)
               (if negb (use_namespaces conf) then ArgStr (router_id conf)
                else ArgNone) None in
  str_truthy bridge = true ->
  (forall h, raises env h (DeviceExists bridge None) = None) ->
  (forall h, env_device_exists env h bridge None = false) ->
  routers_updated env conf (r :: routers) h a
  = (Ok tt, a, SemAcquire :: dropped ++ [SemRelease])
  /\ (fullsync a = true -> raises env (h ++ [SemAcquire]) msg = None ->
      _sync_routers_task env conf h a
      = (Ok tt, {| router_info := ∅; fullsync := false |},
         SemAcquire :: msg :: dropped ++ [SemRelease])).
Proof.
  intros bridge dropped msg Hb Hr Hd.
  assert (Hp : forall l h0 a0,
             _process_routers env conf l h0 a0 = (Ok tt, a0, dropped)).
  { intros l h0 a0. unfold _process_routers. fold bridge. rewrite Hb.
    rewrite bind_assoc. unfold bind at 1. unfold query.
    rewrite Hr, Hd, bind_ret. simpl. done. }
  split.
  - rewrite routers_updated_cons. unfold with_sync_sem, try_except.
    by rewrite Hp.
  - intros Hflag Hmsg. unfold _sync_routers_task, with_sync_sem.
    rewrite bind_get, Hflag. unfold try_except, get_routers.
    unfold bind at 1. unfold query. fold msg. rewrite Hmsg.
    rewrite bind_modify, (bind_ok _ _ _ _ _ _ _ (Hp _ _ _)).
    done.
Qed.

Lemma missing_bridge_witness :
  let conf := {|
    host := "host1";
    external_network_bridge := "br-none";
    metadata_port := 9697;
    send_arp_for_ha := 3;
    use_namespaces := true;
    router_id := "";
    handle_internal_only_routers := true;
    gateway_external_network_id := ""
  |} in
  let e := Scenario.env_with_routers [Scenario.ra] in
  fullsync (snd (fst (routers_updated e conf [Scenario.ra] []
                        (set_fullsync false initial_agent)))) = false
  /\ _sync_routers_task e conf [] Host.with_r1
     = (Ok tt, {| router_info := ∅; fullsync := false |},
        [SemAcquire; Rpc_sync_routers "host1" ArgNone None;
         DeviceExists "br-none" None;
         Log "error" "The external network bridge 'br-none' does not exist"
             None;
         SemRelease]).
Proof.
  intros conf e.
  destruct (missing_bridge e conf Scenario.ra [] []
              (set_fullsync false initial_agent)
              eq_refl (fun _ => eq_refl) (fun _ => eq_refl)) as [Hupd _].
  destruct (missing_bridge e conf Scenario.ra [] [] Host.with_r1
              eq_refl (fun _ => eq_refl) (fun _ => eq_refl)) as [_ Hsync].
  split; [by rewrite Hupd|].
  by rewrite (Hsync ltac:(by vm_compute) eq_refl).
Defined.

(** * Gratuitous ARP is best effort *)

(** X16.  _send_gratuitous_arp_packet never raises and never changes the
    RouterInfo.  With send_arp_for_ha of zero or less it does nothing;
    otherwise it runs arping once, with the configured count, in the
    router's namespace (on the host when namespaces are off), and when
    that raises, the only consequence is a line in the log. *)
Theorem send_gratuitous_arp_best_effort env conf ri interface_name ip_address
    h s res s' d :
  _send_gratuitous_arp_packet env conf ri interface_name ip_address h s
  = (res, s', d) ->
  let ev := Execute (if use_namespaces conf then ns_name ri else None)
              ["arping"; "-A"; "-U"; "-I"; interface_name;
               "-c"; pretty (send_arp_for_ha conf); ip_address] true in
  res = Ok tt /\ s' = s
  /\ ((send_arp_for_ha conf <= 0)%Z -> d = [])
  /\ ((0 < send_arp_for_ha conf)%Z ->
      match raises env h ev with
      | None => d = [ev]
      | Some e => d = [ev; Log "error" "Failed sending gratuitous ARP" (Some e)]
      end).
Proof.
  intros H ev. unfold _send_gratuitous_arp_packet in H.
  destruct (0 <? send_arp_for_ha conf)%Z eqn:Hz.
  - apply Z.ltb_lt in Hz. unfold try_except in H.
    assert (Hcall : (if use_namespaces conf
                     then call env (Execute (ns_name ri)
                            ["arping"; "-A"; "-U"; "-I"; interface_name;
                             "-c"; pretty (send_arp_for_ha conf); ip_address]
                            true)
                     else call env (Execute None
                            ["arping"; "-A"; "-U"; "-I"; interface_name;
                             "-c"; pretty (send_arp_for_ha conf); ip_address]
                            true)) h s
                    = call env ev h s).
    { unfold ev. by destruct (use_namespaces conf). }
    rewrite Hcall in H. unfold call, query in H.
    destruct (raises env h ev) as [e|].
    + injection H as <- <- <-. split; [done|]. split; [done|].
      split; [lia|done].
    + injection H as <- <- <-. split; [done|]. split; [done|].
      split; [lia|done].
  - apply Z.ltb_ge in Hz. injection H as <- <- <-.
    split; [done|]. split; [done|]. split; [done|lia].
Qed.

Lemma send_gratuitous_arp_best_effort_witness :
  let e := {|
    raises := fun _ ev =>
      match ev with
      | Execute _ _ _ => Some (OtherError "arping: not found")
      | _ => None
      end;
    env_device_exists := fun _ _ _ => false;
    env_addr_list := fun _ _ _ => [];
    env_get_devices := fun _ _ => [];
    env_sync_routers := fun _ => [];
    env_get_external_network_id := fun _ => "ext";
    ip_network := Scenario.netaddr;
    DEV_NAME_LEN := 14
  |} in
  _send_gratuitous_arp_packet e Scenario.conf Scenario.gateway_before
    "qr-pa" "10.0.1.1" [] Scenario.gateway_before
  = (Ok tt, Scenario.gateway_before,
     [Execute (Some "qrouter-r1")
        ["arping"; "-A"; "-U"; "-I"; "qr-pa"; "-c"; "3"; "10.0.1.1"] true;
      Log "error" "Failed sending gratuitous ARP"
          (Some (OtherError "arping: not found"))]).
Proof.
  intros e.
  destruct (_send_gratuitous_arp_packet e Scenario.conf
              Scenario.gateway_before "qr-pa" "10.0.1.1" []
              Scenario.gateway_before) as [[res s'] d] eqn:H.
  destruct (send_gratuitous_arp_best_effort e Scenario.conf _ _ _ _ _ _ _ _ H)
    as (-> & -> & _ & Hd).
  by rewrite (Hd ltac:(done)).
Defined.

(** * A port without an address *)

Section NoFixedIp.

Context (env : Env) (conf : Conf).

Lemma for_each_raises {S A} (l : list A) (body : A -> M S unit) x :
  x ∈ l ->
  (forall h s, exists e s' d, body x h s = (Raise e, s', d)) ->
  forall h s, exists e s' d, for_each l body h s = (Raise e, s', d).
Proof.
  intros Hx Hbody. induction l as [|y l IH]; intros h s.
  { by apply elem_of_nil in Hx. }
  cbn [for_each]. destruct (body y h s) as [[[[]|e] s1] d1] eqn:Hy.
  - rewrite (bind_ok _ _ _ _ _ _ _ Hy).
    apply elem_of_cons in Hx as [->|Hx].
    + destruct (Hbody h s) as (e & s' & d & He). congruence.
    + destruct (IH Hx (h ++ d1) s1) as (e & s' & d & ->). eauto.
  - rewrite (bind_raise _ _ _ _ _ _ _ Hy). eauto.
Qed.

End NoFixedIp.

(** X17.  A port that is up, new to the RouterInfo and without a fixed
    IP makes process_router raise, in the loop over the new ports: the
    gateway is not looked at (neither gateway hook is entered and
    ri.ex_gw_port is what it was), so neither are the floating IPs. *)
Theorem port_without_fixed_ip env conf h ri r p :
  RouterInfo.router ri = Some r ->
  p ∈ Router._interfaces r ->
  Port.admin_state_up p = true ->
  Port.id p ∉ port_ids (RouterInfo.internal_ports ri) ->
  Port.fixed_ips p = [] ->
  exists e ri' d,
    process_router env conf h ri = (Raise e, ri', d)
    /\ RouterInfo.ex_gw_port ri' = RouterInfo.ex_gw_port ri
    /\ external_gateway_added_calls d = []
    /\ external_gateway_removed_calls d = [].
Proof.
  intros Hr Hp Hup Hnew Hips. unfold process_router.
  rewrite bind_get, Hr. cbn [of_option]. rewrite bind_ret.
  match goal with
  | |- context [bind (for_each ?l ?body) ?k] =>
      destruct (for_each_raises l body p) with (h := h) (s := ri)
        as (e & ri' & d & Hloop)
  end.
  - apply list_elem_of_filter. split; [|done]. split; [|done].
    apply elem_of_port_ids. exists p. split; [|done].
    by apply list_elem_of_filter.
  - intros h0 s0. unfold new_port_body, _set_subnet_info. rewrite Hips.
    rewrite bind_raise_now. eauto.
  - rewrite (bind_raise _ _ _ _ _ _ _ Hloop).
    exists e, ri', d. split; [done|].
    pose proof Hloop as Hgw.
    apply new_ports_loop_gateway in Hgw as [Hgw Hsil].
    split; [apply (f_equal fst) in Hgw; exact Hgw|].
    split; by apply silent_gateway_call.
Qed.

Lemma port_without_fixed_ip_witness :
  let px := Port.mk "px" "net-px" "mac-px" []
                    (Subnet.mk "10.0.9.0/24" None) true None in
  let r := Scenario.r1 true [Scenario.pa true; px] [] in
  let ri := RouterInfo.mk "r1" None [] [] true (Some r) in
  fst (fst (process_router Scenario.env Scenario.conf [] ri))
  = Raise (Exception_ "Router port px has no IP address")
  /\ RouterInfo.ex_gw_port
       (snd (fst (process_router Scenario.env Scenario.conf [] ri))) = None.
Proof.
  intros px r ri.
  assert (Hin : px ∈ Router._interfaces r)
    by (apply (bool_decide_unpack _); by vm_compute).
  assert (Hnew : Port.id px ∉ port_ids (RouterInfo.internal_ports ri))
    by (apply (bool_decide_unpack _); by vm_compute).
  destruct (port_without_fixed_ip Scenario.env Scenario.conf [] ri r px
              eq_refl Hin eq_refl Hnew eq_refl)
    as (e & ri' & d & Hrun & Hgw & _).
  rewrite Hrun. simpl. split; [|exact Hgw].
  assert (He : fst (fst (process_router Scenario.env Scenario.conf [] ri))
               = Raise (Exception_ "Router port px has no IP address"))
    by (by vm_compute).
  by rewrite Hrun in He.
Defined.

(** * Rule changes are applied *)

Lemma pending_from_app p d1 d2 :
  pending_from p (d1 ++ d2) = pending_from (pending_from p d1) d2.
Proof. unfold pending_from. by rewrite fold_left_app. Qed.

Lemma applied_app d1 d2 : applied d1 -> applied d2 -> applied (d1 ++ d2).
Proof.
  unfold applied, pending. intros H1 H2. by rewrite pending_from_app, H1.
Qed.

Lemma settles_applied d : settles d -> applied d.
Proof. intros H. apply H. Qed.

Section Returns.

Context (env : Env) {S : Type}.

Lemma returns_ret {A} D (a : A) : D [] -> returns_with D (ret (S:=S) a).
Proof. by intros HD h s a' s' d [= _ _ <-]. Qed.

Lemma returns_raise {A} D e : returns_with D (raise (S:=S) (A:=A) e).
Proof. by intros h s a s' d. Qed.

Lemma returns_get D : D [] -> returns_with D (get (S:=S)).
Proof. by intros HD h s a' s' d [= _ _ <-]. Qed.

Lemma returns_modify D (f : S -> S) : D [] -> returns_with D (modify f).
Proof. by intros HD h s a' s' d [= _ _ <-]. Qed.

Lemma returns_of_option {A} D (o : option A) e :
  D [] -> returns_with D (of_option (S:=S) o e).
Proof. intros HD. destruct o; [by apply returns_ret|apply returns_raise]. Qed.

Lemma returns_emit D ev : D [ev] -> returns_with D (emit (S:=S) ev).
Proof. by intros HD h s a' s' d [= _ _ <-]. Qed.

Lemma returns_query {A} D ev (answer : list event -> A) :
  D [ev] -> returns_with D (query (S:=S) env ev answer).
Proof.
  intros HD h s a' s' d. unfold query.
  destruct (raises env h ev); [done|]. by intros [= _ _ <-].
Qed.

Lemma returns_call D ev : D [ev] -> returns_with D (call (S:=S) env ev).
Proof. apply returns_query. Qed.

Lemma returns_bind {A B} (m : M S A) (k : A -> M S B) :
  returns_with applied m -> (forall a, returns_with applied (k a)) ->
  returns_with applied (bind m k).
Proof.
  intros Hm Hk h s b s' d H.
  apply bind_ok_inv in H as (a & s1 & d1 & d2 & H1 & H2 & ->).
  apply applied_app; [by eapply Hm|by eapply Hk].
Qed.

Lemma settles_bind_r {A B} (m : M S A) (k : A -> M S B) :
  (forall a, returns_with settles (k a)) -> returns_with settles (bind m k).
Proof.
  intros Hk h s b s' d H.
  apply bind_ok_inv in H as (a & s1 & d1 & d2 & H1 & H2 & ->).
  intros p. rewrite pending_from_app. by eapply Hk.
Qed.

Lemma settles_bind_l {A B} (m : M S A) (k : A -> M S B) :
  returns_with settles m -> (forall a, returns_with applied (k a)) ->
  returns_with settles (bind m k).
Proof.
  intros Hm Hk h s b s' d H.
  apply bind_ok_inv in H as (a & s1 & d1 & d2 & H1 & H2 & ->).
  intros p. rewrite pending_from_app, (Hm _ _ _ _ _ H1). by eapply Hk.
Qed.

Lemma returns_settles {A} (m : M S A) :
  returns_with settles m -> returns_with applied m.
Proof. intros Hm h s a s' d H. by eapply settles_applied, Hm. Qed.

Lemma returns_apply r : returns_with settles (call (S:=S) env (Apply r)).
Proof. by apply returns_call. Qed.

Lemma returns_for_each {A} (l : list A) (body : A -> M S unit) :
  (forall x, returns_with applied (body x)) ->
  returns_with applied (for_each l body).
Proof.
  intros Hbody. induction l as [|x l IH]; cbn [for_each].
  - by apply returns_ret.
  - apply returns_bind; [apply Hbody|by intros _].
Qed.

Lemma returns_mapM {A B} (f : A -> M S B) (l : list A) :
  (forall x, returns_with applied (f x)) ->
  returns_with applied (mapM f l).
Proof.
  intros Hf. induction l as [|x l IH]; cbn [mapM].
  - by apply returns_ret.
  - apply returns_bind; [apply Hf|intros y].
    apply returns_bind; [apply IH|intros ys]. by apply returns_ret.
Qed.

(** A handler that only logs. *)
Lemma returns_try_log (m : M S unit) lvl msg :
  (forall h s r s' d, m h s = (r, s', d) -> applied d) ->
  returns_with applied
    (try_except m (fun e => emit (Log lvl msg (Some e)))).
Proof.
  intros Hm h s a s' d. unfold try_except.
  destruct (m h s) as [[[[]|e] s1] d1] eqn:H1.
  - intros Heq. assert (d = d1) as -> by congruence. by eapply Hm.
  - unfold emit. intros Heq. assert (d = d1 ++ [Log lvl msg (Some e)]) as ->
      by congruence.
    apply applied_app; [by eapply Hm|done].
Qed.

End Returns.

(** One step of a proof that what returns has applied its rule changes:
    leaves, then a [bind] whose first part has applied its own changes,
    then a [bind] that ends in an apply. *)
Ltac returns_leaf :=
  first [ apply returns_ret; reflexivity
        | apply returns_raise
        | apply returns_get; reflexivity
        | apply returns_modify; reflexivity
        | apply returns_of_option; reflexivity
        | apply returns_emit; reflexivity
        | apply returns_query; reflexivity
        | apply returns_call; reflexivity ].

Ltac solve_applied tac :=
  solve
    [ tac
    | returns_leaf
    | apply returns_for_each; intros ?; solve_applied tac
    | apply returns_mapM; intros ?; solve_applied tac
    | apply returns_bind; [solve_applied tac|intros ?; solve_applied tac]
    | apply returns_settles; solve_settles tac
    | lazymatch goal with
      | |- returns_with _ (if ?b then _ else _) =>
          destruct b; solve_applied tac
      | |- returns_with _ (match ?x with _ => _ end) =>
          destruct x; solve_applied tac
      end
    | progress autounfold with agent_unfold; solve_applied tac ]
with solve_settles tac :=
  solve
    [ apply returns_apply
    | apply settles_bind_r; intros ?; solve_settles tac
    | apply settles_bind_l; [solve_settles tac|intros ?; solve_applied tac]
    | lazymatch goal with
      | |- returns_with _ (if ?b then _ else _) =>
          destruct b; solve_settles tac
      | |- returns_with _ (match ?x with _ => _ end) =>
          destruct x; solve_settles tac
      end ].

Section RulesApplied.

Context (env : Env) (conf : Conf).

Lemma _send_gratuitous_arp_packet_applied ri interface_name ip_address :
  returns_with applied
    (_send_gratuitous_arp_packet env conf ri interface_name ip_address).
Proof.
  unfold _send_gratuitous_arp_packet.
  destruct (0 <? send_arp_for_ha conf)%Z; [|solve_applied fail].
  apply returns_try_log. intros h s r s' d.
  destruct (use_namespaces conf); unfold call, query;
    destruct (raises env h _); by intros [= _ _ <-].
Qed.

Lemma internal_network_added_applied gw network_id port_id cidr mac :
  returns_with applied
    (internal_network_added env conf gw network_id port_id cidr mac).
Proof.
  unfold internal_network_added.
  solve_applied ltac:(apply _send_gratuitous_arp_packet_applied).
Qed.

Lemma internal_network_removed_applied gw port_id cidr :
  returns_with applied (internal_network_removed env gw port_id cidr).
Proof. unfold internal_network_removed. solve_applied fail. Qed.

Lemma external_gateway_added_applied gw cidrs :
  returns_with applied (external_gateway_added env conf gw cidrs).
Proof.
  unfold external_gateway_added.
  solve_applied ltac:(apply _send_gratuitous_arp_packet_applied).
Qed.

Lemma external_gateway_removed_applied gw cidrs :
  returns_with applied (external_gateway_removed env conf gw cidrs).
Proof. unfold external_gateway_removed. solve_applied fail. Qed.

Lemma floating_ip_added_applied gw floating_ip fixed_ip :
  returns_with applied (floating_ip_added env conf gw floating_ip fixed_ip).
Proof.
  unfold floating_ip_added.
  solve_applied ltac:(apply _send_gratuitous_arp_packet_applied).
Qed.

Lemma floating_ip_removed_applied gw floating_ip fixed_ip :
  returns_with applied (floating_ip_removed env gw floating_ip fixed_ip).
Proof. unfold floating_ip_removed. solve_applied fail. Qed.

Ltac hooks_applied :=
  first [ apply internal_network_added_applied
        | apply internal_network_removed_applied
        | apply external_gateway_added_applied
        | apply external_gateway_removed_applied
        | apply floating_ip_added_applied
        | apply floating_ip_removed_applied ].

Lemma floating_ips_first_loop_applied gw existing l m :
  returns_with applied (floating_ips_first_loop env conf gw existing l m).
Proof.
  revert m. induction l as [|fip l IH]; intros m;
    cbn [floating_ips_first_loop];
    solve_applied ltac:(first [apply IH | hooks_applied]).
Qed.

Lemma floating_ips_second_loop_applied fuel i rm m :
  returns_with applied (floating_ips_second_loop env conf fuel i rm m).
Proof.
  revert i. induction fuel as [|fuel IH]; intros i;
    cbn [floating_ips_second_loop]; unfold floating_ips_second_body;
    solve_applied ltac:(first [apply IH | hooks_applied]).
Qed.

Lemma process_router_applied : returns_with applied (process_router env conf).
Proof.
  unfold process_router, process_router_floating_ips, new_port_body,
    old_port_body, gateway_step.
  solve_applied ltac:(first [ apply floating_ips_first_loop_applied
                            | apply floating_ips_second_loop_applied
                            | hooks_applied ]).
Qed.

Lemma with_router_returns {A} D key (m : M RouterInfo.t A) :
  returns_with D m -> returns_with D (with_router key m).
Proof.
  intros Hm h a x a' d. unfold with_router.
  destruct (router_info a !! key) as [ri|]; [|done].
  destruct (m h ri) as [[r ri'] d1] eqn:H1. intros [= -> _ <-].
  by eapply Hm.
Qed.

Lemma _router_added_applied rid router :
  returns_with applied (_router_added env conf rid router).
Proof. unfold _router_added. solve_applied fail. Qed.

Lemma _process_routers_body_applied target r :
  returns_with applied (_process_routers_body env conf target r).
Proof.
  intros h a x a' d. rewrite _process_routers_body_unfold.
  destruct (acceptable conf target r); [|by intros [= _ _ <-]].
  revert h a x a' d.
  change (returns_with applied
            (a <- get ;;
             (if bool_decide (router_info a !! Router.id r = None)
              then _router_added env conf (Router.id r) None
              else ret tt) ;;
             with_router (Router.id r)
               (modify (RouterInfo.set_router (Some r)) ;;
                process_router env conf))).
  solve_applied ltac:(first
    [ apply _router_added_applied
    | apply with_router_returns; solve_applied ltac:(apply process_router_applied) ]).
Qed.

Lemma _process_routers_applied routers :
  returns_with applied (_process_routers env conf routers).
Proof.
  intros h a x a' d H. apply _process_routers_loop in H
    as [(_ & f & l & -> & Hf & Hl)|(target & h' & d' & H & -> & _)].
  - apply applied_app; [|apply applied_app].
    + unfold bridge_check. by destruct (str_truthy _).
    + destruct Hf as [->| ->]; [done|]. unfold net_id_fetch.
      by destruct (str_truthy _).
    + clear -Hl. induction Hl as [|e l He _ IH]; [done|].
      apply (applied_app [e]); [|done]. by destruct e.
  - apply applied_app; [|apply applied_app].
    + unfold bridge_check. by destruct (str_truthy _).
    + unfold net_id_fetch. by destruct (str_truthy _).
    + revert H. apply returns_for_each. intros r.
      apply _process_routers_body_applied.
Qed.

End RulesApplied.

(** X18.  When process_router returns, every change it made to the
    router's rules has been applied: after the last AddRule or
    RemoveRule of its trace there is an Apply. *)
Theorem process_router_applies_rules env conf h ri ri' d :
  process_router env conf h ri = (Ok tt, ri', d) -> pending d = false.
Proof. apply process_router_applied. Qed.

Lemma process_router_applies_rules_witness :
  let run := process_router Scenario.env Scenario.conf []
               (RouterInfo.mk "r1" None [] [] true
                  (Some Scenario.two_fips)) in
  fst (fst run) = Ok tt
  /\ pending (snd run) = false
  /\ length (rules_added (snd run)) = 9.
Proof.
  intros run.
  assert (Hrun : run = (Ok tt, snd (fst run), snd run)) by (by vm_compute).
  split; [by rewrite Hrun|]. split; [|by vm_compute].
  exact (process_router_applies_rules Scenario.env Scenario.conf [] _ _ _
           Hrun).
Defined.

(** X19.  A batch that goes through applies its rule changes: when
    routers_updated starts with the full-sync flag clear and ends with
    it clear, every rule change in its trace, those of setting up a new
    router included, is followed by an Apply. *)
Theorem routers_updated_applies_rules env conf routers h a res a' d :
  fullsync a = false ->
  routers_updated env conf routers h a = (res, a', d) ->
  fullsync a' = false ->
  pending d = false.
Proof.
  intros Hflag H Hflag'. apply routers_updated_run in H
    as [(_ & _ & _ & ->)|(r1 & a1 & d1 & _ & Hp & _ & H)]; [done|].
  destruct H as [(-> & -> & ->)|(_ & -> & _)]; [|done].
  apply _process_routers_applied in Hp.
  apply (applied_app [SemAcquire]); [done|]. by apply applied_app.
Qed.

Lemma routers_updated_applies_rules_witness :
  let a := set_fullsync false initial_agent in
  let run := routers_updated Scenario.env Scenario.conf
               [Scenario.two_fips; Scenario.ra] [] a in
  fullsync a = false
  /\ fullsync (snd (fst run)) = false
  /\ pending (snd run) = false.
Proof.
  intros a run.
  assert (Hrun : run = (fst (fst run), snd (fst run), snd run))
    by (by vm_compute).
  assert (Hflag : fullsync (snd (fst run)) = false) by (by vm_compute).
  split; [done|]. split; [exact Hflag|].
  exact (routers_updated_applies_rules Scenario.env Scenario.conf _ [] a
           _ _ _ eq_refl Hrun Hflag).
Defined.

(** * Removal mirrors addition *)

Lemma rules_added_app d1 d2 :
  rules_added (d1 ++ d2) = rules_added d1 ++ rules_added d2.
Proof. apply omap_app. Qed.

Lemma rules_removed_app d1 d2 :
  rules_removed (d1 ++ d2) = rules_removed d1 ++ rules_removed d2.
Proof. apply omap_app. Qed.

Lemma returns_with_at {S A} (D : list event -> Prop) (m : M S A) h s a s' d :
  returns_with D m -> m h s = (Ok a, s', d) -> D d.
Proof. intros Hm. apply Hm. Qed.

Lemma returns_raise_bind {S A B} D e (k : A -> M S B) :
  returns_with D (bind (raise e) k).
Proof. by intros h s a s' d. Qed.

Lemma returns_ret_bind {S A B} D (x : A) (k : A -> M S B) :
  returns_with D (k x) -> returns_with D (bind (ret x) k).
Proof. intros Hk h s a s' d. rewrite bind_ret. apply Hk. Qed.

Section Changes.

Context (env : Env) {S : Type}.

Lemma changes_bind_quiet {A B} added removed (m : M S A) (k : A -> M S B) :
  returns_with (changes_rules [] []) m ->
  (forall a, returns_with (changes_rules added removed) (k a)) ->
  returns_with (changes_rules added removed) (bind m k).
Proof.
  intros Hm Hk h s b s' d H.
  apply bind_ok_inv in H as (a & s1 & d1 & d2 & H1 & H2 & ->).
  apply Hm in H1 as [Ha1 Hr1]. apply Hk in H2 as [Ha2 Hr2].
  split; [by rewrite rules_added_app, Ha1, Ha2
         |by rewrite rules_removed_app, Hr1, Hr2].
Qed.

Lemma add_rules_changes rid rules :
  returns_with (changes_rules (in_nat rid rules) [])
    (for_each rules
       (fun cr => call (S:=S) env (AddRule rid "nat" cr.1 cr.2))).
Proof.
  induction rules as [|cr rules IH]; cbn [for_each].
  - by apply returns_ret.
  - intros h s b s' d H.
    apply bind_ok_inv in H as (a & s1 & d1 & d2 & H1 & H2 & ->).
    apply IH in H2 as [Ha2 Hr2]. unfold call, query in H1.
    destruct (raises env h _); [done|]. injection H1 as _ _ <-.
    split; simpl; [by rewrite Ha2|done].
Qed.

Lemma remove_rules_changes rid rules :
  returns_with (changes_rules [] (in_nat rid rules))
    (for_each rules
       (fun cr => call (S:=S) env (RemoveRule rid "nat" cr.1 cr.2))).
Proof.
  induction rules as [|cr rules IH]; cbn [for_each].
  - by apply returns_ret.
  - intros h s b s' d H.
    apply bind_ok_inv in H as (a & s1 & d1 & d2 & H1 & H2 & ->).
    apply IH in H2 as [Ha2 Hr2]. unfold call, query in H1.
    destruct (raises env h _); [done|]. injection H1 as _ _ <-.
    split; simpl; [done|by rewrite Hr2].
Qed.

Lemma changes_then_apply added removed (m : M S unit) rid :
  returns_with (changes_rules added removed) m ->
  returns_with (changes_rules added removed)
    (bind m (fun _ => call env (Apply rid))).
Proof.
  intros Hm h s b s' d H.
  apply bind_ok_inv in H as (a & s1 & d1 & d2 & H1 & H2 & ->).
  apply Hm in H1 as [Ha1 Hr1]. unfold call, query in H2.
  destruct (raises env _ _); [done|]. injection H2 as _ _ <-.
  split; [by rewrite rules_added_app, Ha1, app_nil_r
         |by rewrite rules_removed_app, Hr1, app_nil_r].
Qed.

End Changes.

Ltac changes_leaf :=
  first [ apply returns_ret; by split
        | apply returns_raise
        | apply returns_get; by split
        | apply returns_modify; by split
        | apply returns_of_option; by split
        | apply returns_emit; by split
        | apply returns_query; by split
        | apply returns_call; by split ].

Ltac solve_changes tac :=
  solve
    [ tac
    | changes_leaf
    | apply changes_then_apply;
        first [apply add_rules_changes | apply remove_rules_changes]
    | apply returns_raise_bind
    | apply returns_ret_bind; solve_changes tac
    | apply changes_bind_quiet; [solve_changes tac|intros ?; solve_changes tac]
    | lazymatch goal with
      | |- returns_with _ (if ?b then _ else _) =>
          destruct b; solve_changes tac
      | |- returns_with _ (match ?x with _ => _ end) =>
          destruct x; solve_changes tac
      end ].

Section Mirror.

Context (env : Env) (conf : Conf).

Lemma _send_gratuitous_arp_packet_changes ri interface_name ip_address :
  returns_with (changes_rules [] [])
    (_send_gratuitous_arp_packet env conf ri interface_name ip_address).
Proof.
  unfold _send_gratuitous_arp_packet.
  destruct (0 <? send_arp_for_ha conf)%Z; [|changes_leaf].
  intros h s a s' d. unfold try_except.
  destruct (use_namespaces conf); unfold call, query, emit;
    destruct (raises env h _); intros Heq;
    match type of Heq with
    | (_, _, ?d0) = _ => assert (d = d0) as -> by congruence
    end; by split.
Qed.

Lemma floating_ip_added_changes gw floating_ip fixed_ip h ri ri' d :
  floating_ip_added env conf gw floating_ip fixed_ip h ri = (Ok tt, ri', d) ->
  changes_rules
    (in_nat (RouterInfo.router_id ri)
            (floating_forward_rules floating_ip fixed_ip)) [] d.
Proof.
  unfold floating_ip_added, add_rules. rewrite bind_get.
  apply (returns_with_at _ _ h ri tt ri' d).
  solve_changes ltac:(apply _send_gratuitous_arp_packet_changes).
Qed.

Lemma floating_ip_removed_changes gw floating_ip fixed_ip h ri ri' d :
  floating_ip_removed env gw floating_ip fixed_ip h ri = (Ok tt, ri', d) ->
  changes_rules []
    (in_nat (RouterInfo.router_id ri)
            (floating_forward_rules floating_ip fixed_ip)) d.
Proof.
  unfold floating_ip_removed, remove_rules. rewrite bind_get.
  apply (returns_with_at _ _ h ri tt ri' d).
  solve_changes fail.
Qed.

Lemma internal_network_added_changes gw network_id port_id cidr mac
    h ri ri' d :
  internal_network_added env conf gw network_id port_id cidr mac h ri
  = (Ok tt, ri', d) ->
  changes_rules (internal_network_rules (RouterInfo.router_id ri) gw cidr)
                [] d.
Proof.
  unfold internal_network_added, add_rules, first_fixed_ip,
    internal_network_rules.
  rewrite bind_get. apply (returns_with_at _ _ h ri tt ri' d).
  destruct gw as [g|]; [destruct (Port.fixed_ips g)|];
    solve_changes ltac:(apply _send_gratuitous_arp_packet_changes).
Qed.

Lemma internal_network_removed_changes gw port_id cidr h ri ri' d :
  internal_network_removed env gw port_id cidr h ri = (Ok tt, ri', d) ->
  changes_rules []
    (internal_network_rules (RouterInfo.router_id ri) gw cidr) d.
Proof.
  unfold internal_network_removed, remove_rules, first_fixed_ip,
    internal_network_rules.
  rewrite bind_get. apply (returns_with_at _ _ h ri tt ri' d).
  destruct gw as [g|]; [destruct (Port.fixed_ips g)|];
    solve_changes fail.
Qed.

Lemma external_gateway_added_changes gw cidrs h ri ri' d :
  external_gateway_added env conf gw cidrs h ri = (Ok tt, ri', d) ->
  changes_rules
    (external_gateway_rules (RouterInfo.router_id ri) gw cidrs
       (get_external_device_name env (Port.id gw))) [] d.
Proof.
  unfold external_gateway_added, add_rules, first_fixed_ip,
    external_gateway_rules.
  rewrite bind_get. apply (returns_with_at _ _ h ri tt ri' d).
  destruct (Port.fixed_ips gw);
    solve_changes ltac:(apply _send_gratuitous_arp_packet_changes).
Qed.

Lemma external_gateway_removed_changes gw cidrs h ri ri' d :
  external_gateway_removed env conf gw cidrs h ri = (Ok tt, ri', d) ->
  changes_rules []
    (external_gateway_rules (RouterInfo.router_id ri) gw cidrs
       (get_external_device_name env (Port.id gw))) d.
Proof.
  unfold external_gateway_removed, remove_rules, first_fixed_ip,
    external_gateway_rules.
  rewrite bind_get. apply (returns_with_at _ _ h ri tt ri' d).
  destruct (Port.fixed_ips gw); solve_changes fail.
Qed.

End Mirror.

(** X20.  What a hook adds, its counterpart removes.  For the same
    router and the same arguments, when both return: floating_ip_removed
    removes exactly the rules that floating_ip_added added (the three
    forward rules of the floating IP, in the nat table), in the same
    order; internal_network_removed those of internal_network_added (the
    SNAT rule of the network, none without a gateway); and
    external_gateway_removed those of external_gateway_added.  The
    adding hooks remove no rule and the removing hooks add none. *)
Theorem removal_mirrors_addition env conf ri1 ri2 :
  RouterInfo.router_id ri1 = RouterInfo.router_id ri2 ->
  (forall gw floating_ip fixed_ip h1 h2 ri1' ri2' d1 d2,
      floating_ip_added env conf gw floating_ip fixed_ip h1 ri1
      = (Ok tt, ri1', d1) ->
      floating_ip_removed env gw floating_ip fixed_ip h2 ri2
      = (Ok tt, ri2', d2) ->
      rules_removed d2 = rules_added d1
      /\ rules_added d1
         = in_nat (RouterInfo.router_id ri1)
                  (floating_forward_rules floating_ip fixed_ip)
      /\ rules_removed d1 = [] /\ rules_added d2 = [])
  /\ (forall gw network_id port_id cidr mac h1 h2 ri1' ri2' d1 d2,
        internal_network_added env conf gw network_id port_id cidr mac h1 ri1
        = (Ok tt, ri1', d1) ->
        internal_network_removed env gw port_id cidr h2 ri2
        = (Ok tt, ri2', d2) ->
        rules_removed d2 = rules_added d1
        /\ (gw = None -> rules_added d1 = [])
        /\ rules_removed d1 = [] /\ rules_added d2 = [])
  /\ (forall gw cidrs h1 h2 ri1' ri2' d1 d2,
        external_gateway_added env conf gw cidrs h1 ri1 = (Ok tt, ri1', d1) ->
        external_gateway_removed env conf gw cidrs h2 ri2
        = (Ok tt, ri2', d2) ->
        rules_removed d2 = rules_added d1
        /\ rules_removed d1 = [] /\ rules_added d2 = []).
Proof.
  intros Hid. split; [|split].
  - intros gw floating_ip fixed_ip h1 h2 ri1' ri2' d1 d2 H1 H2.
    apply floating_ip_added_changes in H1 as [Ha1 Hr1].
    apply floating_ip_removed_changes in H2 as [Ha2 Hr2].
    rewrite Hr2, Ha1, Hid. done.
  - intros gw network_id port_id cidr mac h1 h2 ri1' ri2' d1 d2 H1 H2.
    apply internal_network_added_changes in H1 as [Ha1 Hr1].
    apply internal_network_removed_changes in H2 as [Ha2 Hr2].
    rewrite Hr2, Ha1, Hid. split; [done|]. split; [by intros ->|done].
  - intros gw cidrs h1 h2 ri1' ri2' d1 d2 H1 H2.
    apply external_gateway_added_changes in H1 as [Ha1 Hr1].
    apply external_gateway_removed_changes in H2 as [Ha2 Hr2].
    rewrite Hr2, Ha1, Hid. done.
Qed.

Lemma removal_mirrors_addition_witness :
  let ri := Scenario.gateway_before in
  let gw := Some (Port.set_ip_cidr "203.0.113.5/24" Scenario.gw) in
  let added := floating_ip_added Scenario.env Scenario.conf gw
                 "203.0.113.10" (Some "10.0.1.5") [] ri in
  let removed := floating_ip_removed Scenario.env gw
                   "203.0.113.10" (Some "10.0.1.5") (snd added) ri in
  rules_removed (snd removed) = rules_added (snd added)
  /\ rules_added (snd added)
     = [("r1", "nat", "PREROUTING", "-d 203.0.113.10 -j DNAT --to 10.0.1.5");
        ("r1", "nat", "OUTPUT", "-d 203.0.113.10 -j DNAT --to 10.0.1.5");
        ("r1", "nat", "float-snat",
         "-s 10.0.1.5 -j SNAT --to 203.0.113.10")].
Proof.
  intros ri gw added removed.
  assert (H1 : added = (Ok tt, snd (fst added), snd added))
    by (by vm_compute).
  assert (H2 : removed = (Ok tt, snd (fst removed), snd removed))
    by (by vm_compute).
  destruct (removal_mirrors_addition Scenario.env Scenario.conf ri ri
              eq_refl) as [Hfip _].
  destruct (Hfip gw "203.0.113.10" (Some "10.0.1.5") [] (snd added)
              _ _ _ _ H1 H2) as (Hmirror & Hadded & _).
  split; [exact Hmirror|]. rewrite Hadded. by vm_compute.
Defined.

(** * Invariants and fixpoints of the reconciliation *)

(** X21.  Unique port ids are an invariant of process_router: when the
    descriptor's ports have distinct ids and the ports the RouterInfo
    holds have distinct ids, so have the ports it holds after a
    reconciliation that returns. *)
Theorem port_ids_stay_unique env conf h ri r ri' d :
  RouterInfo.router ri = Some r ->
  process_router env conf h ri = (Ok tt, ri', d) ->
  NoDup (Port.id <$> Router._interfaces r) ->
  NoDup (Port.id <$> RouterInfo.internal_ports ri) ->
  NoDup (Port.id <$> RouterInfo.internal_ports ri').
Proof. apply process_router_ports_NoDup. Qed.

Lemma port_ids_stay_unique_witness :
  let run := process_router Scenario.env Scenario.conf []
               Scenario.ports_before in
  NoDup (Port.id <$> Router._interfaces Scenario.ports_descriptor)
  /\ NoDup (Port.id <$> RouterInfo.internal_ports Scenario.ports_before)
  /\ NoDup (Port.id <$> RouterInfo.internal_ports (snd (fst run))).
Proof.
  intros run.
  assert (Hrun : run = (Ok tt, snd (fst run), snd run)) by (by vm_compute).
  assert (HD : NoDup (Port.id <$> Router._interfaces Scenario.ports_descriptor))
    by (apply (bool_decide_unpack _); by vm_compute).
  assert (HE : NoDup (Port.id <$> RouterInfo.internal_ports
                                    Scenario.ports_before))
    by (apply (bool_decide_unpack _); by vm_compute).
  split; [exact HD|]. split; [exact HE|].
  exact (port_ids_stay_unique Scenario.env Scenario.conf []
           Scenario.ports_before Scenario.ports_descriptor _ _
           eq_refl Hrun HD HE).
Defined.

(** X22.  A settled RouterInfo is left alone: when the RouterInfo
    holds exactly the admin-up ports of its descriptor (each with its
    ip_cidr), has a gateway port exactly if the descriptor has one and,
    with a gateway, holds the descriptor's floating IPs (all with a port,
    with distinct ids), process_router returns without a single event
    and only stores the descriptor's gateway port. *)
Theorem settled_router_is_left_alone env conf h ri r :
  RouterInfo.router ri = Some r ->
  settled ri r ->
  process_router env conf h ri
  = (Ok tt, RouterInfo.set_ex_gw_port (Router.gw_port r) ri, []).
Proof. apply process_router_settled. Qed.

(** X23.  A first reconciliation converges: when a router the agent did
    not know (a RouterInfo as _router_added makes it) is reconciled with
    a descriptor whose floating IPs all have a port and distinct ids,
    and the reconciliation returns, the RouterInfo is settled for that
    descriptor, and reconciling the same descriptor again returns
    without a single event. *)
Theorem first_reconciliation_converges env conf h ri r ri' d h2 :
  fresh ri r ->
  Forall (fun fip => truthy (FloatingIp.port_id fip) = true)
         (Router._floatingips r) ->
  NoDup (FloatingIp.id <$> Router._floatingips r) ->
  process_router env conf h ri = (Ok tt, ri', d) ->
  settled ri' r
  /\ process_router env conf h2 (RouterInfo.set_router (Some r) ri')
     = (Ok tt,
        RouterInfo.set_ex_gw_port (Router.gw_port r)
          (RouterInfo.set_router (Some r) ri'),
        []).
Proof.
  intros Hfresh Hports Hnd H. split.
  - by eapply first_reconciliation_settles.
  - by eapply first_reconciliation_replay.
Qed.

Lemma first_reconciliation_converges_witness :
  let r := Scenario.two_fips in
  let ri := RouterInfo.mk "r1" None [] [] true (Some r) in
  let run := process_router Scenario.env Scenario.conf [] ri in
  fresh ri r
  /\ fst (fst run) = Ok tt
  /\ settled (snd (fst run)) r
  /\ snd (process_router Scenario.env Scenario.conf (snd run)
            (RouterInfo.set_router (Some r) (snd (fst run)))) = [].
Proof.
  intros r ri run.
  assert (Hfresh : fresh ri r) by (by repeat split).
  assert (Hrun : run = (Ok tt, snd (fst run), snd run)) by (by vm_compute).
  assert (Hports : Forall (fun fip => truthy (FloatingIp.port_id fip) = true)
                          (Router._floatingips r))
    by (by repeat constructor).
  assert (Hnd : NoDup (FloatingIp.id <$> Router._floatingips r))
    by (apply (bool_decide_unpack _); by vm_compute).
  destruct (first_reconciliation_converges Scenario.env Scenario.conf []
              ri r _ _ (snd run) Hfresh Hports Hnd Hrun) as [Hset Hreplay].
  split; [exact Hfresh|]. split; [by rewrite Hrun|].
  split; [exact Hset|]. by rewrite Hreplay.
Defined.

Lemma settled_router_is_left_alone_witness :
  let r := Scenario.two_fips in
  let ri0 := RouterInfo.mk "r1" None [] [] true (Some r) in
  let ri := RouterInfo.set_router (Some r)
              (snd (fst (process_router Scenario.env Scenario.conf [] ri0))) in
  settled ri r
  /\ process_router Scenario.env Scenario.conf [] ri
     = (Ok tt, RouterInfo.set_ex_gw_port (Router.gw_port r) ri, []).
Proof.
  intros r ri0 ri.
  assert (Hset : settled ri r).
  { change (settled (snd (fst (process_router Scenario.env Scenario.conf
                                 [] ri0))) r).
    apply (first_reconciliation_settles Scenario.env Scenario.conf [] ri0 r
             _ (snd (process_router Scenario.env Scenario.conf [] ri0))).
    - by repeat split.
    - by repeat constructor.
    - apply (bool_decide_unpack _). by vm_compute.
    - by vm_compute. }
  split; [exact Hset|].
  exact (settled_router_is_left_alone Scenario.env Scenario.conf [] ri r
           eq_refl Hset).
Defined.

(** X24.  The loop over ri.floating_ips, which removes from and appends
    to the list it iterates over, always ends, and it ends because the
    iterator's index is past the end of the list: every round moves the
    index one step while the list grows by at most nothing, so any two
    bounds on the number of rounds above what is left of the list give
    the same run. *)
Theorem second_loop_ends_by_index env conf fuel1 fuel2 i to_remove m h ri :
  length (RouterInfo.floating_ips ri) < fuel1 + i ->
  length (RouterInfo.floating_ips ri) < fuel2 + i ->
  floating_ips_second_loop env conf fuel1 i to_remove m h ri
  = floating_ips_second_loop env conf fuel2 i to_remove m h ri.
Proof. apply floating_ips_second_loop_fuel. Qed.

Lemma second_loop_ends_by_index_witness :
  let gw := Some (Port.set_ip_cidr "203.0.113.5/24" Scenario.gw) in
  let ri := RouterInfo.mk "r1" gw [] [Scenario.f1 "10.0.1.5";
                                      Scenario.f2 "10.0.1.6"] true
                          (Some Scenario.f2_moved) in
  let m : gmap string FloatingIp.t := {[ "f2" := Scenario.f2 "10.0.1.7" ]} in
  floating_ips_second_loop Scenario.env Scenario.conf 3 0 {[ "f1" ]} m [] ri
  = floating_ips_second_loop Scenario.env Scenario.conf 50 0 {[ "f1" ]} m []
      ri.
Proof.
  intros gw ri m.
  apply (second_loop_ends_by_index Scenario.env Scenario.conf 3 50 0
           {[ "f1" ]} m [] ri); simpl; lia.
Defined.

(** X25.  A remap on its own is carried out: when the RouterInfo holds
    one floating IP and the descriptor has it, with a port, under
    another fixed address, process_router_floating_ips, when it returns,
    has entered floating_ip_removed with the old fixed address, then
    floating_ip_added with the new one, no other hook, and the
    RouterInfo holds the descriptor's record. *)
Theorem remap_alone_is_carried_out env conf gw h ri r fip new_fip ri' d :
  RouterInfo.router ri = Some r ->
  RouterInfo.floating_ips ri = [fip] ->
  Router._floatingips r = [new_fip] ->
  FloatingIp.id new_fip = FloatingIp.id fip ->
  truthy (FloatingIp.port_id new_fip) = true ->
  truthy (FloatingIp.fixed_ip_address new_fip) = true ->
  truthy (FloatingIp.fixed_ip_address fip) = true ->
  FloatingIp.fixed_ip_address new_fip <> FloatingIp.fixed_ip_address fip ->
  process_router_floating_ips env conf gw h ri = (Ok tt, ri', d) ->
  RouterInfo.floating_ips ri' = [new_fip]
  /\ exists d1 d2,
       d = Call_floating_ip_removed (RouterInfo.router_id ri)
             (FloatingIp.floating_ip_address fip)
             (FloatingIp.fixed_ip_address fip)
           :: d1
           ++ Call_floating_ip_added (RouterInfo.router_id ri)
                (FloatingIp.floating_ip_address fip)
                (FloatingIp.fixed_ip_address new_fip)
           :: d2
       /\ low d1 /\ low d2.
Proof. apply floating_ip_remap_alone. Qed.

Lemma remap_alone_is_carried_out_witness :
  let gw := Some (Port.set_ip_cidr "203.0.113.5/24" Scenario.gw) in
  let ri := RouterInfo.mk "r1" gw [] [Scenario.f2 "10.0.1.6"] true
                          (Some Scenario.f2_moved) in
  let run := process_router_floating_ips Scenario.env Scenario.conf gw []
               ri in
  fst (fst run) = Ok tt
  /\ RouterInfo.floating_ips (snd (fst run)) = [Scenario.f2 "10.0.1.7"].
Proof.
  intros gw ri run.
  assert (Hrun : run = (Ok tt, snd (fst run), snd run)) by (by vm_compute).
  destruct (remap_alone_is_carried_out Scenario.env Scenario.conf gw [] ri
              Scenario.f2_moved (Scenario.f2 "10.0.1.6")
              (Scenario.f2 "10.0.1.7") _ _
              eq_refl eq_refl eq_refl eq_refl eq_refl eq_refl eq_refl
              ltac:(done) Hrun) as [Hfips _].
  split; [by rewrite Hrun|exact Hfips].
Defined.

(** X26.  The periodic task with the flag set returns, and it leaves
    the flag cleared exactly when the fetch returned and the
    reconciliation of the fetched routers, started from an empty
    registry, returned as well; the state is then the one that
    reconciliation left. *)
Theorem sync_clears_flag_on_success env conf h a res a' d :
  fullsync a = true ->
  _sync_routers_task env conf h a = (res, a', d) ->
  res = Ok tt
  /\ (fullsync a' = false <->
      exists routers d0 a1 d1,
        get_routers env conf
          (if negb (use_namespaces conf) then ArgStr (router_id conf)
           else ArgNone) None (h ++ [SemAcquire]) a
        = (Ok routers, a, d0)
        /\ _process_routers env conf routers ((h ++ [SemAcquire]) ++ d0)
             (set_router_info ∅ a)
           = (Ok tt, a1, d1)
        /\ a' = set_fullsync false a1).
Proof. apply sync_routers_task_flag. Qed.

Lemma sync_clears_flag_on_success_witness :
  let e := Scenario.env_with_routers [Scenario.ra; Scenario.rb] in
  let run := _sync_routers_task e Scenario.conf [] Host.with_r1 in
  fullsync Host.with_r1 = true
  /\ fst (fst run) = Ok tt
  /\ fullsync (snd (fst run)) = false
  /\ router_info (snd (fst run)) !! "r1" = None.
Proof.
  intros e run.
  assert (Hflag : fullsync Host.with_r1 = true) by (by vm_compute).
  assert (Hrun : run = (fst (fst run), snd (fst run), snd run))
    by (by vm_compute).
  destruct (sync_clears_flag_on_success e Scenario.conf [] Host.with_r1
              _ _ _ Hflag Hrun) as [Hres _].
  split; [exact Hflag|]. split; [exact Hres|]. by vm_compute.
Defined.

(** * Only router_deleted tears a router down *)

Lemma in_scope_not_teardown r ns e :
  in_scope r ns e = true -> is_teardown e = false.
Proof.
  destruct e; try done. simpl.
  intros [_ Ht]%andb_true_iff. by apply String.eqb_eq in Ht as ->.
Qed.

Section NoTeardown.

Context (env : Env) (conf : Conf).

Local Abbreviation kept := (Forall (fun e => is_teardown e = false)).

Lemma _router_added_no_teardown rid router :
  respects_from (registry_ok conf) kept (_router_added env conf rid router).
Proof.
  unfold _router_added. from_with fail.
  all: try (by apply Forall_singleton).
  intros a Hreg k ri. simpl. destruct (decide (rid = k)) as [<-|Hne].
  - rewrite lookup_insert_eq. by intros [= <-].
  - rewrite lookup_insert_ne by done. apply Hreg.
Qed.

Lemma with_router_no_teardown r :
  respects_from (registry_ok conf) kept
    (with_router (Router.id r)
       (modify (RouterInfo.set_router (Some r)) ;; process_router env conf)).
Proof.
  intros h a res a' d Hreg H.
  apply (from_with_router conf (fun _ => True)
           (Forall (fun e => in_scope (Router.id r)
                               (namespace_of conf (Router.id r)) e = true)))
    in H as [[Hreg' _] Hd]; [| |done].
  - split; [done|]. eapply Forall_impl; [exact Hd|].
    intros e. apply in_scope_not_teardown.
  - from_with ltac:(apply process_router_scope). by intros ri [? ?].
Qed.

Lemma _process_routers_body_no_teardown target r :
  respects_from (registry_ok conf) kept
    (_process_routers_body env conf target r).
Proof.
  destruct (acceptable conf target r) eqn:Hacc.
  - eapply respects_from_ext.
    { intros h s. rewrite _process_routers_body_unfold, Hacc. done. }
    from_with ltac:(first [ apply _router_added_no_teardown
                          | apply with_router_no_teardown ]).
  - eapply respects_from_ext.
    { intros h s. rewrite _process_routers_body_unfold, Hacc. done. }
    intros h s res s' d Hs [= <- <- <-]. by split.
Qed.

Lemma _process_routers_no_teardown routers :
  respects_from (registry_ok conf) kept (_process_routers env conf routers).
Proof.
  intros h a res a' d Hreg H. apply _process_routers_loop in H
    as [(-> & f & l & -> & Hf & Hl)|(target & h' & d' & H & -> & _)].
  - split; [done|]. apply Forall_app. split; [|apply Forall_app; split].
    + unfold bridge_check. destruct (str_truthy _); by repeat constructor.
    + destruct Hf as [->| ->]; [done|]. unfold net_id_fetch.
      destruct (str_truthy _); by repeat constructor.
    + eapply Forall_impl; [exact Hl|]. intros e He. by destruct e.
  - apply (from_for_each (registry_ok conf) kept) in H as [Hreg' Hd];
      [| |done].
    + split; [done|]. apply Forall_app. split; [|apply Forall_app; split].
      * unfold bridge_check. destruct (str_truthy _); by repeat constructor.
      * unfold net_id_fetch. destruct (str_truthy _); by repeat constructor.
      * done.
    + intros r. apply _process_routers_body_no_teardown.
Qed.

End NoTeardown.

(** X27.  Only router_deleted tears a router down.  From a registry
    that is well formed, neither routers_updated nor the periodic task
    ever stops a metadata proxy, lists the devices of a namespace or
    removes a rule from a filter table, whatever the batch or the
    fetched routers are; so the routers that a full sync drops from the
    registry keep their namespace, their devices and their proxy. *)
Theorem only_router_deleted_tears_down env conf h a :
  registry_ok conf a ->
  (forall routers res a' d,
      routers_updated env conf routers h a = (res, a', d) ->
      Forall (fun e => is_teardown e = false) d)
  /\ (forall res a' d,
        _sync_routers_task env conf h a = (res, a', d) ->
        Forall (fun e => is_teardown e = false) d).
Proof.
  intros Hreg. split.
  - intros routers res a' d H. apply routers_updated_run in H
      as [(_ & _ & _ & ->)|(r1 & a1 & d1 & _ & Hp & _ & H)]; [done|].
    apply _process_routers_no_teardown in Hp as [_ Hd]; [|done].
    destruct H as [(_ & _ & ->)|(_ & _ & ->)].
    + apply Forall_cons. split; [done|]. apply Forall_app. split; [done|].
      by apply Forall_singleton.
    + apply Forall_cons. split; [done|].
      apply Forall_app. split; [|by apply Forall_singleton].
      apply Forall_app. split; [done|]. by apply Forall_singleton.
  - intros res a' d. unfold _sync_routers_task, with_sync_sem.
    rewrite bind_get.
    destruct (fullsync a);
      [|unfold ret; intros [= _ _ <-]; by repeat constructor].
    unfold try_except, get_routers. unfold bind at 1. unfold query.
    destruct (raises env (h ++ [SemAcquire]) _) as [e|].
    + rewrite bind_emit. unfold modify. intros [= _ _ <-].
      by repeat constructor.
    + rewrite bind_modify.
      destruct (bind (_process_routers _ _ _) _ _ _) as [[r1 a1] d1] eqn:Hp.
      assert (Hd : Forall (fun e => is_teardown e = false) d1).
      { apply bind_inv in Hp
          as [([] & s2 & d2 & d3 & Hp & Hm & ->)|(e & Hp & ->)];
          apply _process_routers_no_teardown in Hp as [_ Hd];
          try (intros k ri; simpl; by rewrite lookup_empty).
        - injection Hm as _ _ <-. by rewrite app_nil_r.
        - done. }
      destruct r1.
      * intros [= _ _ <-]. simpl.
        repeat first [ done | apply Forall_cons; split; [done|]
                     | apply Forall_app; split ].
      * rewrite bind_emit. unfold modify. intros [= _ _ <-]. simpl.
        repeat first [ done | apply Forall_cons; split; [done|]
                     | apply Forall_app; split ].
Qed.

Lemma only_router_deleted_tears_down_witness :
  let e := Scenario.env_with_routers [Scenario.ra] in
  let run := _sync_routers_task e Scenario.conf [] Host.with_r1 in
  registry_ok Scenario.conf Host.with_r1
  /\ router_info (snd (fst run)) !! "r1" = None
  /\ Forall (fun e => is_teardown e = false) (snd run).
Proof.
  intros e run.
  assert (Hreg : registry_ok Scenario.conf Host.with_r1)
    by (apply registry_ok_check; by vm_compute).
  assert (Hrun : run = (fst (fst run), snd (fst run), snd run))
    by (by vm_compute).
  destruct (only_router_deleted_tears_down e Scenario.conf []
              Host.with_r1 Hreg) as [_ Hsync].
  split; [exact Hreg|]. split; [by vm_compute|].
  exact (Hsync _ _ _ Hrun).
Defined.

(** * Setting a router up *)

Section Scripts.

Context (env : Env) {S : Type}.

Lemma runs_script_ret : runs_script env (ret (S:=S) tt) [].
Proof. intros h s res s' d [= <- <- <-]. by repeat split. Qed.

Lemma runs_script_call ev : runs_script env (call (S:=S) env ev) [ev].
Proof.
  intros h s res s' d. unfold call, query.
  destruct (raises env h ev) as [e|] eqn:Hr; intros [= <- <- <-].
  - split; [done|]. split; [done|]. split; [done|].
    intros Hq. by rewrite Hq in Hr.
  - by repeat split.
Qed.

Lemma runs_script_bind (m1 m2 : M S unit) l1 l2 :
  runs_script env m1 l1 -> runs_script env m2 l2 ->
  runs_script env (bind m1 (fun _ => m2)) (l1 ++ l2).
Proof.
  intros H1 H2 h s res s' d H.
  apply bind_inv in H as [([] & s1 & d1 & d2 & Hm1 & Hm2 & ->)|(e & Hm1 & ->)].
  - apply H1 in Hm1 as (-> & _ & Hd1 & _). rewrite (Hd1 eq_refl).
    apply H2 in Hm2 as (-> & Hp & Hd2 & Hq).
    split; [done|]. split; [by apply prefix_app|].
    split; [intros Hres; by rewrite (Hd2 Hres)|done].
  - apply H1 in Hm1 as (-> & Hp & _ & Hq).
    split; [done|]. split; [by apply prefix_app_r|].
    split; [done|]. intros Hquiet. by specialize (Hq Hquiet).
Qed.

Lemma runs_script_for_each {A} (f : A -> event) (l : list A) :
  runs_script env (for_each l (fun x => call (S:=S) env (f x))) (f <$> l).
Proof.
  induction l as [|x l IH]; cbn [for_each].
  - apply runs_script_ret.
  - apply (runs_script_bind _ _ [f x]); [apply runs_script_call|exact IH].
Qed.

End Scripts.

(** X28.  _router_added registers the router before it sets it up: for
    every outcome the registry holds, under the router's id, a new
    RouterInfo with no port, no gateway and no floating IP, and nothing
    else of the state has changed.  On the host it creates the namespace
    and enables forwarding in it (with namespaces only), adds the
    metadata rule to the filter and to the nat table, applies, and
    starts the metadata proxy, in this order, up to the first call that
    raises; on a host on which no call raises it returns. *)
Theorem router_added_registers_first env conf rid router h a res a' d :
  _router_added env conf rid router h a = (res, a', d) ->
  a' = set_router_info
         (<[rid := RouterInfo.mk rid None [] [] (use_namespaces conf) router]>
            (router_info a)) a
  /\ d `prefix_of` set_up_calls conf rid
  /\ (res = Ok tt -> d = set_up_calls conf rid)
  /\ (quiet env -> res = Ok tt).
Proof.
  unfold _router_added. rewrite bind_modify.
  match goal with
  | |- ?m _ _ = _ -> _ =>
      assert (Hs : runs_script env m (set_up_calls conf rid))
  end.
  { unfold set_up_calls, _create_router_namespace, _spawn_metadata_proxy,
      namespace_of, ns_name.
    cbn [RouterInfo.use_namespaces RouterInfo.router_id].
    apply runs_script_bind.
    { destruct (use_namespaces conf).
      - apply (runs_script_bind env _ _ [_] [_]); apply runs_script_call.
      - apply runs_script_ret. }
    apply runs_script_bind; [apply runs_script_for_each|].
    apply runs_script_bind; [apply runs_script_for_each|].
    apply (runs_script_bind env _ _ [_] [_]); apply runs_script_call. }
  intros H. by apply Hs in H as (-> & ? & ? & ?).
Qed.

Lemma router_added_registers_first_witness :
  let e := {|
    raises := fun _ ev =>
      match ev with
      | Execute _ _ _ => Some (OtherError "sysctl failed")
      | _ => None
      end;
    env_device_exists := fun _ _ _ => false;
    env_addr_list := fun _ _ _ => [];
    env_get_devices := fun _ _ => [];
    env_sync_routers := fun _ => [];
    env_get_external_network_id := fun _ => "ext";
    ip_network := Scenario.netaddr;
    DEV_NAME_LEN := 14
  |} in
  let run := _router_added e Scenario.conf "r1" None [] initial_agent in
  fst (fst run) = Raise (OtherError "sysctl failed")
  /\ router_info (snd (fst run)) !! "r1"
     = Some (RouterInfo.mk "r1" None [] [] true None)
  /\ snd run `prefix_of` set_up_calls Scenario.conf "r1".
Proof.
  intros e run.
  assert (Hrun : run = (fst (fst run), snd (fst run), snd run))
    by (by vm_compute).
  destruct (router_added_registers_first e Scenario.conf "r1" None []
              initial_agent _ _ _ Hrun) as (Ha & Hp & _).
  split; [by vm_compute|]. split; [|exact Hp].
  rewrite Ha. simpl. by rewrite lookup_insert_eq.
Defined.

(** * Floating IPs need a gateway *)

Section NoGateway.

Context (env : Env) (conf : Conf).

Local Abbreviation calm := (Forall (fun e => is_floating_call e = false)).

Lemma new_ports_loop_calm gw l :
  respects_from (fun _ : RouterInfo.t => True) calm
    (for_each l (new_port_body env conf gw)).
Proof.
  unfold new_port_body, internal_network_added, port_ip_cidr.
  from_with fail; by try apply Forall_singleton.
Qed.

Lemma old_ports_loop_calm gw l :
  respects_from (fun _ : RouterInfo.t => True) calm
    (for_each l (old_port_body env gw)).
Proof.
  unfold old_port_body, internal_network_removed, port_ip_cidr.
  from_with fail; by try apply Forall_singleton.
Qed.

End NoGateway.

(** X29.  Floating IPs need a gateway: while neither the descriptor nor
    the RouterInfo has a gateway port, process_router enters no floating
    IP hook and leaves the floating IPs that the RouterInfo holds as
    they are, whatever the descriptor lists and whatever the outcome;
    the RouterInfo still has no gateway port afterwards. *)
Theorem floating_ips_need_a_gateway env conf h ri r res ri' d :
  RouterInfo.router ri = Some r ->
  Router.gw_port r = None ->
  RouterInfo.ex_gw_port ri = None ->
  process_router env conf h ri = (res, ri', d) ->
  RouterInfo.floating_ips ri' = RouterInfo.floating_ips ri
  /\ RouterInfo.ex_gw_port ri' = None
  /\ Forall (fun e => is_floating_call e = false) d.
Proof.
  intros Hr Hgw Hex. unfold process_router.
  rewrite bind_get, Hr. cbn [of_option]. rewrite bind_ret, Hgw. intros H.
  apply bind_inv in H as [([] & s1 & d1 & d2 & H1 & H & ->)|(e & H1 & ->)].
  2: { pose proof H1 as Hv. apply new_ports_loop_floating in Hv as [Hv _].
       pose proof H1 as Hg. apply new_ports_loop_gateway in Hg as [Hg _].
       apply new_ports_loop_calm in H1 as [_ Hd]; [|done].
       split; [exact (f_equal fst Hv)|]. split; [|done].
       rewrite <- Hex. exact (f_equal fst Hg). }
  pose proof H1 as Hv1. apply new_ports_loop_floating in Hv1 as [Hv1 _].
  pose proof H1 as Hg1. apply new_ports_loop_gateway in Hg1 as [Hg1 _].
  apply new_ports_loop_calm in H1 as [_ Hd1]; [|done].
  apply bind_inv in H as [([] & s2 & d3 & d4 & H2 & H & ->)|(e & H2 & ->)].
  2: { pose proof H2 as Hv. apply old_ports_loop_floating in Hv as [Hv _].
       pose proof H2 as Hg. apply old_ports_loop_gateway in Hg as [Hg _].
       apply old_ports_loop_calm in H2 as [_ Hd]; [|done].
       split; [exact (eq_trans (f_equal fst Hv) (f_equal fst Hv1))|].
       split; [|by apply Forall_app].
       rewrite <- Hex. exact (eq_trans (f_equal fst Hg) (f_equal fst Hg1)). }
  pose proof H2 as Hv2. apply old_ports_loop_floating in Hv2 as [Hv2 _].
  pose proof H2 as Hg2. apply old_ports_loop_gateway in Hg2 as [Hg2 _].
  apply old_ports_loop_calm in H2 as [_ Hd2]; [|done].
  assert (Hfl : RouterInfo.floating_ips s2 = RouterInfo.floating_ips ri)
    by exact (eq_trans (f_equal fst Hv2) (f_equal fst Hv1)).
  assert (Hno : RouterInfo.ex_gw_port s2 = None).
  { rewrite <- Hex. exact (eq_trans (f_equal fst Hg2) (f_equal fst Hg1)). }
  rewrite bind_get in H.
  apply bind_inv in H as [(cidrs & s3 & d5 & d6 & H3 & H & ->)|(e & H3 & ->)].
  2: { apply mapM_port_ip_cidr_pure in H3 as [<- ->].
       split; [done|]. split; [done|]. rewrite app_nil_r.
       by apply Forall_app. }
  apply mapM_port_ip_cidr_pure in H3 as [<- ->].
  rewrite (bind_ok _ _ _ _ _ _ _
             (gateway_step_quiet env conf None cidrs _ s2
                ltac:(rewrite Hno; split; intros [? [=]]))) in H.
  rewrite Hno in H.
  rewrite bool_decide_eq_false_2 in H by (intros [[? [=]]|[? [=]]]).
  rewrite bind_ret in H. injection H as <- <- <-.
  split; [done|]. split; [done|]. rewrite !app_nil_r. by apply Forall_app.
Qed.

Lemma floating_ips_need_a_gateway_witness :
  let r := Router.mk "r1" true None None [Scenario.pa true]
                     [Scenario.f1 "10.0.1.5"] in
  let ri := RouterInfo.mk "r1" None [] [] true (Some r) in
  let run := process_router Scenario.env Scenario.conf [] ri in
  fst (fst run) = Ok tt
  /\ RouterInfo.floating_ips (snd (fst run)) = []
  /\ Forall (fun e => is_floating_call e = false) (snd run).
Proof.
  intros r ri run.
  assert (Hrun : run = (fst (fst run), snd (fst run), snd run))
    by (by vm_compute).
  destruct (floating_ips_need_a_gateway Scenario.env Scenario.conf [] ri r
              _ _ _ eq_refl eq_refl eq_refl Hrun) as (Hfl & _ & Hd).
  split; [by vm_compute|]. split; [exact Hfl|exact Hd].
Defined.

(** * The hooks do not repeat what the host already has *)

Lemma respects_from_at {S A} (I : S -> Prop) D (m : M S A) h s r s' d :
  respects_from I D m -> I s -> m h s = (r, s', d) -> D d.
Proof. intros Hm Hs H. by apply Hm in H as [_ ?]. Qed.

Section Guards.

Context (env : Env) (conf : Conf).

Lemma internal_network_added_existing gw network_id port_id cidr mac
    h ri res ri' d :
  env_device_exists env
    (h ++ [Call_internal_network_added (RouterInfo.router_id ri)
                                       port_id cidr])
    (get_internal_device_name env port_id) (ns_name ri) = true ->
  internal_network_added env conf gw network_id port_id cidr mac h ri
  = (res, ri', d) ->
  Forall (fun e => is_plug e = false) d.
Proof.
  intros Hex. unfold internal_network_added.
  rewrite bind_get, bind_emit.
  destruct (bind (query _ _ _) _ _ _) as [[r1 s1] d1] eqn:H1.
  intros [= _ _ <-]. apply Forall_cons. split; [done|].
  unfold bind at 1 in H1. unfold query in H1.
  destruct (raises env _ _) as [e|].
  { injection H1 as _ _ <-. by apply Forall_singleton. }
  rewrite Hex in H1. cbn [negb] in H1. rewrite bind_ret in H1.
  destruct (bind (call _ _) _ _ _) as [[r2 s2] d2] eqn:H2.
  injection H1 as _ _ <-. apply Forall_cons. split; [done|].
  revert H2.
  generalize ((h ++ [Call_internal_network_added (RouterInfo.router_id ri)
                       port_id cidr])
              ++ [DeviceExists (get_internal_device_name env port_id)
                               (ns_name ri)]).
  intros h2 H2.
  apply (respects_from_at (fun _ => True)
           (Forall (fun e => is_plug e = false))) in H2; [done| |done].
  from_with fail; by try apply Forall_singleton.
Qed.

Lemma external_gateway_added_existing gw cidrs h ri res ri' d :
  env_device_exists env
    (h ++ [Call_external_gateway_added (RouterInfo.router_id ri)
                                       (Port.id gw)])
    (get_external_device_name env (Port.id gw)) (ns_name ri) = true ->
  external_gateway_added env conf gw cidrs h ri = (res, ri', d) ->
  Forall (fun e => is_plug e = false) d.
Proof.
  intros Hex. unfold external_gateway_added, first_fixed_ip.
  rewrite bind_get, bind_emit.
  destruct (bind _ _ _ _) as [[r0 s0] d0] eqn:H0.
  intros [= _ _ <-]. apply Forall_cons. split; [done|].
  destruct (Port.fixed_ips gw) as [|ip ips].
  { rewrite bind_raise_now in H0. by injection H0 as _ _ <-. }
  rewrite bind_ret in H0.
  unfold bind at 1 in H0. unfold query in H0.
  destruct (raises env _ _) as [e|].
  { injection H0 as _ _ <-. by apply Forall_singleton. }
  rewrite Hex in H0. cbn [negb] in H0. rewrite bind_ret in H0.
  destruct (bind (of_option _ _) _ _ _) as [[r2 s2] d2] eqn:H2.
  injection H0 as _ _ <-. apply Forall_cons. split; [done|].
  revert H2.
  generalize ((h ++ [Call_external_gateway_added (RouterInfo.router_id ri)
                       (Port.id gw)])
              ++ [DeviceExists (get_external_device_name env (Port.id gw))
                               (ns_name ri)]).
  intros h2 H2.
  apply (respects_from_at (fun _ => True)
           (Forall (fun e => is_plug e = false))) in H2; [done| |done].
  from_with fail; by try apply Forall_singleton.
Qed.

Lemma floating_ip_added_bound gw floating_ip fixed_ip h ri res ri' d :
  floating_ip +:+ "/32"
    ∈ env_addr_list env
        (h ++ [Call_floating_ip_added (RouterInfo.router_id ri)
                                      floating_ip fixed_ip])
        (get_external_device_name env (Port.id gw)) (ns_name ri) ->
  floating_ip_added env conf (Some gw) floating_ip fixed_ip h ri
  = (res, ri', d) ->
  Forall (fun e => is_addr_add e = false /\ is_execute e = false) d.
Proof.
  intros Hin. unfold floating_ip_added.
  rewrite bind_get, bind_emit. cbn [of_option]. rewrite bind_ret.
  destruct (bind (query _ _ _) _ _ _) as [[r1 s1] d1] eqn:H1.
  intros [= _ _ <-]. apply Forall_cons. split; [done|].
  unfold bind at 1 in H1. unfold query in H1.
  destruct (raises env _ _) as [e|].
  { injection H1 as _ _ <-. by apply Forall_singleton. }
  rewrite (bool_decide_eq_true_2 _ Hin) in H1. cbn [negb] in H1.
  rewrite bind_ret in H1.
  destruct (bind (add_rules _ _ _ _) _ _ _) as [[r2 s2] d2] eqn:H2.
  injection H1 as _ _ <-. apply Forall_cons. split; [done|].
  revert H2.
  generalize ((h ++ [Call_floating_ip_added (RouterInfo.router_id ri)
                       floating_ip fixed_ip])
              ++ [AddrList (get_external_device_name env (Port.id gw))
                           (ns_name ri)]).
  intros h2 H2.
  apply (respects_from_at (fun _ => True)
           (Forall (fun e => is_addr_add e = false /\ is_execute e = false)))
    in H2; [done| |done].
  from_with fail; by try apply Forall_singleton.
Qed.

End Guards.

(** X30.  The hooks do not repeat what the host already has.  When the
    host answers that the device of the port exists, neither
    internal_network_added nor external_gateway_added plugs anything;
    and when the floating IP's /32 address is among the addresses the
    host lists for the gateway device, floating_ip_added adds no
    address and sends no gratuitous ARP (it runs no command at all);
    in each case whatever the outcome of the hook. *)
Theorem hooks_skip_what_exists env conf h ri :
  (forall gw network_id port_id cidr mac res ri' d,
      env_device_exists env
        (h ++ [Call_internal_network_added (RouterInfo.router_id ri)
                                           port_id cidr])
        (get_internal_device_name env port_id) (ns_name ri) = true ->
      internal_network_added env conf gw network_id port_id cidr mac h ri
      = (res, ri', d) ->
      Forall (fun e => is_plug e = false) d)
  /\ (forall gw cidrs res ri' d,
        env_device_exists env
          (h ++ [Call_external_gateway_added (RouterInfo.router_id ri)
                                             (Port.id gw)])
          (get_external_device_name env (Port.id gw)) (ns_name ri) = true ->
        external_gateway_added env conf gw cidrs h ri = (res, ri', d) ->
        Forall (fun e => is_plug e = false) d)
  /\ (forall gw floating_ip fixed_ip res ri' d,
        floating_ip +:+ "/32"
          ∈ env_addr_list env
              (h ++ [Call_floating_ip_added (RouterInfo.router_id ri)
                                            floating_ip fixed_ip])
              (get_external_device_name env (Port.id gw)) (ns_name ri) ->
        floating_ip_added env conf (Some gw) floating_ip fixed_ip h ri
        = (res, ri', d) ->
        Forall (fun e => is_addr_add e = false /\ is_execute e = false) d).
Proof.
  split; [|split].
  - intros *. apply internal_network_added_existing.
  - intros *. apply external_gateway_added_existing.
  - intros *. apply floating_ip_added_bound.
Qed.

Lemma hooks_skip_what_exists_witness :
  let e := {|
    raises := fun _ _ => None;
    env_device_exists := fun _ _ _ => true;
    env_addr_list := fun _ _ _ => ["203.0.113.5/24"; "203.0.113.10/32"];
    env_get_devices := fun _ _ => [];
    env_sync_routers := fun _ => [];
    env_get_external_network_id := fun _ => "ext";
    ip_network := Scenario.netaddr;
    DEV_NAME_LEN := 14
  |} in
  let gw := Port.set_ip_cidr "203.0.113.5/24" Scenario.gw in
  let ri := Scenario.gateway_before in
  let run := floating_ip_added e Scenario.conf (Some gw) "203.0.113.10"
               (Some "10.0.1.5") [] ri in
  fst (fst run) = Ok tt
  /\ Forall (fun e => is_addr_add e = false /\ is_execute e = false)
       (snd run)
  /\ length (rules_added (snd run)) = 3.
Proof.
  intros e gw ri run.
  assert (Hrun : run = (fst (fst run), snd (fst run), snd run))
    by (by vm_compute).
  destruct (hooks_skip_what_exists e Scenario.conf [] ri) as (_ & _ & Hfip).
  split; [by vm_compute|]. split; [|by vm_compute].
  apply (Hfip gw "203.0.113.10" (Some "10.0.1.5") (fst (fst run))
           (snd (fst run)) (snd run)); [|exact Hrun].
  apply (bool_decide_unpack _). by vm_compute.
Defined.
